(** * Virtual Platform Timer (xen/arch/x86/hvm/vpt.c)

    A shallow embedding of the periodic-timer core of the hypervisor and
    the properties of its specification.

    The C code works on [struct periodic_time] records that are owned by
    the device models and linked into the per-vCPU list [tm_list].  Here
    the records live in a store indexed by their address ([pt_id]), the
    vCPUs of the domain in a second store indexed by [vcpu_id], and every
    function of vpt.c becomes a function on the [world] that returns
    [None] where the C code dereferences a NULL or dangling pointer or
    divides by zero.  Each function runs under the per-vCPU [tm_lock]; it
    is modelled as one atomic step, and the clock does not advance inside
    a step.

    The file has the model first (machine integers, data, the functions
    of vpt.c, sequences of operations), then the vocabulary of the
    properties and the example states, then the lemmas and theorems. *)

From Stdlib Require Import ZArith Lia Bool List.
From stdpp Require Import base tactics option list numbers.

Open Scope Z_scope.

(** ** Machine integers *)

Module Mach.

(** Conversion of an integer to [uint8_t], [u32], [uint64_t] and to the
    signed 64-bit [s_time_t]; C arithmetic is the exact operation followed
    by the conversion to the type of the result. *)
Definition u8 (z : Z) : Z := z mod 2 ^ 8.
Definition u32 (z : Z) : Z := z mod 2 ^ 32.
Definition u64 (z : Z) : Z := z mod 2 ^ 64.
Definition s64 (z : Z) : Z := (z + 2 ^ 63) mod 2 ^ 64 - 2 ^ 63.

Definition in_u32 (z : Z) : Prop := 0 <= z < 2 ^ 32.
Definition in_u64 (z : Z) : Prop := 0 <= z < 2 ^ 64.
Definition in_s64 (z : Z) : Prop := - 2 ^ 63 <= z < 2 ^ 63.

End Mach.
Import Mach.

(** ** Data model *)

(** Addresses of vCPUs and of records index the two stores; a [time_cb]
    function pointer is a name. *)
Abbreviation vcpu_id := nat (only parsing).
Abbreviation pt_id := nat (only parsing).
Abbreviation time_cb := nat (only parsing).

(** The two time sources, [PTSRC_isa] and [PTSRC_lapic];
    [create_periodic_time] asserts that the source of a record is set. *)
Inductive ptsrc := PTSRC_isa | PTSRC_lapic.

(** The interrupt sources an acknowledged timer vector can come from;
    [pt_irq_vector] asserts that a source other than the PIC is the LAPIC. *)
Inductive hvm_intsrc := hvm_intsrc_pic | hvm_intsrc_lapic.

Record hvm_intack := mk_intack {
  intack_source : hvm_intsrc;
  intack_vector : Z
}.

(** The values of [HVM_PARAM_TIMER_MODE], [HVMPTM_delay_for_missed_ticks]
    and so on; [no_delay_for_missed_ticks] is the default, which vpt.c
    never names. *)
Inductive hvm_timer_mode :=
| delay_for_missed_ticks
| no_delay_for_missed_ticks
| no_missed_ticks_pending
| one_missed_tick_pending.

Definition hvm_timer_mode_eqb (a b : hvm_timer_mode) : bool :=
  match a, b with
  | delay_for_missed_ticks, delay_for_missed_ticks
  | no_delay_for_missed_ticks, no_delay_for_missed_ticks
  | no_missed_ticks_pending, no_missed_ticks_pending
  | one_missed_tick_pending, one_missed_tick_pending => true
  | _, _ => false
  end.

(** Modelled from the spec: the host one-shot timer facility
    ([init_timer], [set_timer], [stop_timer], [kill_timer],
    [migrate_timer] of xen/timer.h) is an external collaborator.  A timer
    handle is armed or not, has a deadline and is bound to a physical CPU. *)
Record timer := mk_timer {
  armed : bool;
  expires : Z;
  cpu : nat
}.

Definition init_timer (c : nat) : timer :=
  {| armed := false; expires := 0; cpu := c |}.
Definition set_timer (t : timer) (e : Z) : timer :=
  {| armed := true; expires := e; cpu := cpu t |}.
Definition stop_timer (t : timer) : timer :=
  {| armed := false; expires := expires t; cpu := cpu t |}.
Definition kill_timer (t : timer) : timer :=
  {| armed := false; expires := expires t; cpu := cpu t |}.
Definition migrate_timer (t : timer) (c : nat) : timer :=
  {| armed := armed t; expires := expires t; cpu := c |}.

(** Modelled from the spec: [struct periodic_time] is declared in
    asm/hvm/vpt.h, outside the sources at hand.  The fields are the ones
    vpt.c reads and writes and the data model of the specification lists.
    The flags are booleans, [irq] is a [uint8_t], [period],
    [period_cycles] and [last_plt_gtime] are [uint64_t] (vpt.c compares
    and adds them as such), [scheduled] is an [s_time_t] like [NOW()], and
    [pending_intr_nr] is taken as the 32-bit unsigned counter of the
    header.  The [list] member is the membership of the record's address
    in a [tm_list]; [vcpu] is [None] for the NULL pointer; [cb] is [None]
    for a NULL callback. *)
Record periodic_time := mk_pt {
  on_list : bool;
  one_shot : bool;
  do_not_freeze : bool;
  irq_issued : bool;
  source : ptsrc;
  irq : Z;
  vcpu : option vcpu_id;
  pending_intr_nr : Z;
  period : Z;
  period_cycles : Z;
  scheduled : Z;
  last_plt_gtime : Z;
  pt_timer : timer;
  cb : option time_cb;
  priv : Z
}.

Definition set_on_list (b : bool) (pt : periodic_time) : periodic_time :=
  mk_pt b (one_shot pt) (do_not_freeze pt) (irq_issued pt) (source pt)
    (irq pt) (vcpu pt) (pending_intr_nr pt) (period pt) (period_cycles pt)
    (scheduled pt) (last_plt_gtime pt) (pt_timer pt) (cb pt) (priv pt).

Definition set_do_not_freeze (b : bool) (pt : periodic_time) : periodic_time :=
  mk_pt (on_list pt) (one_shot pt) b (irq_issued pt) (source pt)
    (irq pt) (vcpu pt) (pending_intr_nr pt) (period pt) (period_cycles pt)
    (scheduled pt) (last_plt_gtime pt) (pt_timer pt) (cb pt) (priv pt).

Definition set_irq_issued (b : bool) (pt : periodic_time) : periodic_time :=
  mk_pt (on_list pt) (one_shot pt) (do_not_freeze pt) b (source pt)
    (irq pt) (vcpu pt) (pending_intr_nr pt) (period pt) (period_cycles pt)
    (scheduled pt) (last_plt_gtime pt) (pt_timer pt) (cb pt) (priv pt).

Definition set_pending_intr_nr (n : Z) (pt : periodic_time) : periodic_time :=
  mk_pt (on_list pt) (one_shot pt) (do_not_freeze pt) (irq_issued pt)
    (source pt) (irq pt) (vcpu pt) n (period pt) (period_cycles pt)
    (scheduled pt) (last_plt_gtime pt) (pt_timer pt) (cb pt) (priv pt).

Definition set_scheduled (s : Z) (pt : periodic_time) : periodic_time :=
  mk_pt (on_list pt) (one_shot pt) (do_not_freeze pt) (irq_issued pt)
    (source pt) (irq pt) (vcpu pt) (pending_intr_nr pt) (period pt)
    (period_cycles pt) s (last_plt_gtime pt) (pt_timer pt) (cb pt) (priv pt).

Definition set_last_plt_gtime (g : Z) (pt : periodic_time) : periodic_time :=
  mk_pt (on_list pt) (one_shot pt) (do_not_freeze pt) (irq_issued pt)
    (source pt) (irq pt) (vcpu pt) (pending_intr_nr pt) (period pt)
    (period_cycles pt) (scheduled pt) g (pt_timer pt) (cb pt) (priv pt).

Definition set_pt_timer (t : timer) (pt : periodic_time) : periodic_time :=
  mk_pt (on_list pt) (one_shot pt) (do_not_freeze pt) (irq_issued pt)
    (source pt) (irq pt) (vcpu pt) (pending_intr_nr pt) (period pt)
    (period_cycles pt) (scheduled pt) (last_plt_gtime pt) t (cb pt) (priv pt).

(** The part of [struct vcpu] the timer core uses: the list of linked
    records (front first, the order [list_for_each_entry] visits them),
    the [guest_time] slot of freeze and thaw, the guest's TSC offset, the
    physical CPU and the [_VPF_blocked] pause flag. *)
Record vcpu_state := mk_vcpu {
  tm_list : list pt_id;
  guest_time : Z;
  cache_tsc_offset : Z;
  processor : nat;
  blocked : bool
}.

Definition set_tm_list (l : list pt_id) (vc : vcpu_state) : vcpu_state :=
  mk_vcpu l (guest_time vc) (cache_tsc_offset vc) (processor vc) (blocked vc).
Definition set_guest_time (g : Z) (vc : vcpu_state) : vcpu_state :=
  mk_vcpu (tm_list vc) g (cache_tsc_offset vc) (processor vc) (blocked vc).
Definition set_cache_tsc_offset (o : Z) (vc : vcpu_state) : vcpu_state :=
  mk_vcpu (tm_list vc) (guest_time vc) o (processor vc) (blocked vc).

(** Modelled from the spec: the emulated interrupt controllers (vLAPIC of
    each vCPU, the two 8259 PICs, the I/O APIC) and the ISA-IRQ-to-GSI
    mapping are external collaborators; the timer core only reads them. *)
Record intctl := mk_intctl {
  vlapic_enabled : vcpu_id -> bool;
  vlapic_lvtt : vcpu_id -> Z;
  vlapic_accept_pic_intr : vcpu_id -> bool;
  vpic_imr : Z -> Z;
  vpic_irq_base : Z -> Z;
  vioapic_mask : Z -> bool;
  vioapic_vector : Z -> Z;
  hvm_isa_irq_to_gsi : Z -> Z
}.

(** Modelled from the spec: [APIC_LVT_MASKED] is declared in
    asm/apicdef.h, outside the sources at hand; it is the mask bit of a
    local vector table entry, bit 16. *)
Definition APIC_LVT_MASKED : Z := Z.shiftl 1 16.

(** What the timer core does to its collaborators, in the order it does it. *)
Inductive event :=
| vlapic_set_irq (v : vcpu_id) (vec : Z) (trig : Z)
| hvm_isa_irq_deassert (isa_irq : Z)
| hvm_isa_irq_assert (isa_irq : Z)
| vcpu_kick (v : vcpu_id)
| call_cb (f : time_cb) (v : vcpu_id) (data : Z)
| gdprintk_small_period (p : Z).

(** One domain: its records, its vCPUs, [HVM_PARAM_TIMER_MODE], the host
    clock [NOW()], the host TSC, [cpu_khz], the interrupt controllers and
    the calls made so far. *)
Record world := mk_world {
  heap : list periodic_time;
  vcpus : list vcpu_state;
  timer_mode : hvm_timer_mode;
  NOW : Z;
  host_tsc : Z;
  cpu_khz : Z;
  intc : intctl;
  trace : list event
}.

Definition set_heap (h : list periodic_time) (w : world) : world :=
  mk_world h (vcpus w) (timer_mode w) (NOW w) (host_tsc w) (cpu_khz w)
    (intc w) (trace w).
Definition set_vcpus (vs : list vcpu_state) (w : world) : world :=
  mk_world (heap w) vs (timer_mode w) (NOW w) (host_tsc w) (cpu_khz w)
    (intc w) (trace w).
Definition emit (es : list event) (w : world) : world :=
  mk_world (heap w) (vcpus w) (timer_mode w) (NOW w) (host_tsc w) (cpu_khz w)
    (intc w) (trace w ++ es).

(** [*pt = x] *)
Definition store_pt (id : pt_id) (pt : periodic_time) (w : world) : world :=
  set_heap (<[id := pt]> (heap w)) w.
(** [*v = x] *)
Definition store_vcpu (v : vcpu_id) (vc : vcpu_state) (w : world) : world :=
  set_vcpus (<[v := vc]> (vcpus w)) w.

(** [mode_is(d, name)] *)
Definition mode_is (w : world) (name : hvm_timer_mode) : bool :=
  hvm_timer_mode_eqb (timer_mode w) name.

(** Following the [vcpu] pointer of a record. *)
Definition pt_vcpu (w : world) (pt : periodic_time) : option vcpu_id :=
  v ← vcpu pt; _ ← vcpus w !! v; Some v.

(** Modelled from the spec: [hvm_get_guest_time] and [hvm_set_guest_time]
    (the guest-time offset mechanism) are external.  Guest time is the
    host TSC plus the vCPU's offset; setting it sets the offset so that
    the guest sees exactly the given time. *)
Definition hvm_get_guest_time (w : world) (vc : vcpu_state) : Z :=
  u64 (host_tsc w + cache_tsc_offset vc).
Definition hvm_set_guest_time (w : world) (vc : vcpu_state) (gtime : Z)
  : vcpu_state :=
  set_cache_tsc_offset (u64 (gtime - host_tsc w)) vc.

(** ** The functions of vpt.c *)

Definition pt_irq_vector (w : world) (pt : periodic_time) (src : hvm_intsrc)
  : option Z :=
  match source pt with
  | PTSRC_lapic => Some (irq pt)
  | PTSRC_isa =>
      _ ← pt_vcpu w pt;
      let isa_irq := irq pt in
      let gsi := hvm_isa_irq_to_gsi (intc w) isa_irq in
      match src with
      | hvm_intsrc_pic =>
          Some (vpic_irq_base (intc w) (Z.shiftr isa_irq 3) + Z.land isa_irq 7)
      | hvm_intsrc_lapic => Some (vioapic_vector (intc w) gsi)
      end
  end.

Definition pt_irq_masked (w : world) (pt : periodic_time) : option bool :=
  v ← pt_vcpu w pt;
  match source pt with
  | PTSRC_lapic =>
      Some (negb (vlapic_enabled (intc w) v)
            || negb (Z.land (vlapic_lvtt (intc w) v) APIC_LVT_MASKED =? 0))
  | PTSRC_isa =>
      let isa_irq := irq pt in
      let gsi := hvm_isa_irq_to_gsi (intc w) isa_irq in
      let pic_imr := vpic_imr (intc w) (Z.shiftr isa_irq 3) in
      Some ((negb (Z.land pic_imr (Z.shiftl 1 (Z.land isa_irq 7)) =? 0)
             || negb (vlapic_accept_pic_intr (intc w) v))
            && vioapic_mask (intc w) gsi)
  end.

(** [missed_ticks] is an [s_time_t]; [/] truncates towards zero and traps
    on a zero divisor; the sum into the 32-bit [pending_intr_nr] and the
    product with the unsigned 64-bit [period] wrap. *)
Definition pt_process_missed_ticks (w : world) (pt : periodic_time)
  : option periodic_time :=
  let now := NOW w in
  if one_shot pt then Some pt else
  let missed_ticks := s64 (now - scheduled pt) in
  if missed_ticks <=? 0 then Some pt else
  if s64 (period pt) =? 0 then None else
  let missed_ticks := s64 (Z.quot missed_ticks (s64 (period pt)) + 1) in
  _ ← pt_vcpu w pt;
  let pt :=
    if mode_is w no_missed_ticks_pending
    then set_do_not_freeze (pending_intr_nr pt =? 0) pt
    else set_pending_intr_nr (u32 (pending_intr_nr pt + missed_ticks)) pt in
  Some (set_scheduled (s64 (scheduled pt + missed_ticks * period pt)) pt).

(** [list_for_each_entry ( pt, head, list ) body]: the records are visited
    from the front of the list; the bodies in vpt.c leave the list itself
    alone. *)
Fixpoint list_for_each_entry (body : pt_id -> world -> option world)
    (l : list pt_id) (w : world) : option world :=
  match l with
  | [] => Some w
  | id :: l' => w' ← body id w; list_for_each_entry body l' w'
  end.

(** [list_del(&pt->list)]: the record leaves the list it is linked in. *)
Definition list_del (id : pt_id) (w : world) : world :=
  set_vcpus
    ((fun vc => set_tm_list (filter (fun x => x <> id) (tm_list vc)) vc)
       <$> vcpus w) w.

Definition pt_freeze_time (v : vcpu_id) (w : world) : option world :=
  vc ← vcpus w !! v;
  if negb (mode_is w delay_for_missed_ticks) then Some w else
  Some (store_vcpu v (set_guest_time (hvm_get_guest_time w vc) vc) w).

Definition pt_thaw_time (v : vcpu_id) (w : world) : option world :=
  vc ← vcpus w !! v;
  if negb (mode_is w delay_for_missed_ticks) then Some w else
  if guest_time vc =? 0 then Some w else
  Some (store_vcpu v
          (set_guest_time 0 (hvm_set_guest_time w vc (guest_time vc))) w).

Definition pt_save_timer_body (id : pt_id) (w : world) : option world :=
  pt ← heap w !! id;
  if do_not_freeze pt then Some w
  else Some (store_pt id (set_pt_timer (stop_timer (pt_timer pt)) pt) w).

Definition pt_save_timer (v : vcpu_id) (w : world) : option world :=
  vc ← vcpus w !! v;
  if blocked vc then Some w else
  w ← list_for_each_entry pt_save_timer_body (tm_list vc) w;
  pt_freeze_time v w.

Definition pt_restore_timer_body (id : pt_id) (w : world) : option world :=
  pt ← heap w !! id;
  pt ← pt_process_missed_ticks w pt;
  Some (store_pt id (set_pt_timer (set_timer (pt_timer pt) (scheduled pt)) pt) w).

Definition pt_restore_timer (v : vcpu_id) (w : world) : option world :=
  vc ← vcpus w !! v;
  w ← list_for_each_entry pt_restore_timer_body (tm_list vc) w;
  pt_thaw_time v w.

(** The expiry callback; [data] is the record. *)
Definition pt_timer_fn (id : pt_id) (w : world) : option world :=
  pt ← heap w !! id;
  v ← pt_vcpu w pt;
  let pt := set_pending_intr_nr (u32 (pending_intr_nr pt + 1)) pt in
  pt ← (if one_shot pt then Some pt else
        let pt := set_scheduled (s64 (scheduled pt + period pt)) pt in
        pt ← pt_process_missed_ticks w pt;
        Some (set_pt_timer (set_timer (pt_timer pt) (scheduled pt)) pt));
  Some (emit [vcpu_kick v] (store_pt id pt w)).

(** The lag key the selector compares, a [uint64_t]. *)
Definition lag_key (pt : periodic_time) : Z :=
  u64 (last_plt_gtime pt + period_cycles pt).

(** The loop of [pt_update_irq], with its two locals. *)
Fixpoint pt_update_irq_scan (w : world) (l : list pt_id) (max_lag : Z)
    (earliest_pt : option pt_id) : option (option pt_id) :=
  match l with
  | [] => Some earliest_pt
  | id :: l' =>
      pt ← heap w !! id;
      masked ← pt_irq_masked w pt;
      if negb masked && negb (pending_intr_nr pt =? 0)
         && (lag_key pt <? max_lag)
      then pt_update_irq_scan w l' (lag_key pt) (Some id)
      else pt_update_irq_scan w l' max_lag earliest_pt
  end.

Definition pt_update_irq (v : vcpu_id) (w : world) : option world :=
  vc ← vcpus w !! v;
  earliest_pt ← pt_update_irq_scan w (tm_list vc) (u64 (-1)) None;
  match earliest_pt with
  | None => Some w
  | Some id =>
      pt ← heap w !! id;
      let w := store_pt id (set_irq_issued true pt) w in
      match source pt with
      | PTSRC_lapic => Some (emit [vlapic_set_irq v (irq pt) 0] w)
      | PTSRC_isa =>
          Some (emit [hvm_isa_irq_deassert (irq pt);
                      hvm_isa_irq_assert (irq pt)] w)
      end
  end.

Fixpoint is_pt_irq_scan (w : world) (l : list pt_id) (intack : hvm_intack)
  : option (option pt_id) :=
  match l with
  | [] => Some None
  | id :: l' =>
      pt ← heap w !! id;
      if negb (pending_intr_nr pt =? 0) && irq_issued pt then
        vec ← pt_irq_vector w pt (intack_source intack);
        if intack_vector intack =? vec then Some (Some id)
        else is_pt_irq_scan w l' intack
      else is_pt_irq_scan w l' intack
  end.

Definition is_pt_irq (w : world) (v : vcpu_id) (intack : hvm_intack)
  : option (option pt_id) :=
  vc ← vcpus w !! v;
  is_pt_irq_scan w (tm_list vc) intack.

Definition pt_intr_post (v : vcpu_id) (intack : hvm_intack) (w : world)
  : option world :=
  r ← is_pt_irq w v intack;
  match r with
  | None => Some w
  | Some id =>
      pt ← heap w !! id;
      vc ← vcpus w !! v;
      let pt := set_irq_issued false (set_do_not_freeze false pt) in
      let pt_w :=
        if one_shot pt then
          (set_on_list false pt, if on_list pt then list_del id w else w)
        else if mode_is w one_missed_tick_pending then
          (set_pending_intr_nr 0
             (set_last_plt_gtime (hvm_get_guest_time w vc) pt), w)
        else
          (set_pending_intr_nr (u32 (pending_intr_nr pt - 1))
             (set_last_plt_gtime
                (u64 (last_plt_gtime pt + period_cycles pt)) pt), w) in
      let pt := pt_w.1 in
      let w := store_pt id pt pt_w.2 in
      vc ← vcpus w !! v;
      let w :=
        if mode_is w delay_for_missed_ticks
           && (hvm_get_guest_time w vc <? last_plt_gtime pt)
        then store_vcpu v (hvm_set_guest_time w vc (last_plt_gtime pt)) w
        else w in
      match cb pt with
      | Some f => Some (emit [call_cb f v (priv pt)] w)
      | None => Some w
      end
  end.

Definition pt_reset_body (id : pt_id) (w : world) : option world :=
  pt ← heap w !! id;
  u ← vcpu pt;
  uc ← vcpus w !! u;
  let pt := set_pending_intr_nr 0 pt in
  let pt := set_last_plt_gtime (hvm_get_guest_time w uc) pt in
  let pt := set_scheduled (s64 (NOW w + period pt)) pt in
  Some (store_pt id (set_pt_timer (set_timer (pt_timer pt) (scheduled pt)) pt) w).

Definition pt_reset (v : vcpu_id) (w : world) : option world :=
  vc ← vcpus w !! v;
  list_for_each_entry pt_reset_body (tm_list vc) w.

Definition pt_migrate_body (c : nat) (id : pt_id) (w : world) : option world :=
  pt ← heap w !! id;
  Some (store_pt id (set_pt_timer (migrate_timer (pt_timer pt) c) pt) w).

Definition pt_migrate (v : vcpu_id) (w : world) : option world :=
  vc ← vcpus w !! v;
  list_for_each_entry (pt_migrate_body (processor vc)) (tm_list vc) w.

Definition destroy_periodic_time (id : pt_id) (w : world) : option world :=
  pt ← heap w !! id;
  match vcpu pt with
  | None => Some w
  | Some v =>
      _ ← vcpus w !! v;
      let w := if on_list pt then list_del id w else w in
      Some (store_pt id
              (set_pt_timer (kill_timer (pt_timer pt)) (set_on_list false pt)) w)
  end.

(** The arguments [period] and [irq] are a [uint64_t] and a [uint8_t]. *)
Definition create_periodic_time (v : vcpu_id) (id : pt_id) (period0 : Z)
    (irq0 : Z) (one_shot0 : bool) (cb0 : option time_cb) (data : Z)
    (w : world) : option world :=
  let period0 := u64 period0 in
  let irq0 := u8 irq0 in
  w ← destroy_periodic_time id w;
  vc ← vcpus w !! v;
  pt ← heap w !! id;
  let small := (period0 <? 900000) && negb one_shot0 in
  let w := if small then emit [gdprintk_small_period period0] w else w in
  let period1 := if small then 900000 else period0 in
  let sched := s64 (NOW w + period1) in
  let sched :=
    match source pt with
    | PTSRC_lapic => s64 (sched + Z.shiftr period1 1)
    | PTSRC_isa => sched
    end in
  let pt :=
    {| on_list := true; one_shot := one_shot0; do_not_freeze := false;
       irq_issued := false; source := source pt; irq := irq0;
       vcpu := Some v; pending_intr_nr := 0; period := period1;
       period_cycles := u64 (period1 * cpu_khz w) / 1000000;
       scheduled := sched;
       last_plt_gtime := hvm_get_guest_time w vc;
       pt_timer := set_timer (init_timer (processor vc)) sched;
       cb := cb0; priv := data |} in
  Some (store_vcpu v (set_tm_list (id :: tm_list vc) vc) (store_pt id pt w)).

(** ** Sequences of operations *)

(** The public operations, the expiry callback, and what the environment
    does between them: the clocks advance, the guest reprograms its
    interrupt controllers, the scheduler moves or blocks a vCPU. *)
Inductive op :=
| Op_create (v : vcpu_id) (id : pt_id) (period0 irq0 : Z) (one_shot0 : bool)
    (cb0 : option time_cb) (data : Z)
| Op_destroy (id : pt_id)
| Op_save (v : vcpu_id)
| Op_restore (v : vcpu_id)
| Op_update_irq (v : vcpu_id)
| Op_intr_post (v : vcpu_id) (intack : hvm_intack)
| Op_reset (v : vcpu_id)
| Op_migrate (v : vcpu_id)
| Op_timer_fn (id : pt_id)
| Env_clock (now tsc : Z)
| Env_intc (ic : intctl)
| Env_sched (v : vcpu_id) (c : nat) (b : bool).

(** Modelled from the spec: the host timer facility invokes the expiry
    callback of an armed timer once its deadline is reached, and the timer
    is no longer armed when the callback starts. *)
Definition fire_timer (id : pt_id) (w : world) : option world :=
  pt ← heap w !! id;
  if armed (pt_timer pt) && (expires (pt_timer pt) <=? NOW w)
  then pt_timer_fn id (store_pt id (set_pt_timer (stop_timer (pt_timer pt)) pt) w)
  else None.

Definition step (o : op) (w : world) : option world :=
  match o with
  | Op_create v id p i os f d => create_periodic_time v id p i os f d w
  | Op_destroy id => destroy_periodic_time id w
  | Op_save v => pt_save_timer v w
  | Op_restore v => pt_restore_timer v w
  | Op_update_irq v => pt_update_irq v w
  | Op_intr_post v intack => pt_intr_post v intack w
  | Op_reset v => pt_reset v w
  | Op_migrate v => pt_migrate v w
  | Op_timer_fn id => fire_timer id w
  | Env_clock now tsc =>
      Some (mk_world (heap w) (vcpus w) (timer_mode w) now tsc (cpu_khz w)
              (intc w) (trace w))
  | Env_intc ic =>
      Some (mk_world (heap w) (vcpus w) (timer_mode w) (NOW w) (host_tsc w)
              (cpu_khz w) ic (trace w))
  | Env_sched v c b =>
      vc ← vcpus w !! v;
      Some (store_vcpu v
              (mk_vcpu (tm_list vc) (guest_time vc) (cache_tsc_offset vc) c b) w)
  end.

Fixpoint run (ops : list op) (w : world) : option world :=
  match ops with
  | [] => Some w
  | o :: ops' => w' ← step o w; run ops' w'
  end.

(** ** A small domain to run the operations on *)

Module Example.

(** Nothing masked: both PICs and the I/O APIC let every line through,
    the LAPICs are enabled; PIC vectors start at 32 and 40, the I/O APIC
    maps GSI [g] to vector [48 + g], and ISA IRQ 0 is GSI 2. *)
Definition ic0 : intctl :=
  {| vlapic_enabled := fun _ => true;
     vlapic_lvtt := fun _ => 0;
     vlapic_accept_pic_intr := fun _ => true;
     vpic_imr := fun _ => 0;
     vpic_irq_base := fun i => if i =? 0 then 32 else 40;
     vioapic_mask := fun _ => false;
     vioapic_vector := fun g => 48 + g;
     hvm_isa_irq_to_gsi := fun i => if i =? 0 then 2 else i |}.

(** A record no [create_periodic_time] has seen yet: zeroed, with the
    source filled in by its device model. *)
Definition fresh (s : ptsrc) : periodic_time :=
  mk_pt false false false false s 0 None 0 0 0 0 0 (init_timer 0%nat) None 0.

Definition vcpu0 : vcpu_state := mk_vcpu [] 0 0 0%nat false.

(** Two vCPUs, a PIT-like and an RTC-like ISA record and a LAPIC record,
    on a 2 GHz host at time 0. *)
Definition boot (m : hvm_timer_mode) : world :=
  {| heap := [fresh PTSRC_isa; fresh PTSRC_isa; fresh PTSRC_lapic];
     vcpus := [vcpu0; vcpu0];
     timer_mode := m; NOW := 0; host_tsc := 0; cpu_khz := 2000000;
     intc := ic0; trace := [] |}.

(** One vCPU and two LAPIC records, for the competition of two timers. *)
Definition boot_two_lapic : world :=
  {| heap := [fresh PTSRC_lapic; fresh PTSRC_lapic];
     vcpus := [vcpu0];
     timer_mode := no_delay_for_missed_ticks; NOW := 0; host_tsc := 0;
     cpu_khz := 2000000; intc := ic0; trace := [] |}.

(** A 1 ms timer whose vCPU is descheduled from 0.2 ms to 5.7 ms and
    then restored. *)
Definition offline (m : hvm_timer_mode) : option world :=
  run [Op_create 0%nat 0%nat 1000000 0 false None 0;
       Env_clock 200000 400000; Op_save 0%nat;
       Env_clock 5700000 11400000; Op_restore 0%nat] (boot m).

End Example.

(** ** The vocabulary of the properties *)

(** The number of ticks the processor computes, as the specification
    writes it. *)
Definition spec_missed (w : world) (pt : periodic_time) : Z :=
  (NOW w - scheduled pt) / period pt + 1.

(** The record at [id] is linked into the list of vCPU [v]. *)
Definition linked (w : world) (v : vcpu_id) (id : pt_id) : Prop :=
  exists pt, heap w !! id = Some pt /\ on_list pt = true /\ vcpu pt = Some v.

(** Every listed address holds a record that is marked [on_list] and
    points back to the vCPU of the list; a [vcpu] pointer that is not NULL
    points to a vCPU of the domain; [pending_intr_nr] is unsigned. *)
Record wf (w : world) : Prop := mk_wf {
  wf_linked : forall v vc id,
    vcpus w !! v = Some vc -> id ∈ tm_list vc -> linked w v id;
  wf_vcpu : forall id pt v,
    heap w !! id = Some pt -> vcpu pt = Some v -> is_Some (vcpus w !! v);
  wf_pending : forall id pt,
    heap w !! id = Some pt -> 0 <= pending_intr_nr pt
}.

(** The same, as a check that runs. *)
Fixpoint forallb_from {A} (f : nat -> A -> bool) (i : nat) (l : list A) : bool :=
  match l with
  | [] => true
  | x :: l' => f i x && forallb_from f (S i) l'
  end.

Definition linkedb (w : world) (v : vcpu_id) (id : pt_id) : bool :=
  match heap w !! id with
  | Some pt =>
      on_list pt && match vcpu pt with Some u => Nat.eqb u v | None => false end
  | None => false
  end.

Definition wfb (w : world) : bool :=
  forallb_from (fun v vc => forallb (linkedb w v) (tm_list vc)) 0 (vcpus w)
  && forallb (fun pt =>
                match vcpu pt with
                | Some v => match vcpus w !! v with Some _ => true | None => false end
                | None => true
                end && (0 <=? pending_intr_nr pt)) (heap w).

(** A record is eligible when a tick is pending and its line is not
    masked. *)
Definition eligible (w : world) (pt : periodic_time) : Prop :=
  0 < pending_intr_nr pt /\ pt_irq_masked w pt = Some false.

(** The record at position [i] of the list is eligible, no eligible record
    of the list has a smaller key, and every eligible record before it has
    a larger one. *)
Definition selects (w : world) (l : list pt_id) (i : nat) (id : pt_id)
    (pt : periodic_time) : Prop :=
  l !! i = Some id /\ heap w !! id = Some pt /\ eligible w pt /\
  forall j id' pt',
    l !! j = Some id' -> heap w !! id' = Some pt' -> eligible w pt' ->
    lag_key pt <= lag_key pt' /\ ((j < i)%nat -> lag_key pt < lag_key pt').

(** What the loop needs of a list to run to its end. *)
Definition scannable (w : world) (l : list pt_id) : Prop :=
  forall id, id ∈ l ->
    exists pt, heap w !! id = Some pt /\ is_Some (pt_vcpu w pt) /\
               0 <= pending_intr_nr pt.

(** The events that raise an interrupt line. *)
Definition is_assert (e : event) : bool :=
  match e with
  | vlapic_set_irq _ _ _ | hvm_isa_irq_assert _ => true
  | _ => false
  end.

(** What [pt_update_irq] does for the record it has chosen. *)
Definition assert_line (v : vcpu_id) (id : pt_id) (pt : periodic_time)
    (w : world) : world :=
  emit (match source pt with
        | PTSRC_lapic => [vlapic_set_irq v (irq pt) 0]
        | PTSRC_isa => [hvm_isa_irq_deassert (irq pt); hvm_isa_irq_assert (irq pt)]
        end)
       (store_pt id (set_irq_issued true pt) w).

(** The record has an acknowledgement of [intack] outstanding. *)
Definition matches (w : world) (intack : hvm_intack) (pt : periodic_time)
  : Prop :=
  0 < pending_intr_nr pt /\ irq_issued pt = true /\
  pt_irq_vector w pt (intack_source intack) = Some (intack_vector intack).

(** A record after the body of the loop of [pt_reset], at host time [now]
    and guest time [gtime]. *)
Definition reset_of (now gtime : Z) (pt : periodic_time) : periodic_time :=
  mk_pt (on_list pt) (one_shot pt) (do_not_freeze pt) (irq_issued pt)
    (source pt) (irq pt) (vcpu pt) 0 (period pt) (period_cycles pt)
    (s64 (now + period pt)) gtime
    (mk_timer true (s64 (now + period pt)) (cpu (pt_timer pt)))
    (cb pt) (priv pt).

(** The state after [destroy_periodic_time]. *)
Definition destroyed (id : pt_id) (pt : periodic_time) (w : world) : world :=
  match vcpu pt with
  | None => w
  | Some _ =>
      store_pt id
        (set_pt_timer (kill_timer (pt_timer pt)) (set_on_list false pt))
        (if on_list pt then list_del id w else w)
  end.

(** Every record of [w] is still there in [w'], related by [Q]. *)
Definition heap_rel (Q : pt_id -> periodic_time -> periodic_time -> Prop)
    (w w' : world) : Prop :=
  forall id pt, heap w !! id = Some pt ->
                exists pt', heap w' !! id = Some pt' /\ Q id pt pt'.

(** The tick counter and the issue flag are what they were. *)
Definition keep (pt pt' : periodic_time) : Prop :=
  pending_intr_nr pt' = pending_intr_nr pt /\ irq_issued pt' = irq_issued pt.

(** The effect of the missed-tick processor: the flag stays, the counter
    stays unsigned, and stays what it was in [no_missed_ticks_pending]
    mode. *)
Definition caught_up (m : hvm_timer_mode) (pt pt' : periodic_time) : Prop :=
  irq_issued pt' = irq_issued pt /\
  (0 <= pending_intr_nr pt -> 0 <= pending_intr_nr pt') /\
  (m = no_missed_ticks_pending -> pending_intr_nr pt' = pending_intr_nr pt).

(** The effect of a reset: the flag stays, the counter is zero (or, for a
    record outside the list, what it was). *)
Definition zeroed (pt pt' : periodic_time) : Prop :=
  irq_issued pt' = irq_issued pt /\
  (pending_intr_nr pt' = 0 \/ pending_intr_nr pt' = pending_intr_nr pt).

(** The effect of one step on the record at [id]. *)
Definition effect (m : hvm_timer_mode) (o : op) (id : pt_id)
    (pt pt' : periodic_time) : Prop :=
  match o with
  | Op_create _ id0 _ _ _ _ _ =>
      if decide (id = id0)
      then pending_intr_nr pt' = 0 /\ irq_issued pt' = false
      else keep pt pt'
  | Op_restore _ => caught_up m pt pt'
  | Op_update_irq _ =>
      keep pt pt' \/
      (pending_intr_nr pt <> 0 /\ pending_intr_nr pt' = pending_intr_nr pt /\
       irq_issued pt' = true)
  | Op_intr_post _ _ =>
      keep pt pt' \/
      (pending_intr_nr pt <> 0 /\ irq_issued pt' = false /\
       (pending_intr_nr pt' = pending_intr_nr pt \/
        pending_intr_nr pt' = 0 \/
        pending_intr_nr pt' = u32 (pending_intr_nr pt - 1)))
  | Op_reset _ => zeroed pt pt'
  | Op_timer_fn id0 =>
      if decide (id = id0)
      then irq_issued pt' = irq_issued pt /\ 0 <= pending_intr_nr pt' /\
           (m = no_missed_ticks_pending ->
            pending_intr_nr pt' = u32 (pending_intr_nr pt + 1))
      else keep pt pt'
  | _ => keep pt pt'
  end.

(** The number of times the expiry callback of the record runs in a
    sequence. *)
Fixpoint expiries (id : pt_id) (ops : list op) : Z :=
  match ops with
  | [] => 0
  | Op_timer_fn id0 :: ops' =>
      (if decide (id = id0) then 1 else 0) + expiries id ops'
  | _ :: ops' => expiries id ops'
  end.

(** The invariant of the specification, for one record. *)
Definition issued_pending (pt : periodic_time) : Prop :=
  irq_issued pt = true -> 1 <= pending_intr_nr pt.

Definition is_reset (o : op) : bool :=
  match o with Op_reset _ => true | _ => false end.

(** The steps that run the missed-tick processor or count an expiry. *)
Definition adds_ticks (o : op) : bool :=
  match o with Op_restore _ | Op_timer_fn _ => true | _ => false end.

(** The ticks the missed-tick processor finds due for a periodic record
    at host time [now]. *)
Definition ticks_due (now : Z) (pt : periodic_time) : Z :=
  if now <=? scheduled pt then 0 else (now - scheduled pt) / period pt + 1.

(** The record can go through the missed-tick processor at host time
    [now] within the width of its fields: it is one-shot, or [now] and
    [scheduled] are not negative, the period is positive, [now + period]
    fits an [s_time_t], and [pending_intr_nr] has room for the ticks due. *)
Definition roomy (now : Z) (pt : periodic_time) : bool :=
  one_shot pt ||
  ((0 <=? now) && (0 <=? scheduled pt) && (scheduled pt <? 2 ^ 63) &&
   (0 <? period pt) && (now + period pt <? 2 ^ 63) &&
   (pending_intr_nr pt + ticks_due now pt <? 2 ^ 32)).

(** The record as [pt_timer_fn] hands it to the missed-tick processor:
    the expiry is counted and the deadline is one period on. *)
Definition expired (pt : periodic_time) : periodic_time :=
  set_scheduled (s64 (scheduled pt + period pt))
    (set_pending_intr_nr (u32 (pending_intr_nr pt + 1)) pt).

(** What a step that adds ticks needs of the state it starts in: before
    [pt_restore_timer] every record of the list is [roomy]; before an
    expiry the counter has room for one more tick and the record is
    [roomy] once that tick is counted. *)
Definition room (o : op) (w : world) : bool :=
  match o with
  | Op_restore v =>
      match vcpus w !! v with
      | Some vc =>
          forallb (fun id => match heap w !! id with
                             | Some pt => roomy (NOW w) pt
                             | None => false
                             end) (tm_list vc)
      | None => false
      end
  | Op_timer_fn id =>
      match heap w !! id with
      | Some pt =>
          (pending_intr_nr pt + 1 <? 2 ^ 32) && roomy (NOW w) (expired pt)
      | None => false
      end
  | _ => true
  end.

(** The sequence has no [pt_reset], each of its steps is defined, and
    each of its steps starts in a state with [room] for it. *)
Fixpoint steady (ops : list op) (w : world) : bool :=
  match ops with
  | [] => true
  | o :: ops' =>
      negb (is_reset o) && room o w &&
      match step o w with
      | Some w1 => steady ops' w1
      | None => false
      end
  end.

(** What a step that adds ticks does to a record with [room]: the issue
    flag stays, an unsigned counter does not shrink, and the record still
    has room at the same host time. *)
Definition grows (now : Z) (pt pt' : periodic_time) : Prop :=
  irq_issued pt' = irq_issued pt /\
  (0 <= pending_intr_nr pt -> pending_intr_nr pt <= pending_intr_nr pt') /\
  (roomy now pt = true -> roomy now pt' = true).

(** The record after [destroy_periodic_time] has run past its first
    test. *)
Definition killed (pt : periodic_time) : periodic_time :=
  set_pt_timer (kill_timer (pt_timer pt)) (set_on_list false pt).

(** The matched record after [pt_intr_post] has updated it. *)
Definition acked (w : world) (vc : vcpu_state) (pt : periodic_time)
  : periodic_time :=
  let pt := set_irq_issued false (set_do_not_freeze false pt) in
  if one_shot pt then set_on_list false pt
  else if mode_is w one_missed_tick_pending then
    set_pending_intr_nr 0 (set_last_plt_gtime (hvm_get_guest_time w vc) pt)
  else
    set_pending_intr_nr (u32 (pending_intr_nr pt - 1))
      (set_last_plt_gtime (u64 (last_plt_gtime pt + period_cycles pt)) pt).

(** The state [pt_intr_post] returns for the matched record [pt] at [id]:
    the record is stored, a one-shot record leaves its list, guest time is
    moved up to the tick in [delay_for_missed_ticks] mode, and the callback
    is called. *)
Definition acknowledged (v : vcpu_id) (vc : vcpu_state) (id : pt_id)
    (pt : periodic_time) (w : world) : world :=
  let pt1 := acked w vc pt in
  let unlink := one_shot pt && on_list pt in
  let w1 := store_pt id pt1 (if unlink then list_del id w else w) in
  let vc1 :=
    if unlink
    then set_tm_list (filter (fun x => x <> id) (tm_list vc)) vc else vc in
  let w2 :=
    if mode_is w delay_for_missed_ticks
       && (hvm_get_guest_time w vc <? last_plt_gtime pt1)
    then store_vcpu v (hvm_set_guest_time w vc1 (last_plt_gtime pt1)) w1
    else w1 in
  match cb pt with
  | Some f => emit [call_cb f v (priv pt)] w2
  | None => w2
  end.

(** Everything of a state but its records. *)
Definition outside (w : world) :=
  (vcpus w, timer_mode w, NOW w, host_tsc w, cpu_khz w, intc w, trace w).

(** A record after the body of the loop of [pt_save_timer]. *)
Definition frozen (pt : periodic_time) : periodic_time :=
  if do_not_freeze pt then pt
  else set_pt_timer (stop_timer (pt_timer pt)) pt.

(** A record after the body of the loop of [pt_migrate]. *)
Definition migrated (c : nat) (pt : periodic_time) : periodic_time :=
  set_pt_timer (migrate_timer (pt_timer pt) c) pt.

(** The fields of a record that only [create_periodic_time] writes. *)
Definition fixed (pt pt' : periodic_time) : Prop :=
  one_shot pt' = one_shot pt /\ source pt' = source pt /\ irq pt' = irq pt /\
  vcpu pt' = vcpu pt /\ period pt' = period pt /\
  period_cycles pt' = period_cycles pt /\ cb pt' = cb pt /\
  priv pt' = priv pt.

(** The timer lists of the vCPUs. *)
Definition lists (w : world) : list (list pt_id) := tm_list <$> vcpus w.

(** [w'] has the records of [w] with the fields of [fixed] as they were.
    The record at [d], if there is one, has left the lists and is no longer
    marked [on_list]; every other record is marked as it was, and the lists
    are otherwise what they were. *)
Definition unlinks (d : option pt_id) (w w' : world) : Prop :=
  heap_rel (fun id pt pt' =>
              fixed pt pt' /\
              on_list pt' = if decide (d = Some id) then false else on_list pt)
           w w' /\
  length (heap w') = length (heap w) /\
  lists w' = match d with
             | Some id => filter (fun x => x <> id) <$> lists w
             | None => lists w
             end.

(** The converse of the linkage of [wf]: a record marked [on_list] is on
    the list of the vCPU it points to; and no list holds an address
    twice. *)
Definition tight (w : world) : Prop :=
  (forall id pt, heap w !! id = Some pt -> on_list pt = true ->
     exists v l, vcpu pt = Some v /\ lists w !! v = Some l /\ id ∈ l) /\
  (forall v l, lists w !! v = Some l -> NoDup l).

(** The same, as a check that runs. *)
Definition tightb (w : world) : bool :=
  forallb_from
    (fun id pt =>
       negb (on_list pt) ||
       match vcpu pt with
       | Some v => match lists w !! v with
                   | Some l => bool_decide (id ∈ l)
                   | None => false
                   end
       | None => false
       end) 0 (heap w)
  && forallb (fun l => bool_decide (NoDup l)) (lists w).

(** The step is a [create_periodic_time] of the record at [id]. *)
Definition creates (id : pt_id) (o : op) : bool :=
  match o with
  | Op_create _ id0 _ _ _ _ _ => Nat.eqb id id0
  | _ => false
  end.



(** The events a step can add to the trace. *)
Definition emitted (o : op) (es : list event) : Prop :=
  match o with
  | Op_create _ _ _ _ _ _ _ =>
      es = [] \/ exists p, es = [gdprintk_small_period p]
  | Op_update_irq v =>
      es = [] \/ (exists i, es = [vlapic_set_irq v i 0]) \/
      exists i, es = [hvm_isa_irq_deassert i; hvm_isa_irq_assert i]
  | Op_intr_post v _ => es = [] \/ exists f p, es = [call_cb f v p]
  | Op_timer_fn _ => exists v, es = [vcpu_kick v]
  | _ => es = []
  end.

(** ** Example states *)

Module Example_late.
Import Example.

(** A 1 ms periodic timer is created at time 0, its vCPU is descheduled
    and 5.7 ms pass. *)
Definition descheduled (m : hvm_timer_mode) : option world :=
  run [Op_create 0%nat 0%nat 1000000 0 false None 0;
       Op_save 0%nat;
       Env_clock 5700000 11400000] (boot m).

(** The record at that point, and the world around it. *)
Definition late_pt : periodic_time :=
  mk_pt true false false false PTSRC_isa 0 (Some 0%nat) 0 1000000 2000000
    1000000 0 (mk_timer false 1000000 0%nat) None 0.

Definition late_world (m : hvm_timer_mode) : world :=
  {| heap := [late_pt; fresh PTSRC_isa; fresh PTSRC_lapic];
     vcpus := [mk_vcpu [0%nat] 0 0 0%nat false; vcpu0];
     timer_mode := m; NOW := 5700000; host_tsc := 11400000;
     cpu_khz := 2000000; intc := ic0;
     trace := [] |}.

End Example_late.

Module Example_max.
Import Example.

(** The guest's clock stands 2 000 000 cycles before the end of its 64-bit
    range when a 1 ms periodic timer is created, and the timer fires once. *)
Definition max_key_ops : list op :=
  [Env_clock 0 (2 ^ 64 - 1 - 2000000);
   Op_create 0%nat 0%nat 1000000 0 false None 0;
   Env_clock 1000000 (2 ^ 64 - 1);
   Op_timer_fn 0%nat].

Definition max_key_pt : periodic_time :=
  mk_pt true false false false PTSRC_isa 0 (Some 0%nat) 1 1000000 2000000
    2000000 (2 ^ 64 - 1 - 2000000) (mk_timer true 2000000 0%nat) None 0.

Definition max_key_world : world :=
  {| heap := [max_key_pt; fresh PTSRC_isa; fresh PTSRC_lapic];
     vcpus := [mk_vcpu [0%nat] 0 0 0%nat false; vcpu0];
     timer_mode := no_delay_for_missed_ticks;
     NOW := 1000000; host_tsc := 2 ^ 64 - 1;
     cpu_khz := 2000000; intc := ic0;
     trace := [vcpu_kick 0%nat] |}.

End Example_max.

Module Example_ack.
Import Example.

(** A 1 ms periodic timer on ISA IRQ 0 has fired once and its line has
    been raised. *)
Definition issued_ops : list op :=
  [Op_create 0%nat 0%nat 1000000 0 false (Some 7%nat) 5;
   Env_clock 1000000 2000000;
   Op_timer_fn 0%nat;
   Op_update_irq 0%nat].

Definition issued_pt : periodic_time :=
  mk_pt true false false true PTSRC_isa 0 (Some 0%nat) 1 1000000 2000000
    2000000 0 (mk_timer true 2000000 0%nat) (Some 7%nat) 5.

Definition issued_world (m : hvm_timer_mode) : world :=
  {| heap := [issued_pt; fresh PTSRC_isa; fresh PTSRC_lapic];
     vcpus := [mk_vcpu [0%nat] 0 0 0%nat false; vcpu0];
     timer_mode := m; NOW := 1000000; host_tsc := 2000000;
     cpu_khz := 2000000; intc := ic0;
     trace := [vcpu_kick 0%nat; hvm_isa_irq_deassert 0; hvm_isa_irq_assert 0] |}.

(** A 2 ms one-shot timer with LAPIC vector 240 has fired and its vector
    has been injected. *)
Definition one_shot_ops : list op :=
  [Op_create 0%nat 2%nat 2000000 240 true (Some 9%nat) 0;
   Env_clock 3000000 6000000;
   Op_timer_fn 2%nat;
   Op_update_irq 0%nat].

Definition one_shot_pt : periodic_time :=
  mk_pt true true false true PTSRC_lapic 240 (Some 0%nat) 1 2000000 4000000
    3000000 0 (mk_timer false 3000000 0%nat) (Some 9%nat) 0.

Definition one_shot_world (m : hvm_timer_mode) : world :=
  {| heap := [fresh PTSRC_isa; fresh PTSRC_isa; one_shot_pt];
     vcpus := [mk_vcpu [2%nat] 0 0 0%nat false; vcpu0];
     timer_mode := m; NOW := 3000000; host_tsc := 6000000;
     cpu_khz := 2000000; intc := ic0;
     trace := [vcpu_kick 0%nat; vlapic_set_irq 0%nat 240 0] |}.

(** The first state after a [pt_reset] of the vCPU. *)
Definition reset_pt : periodic_time :=
  mk_pt true false false true PTSRC_isa 0 (Some 0%nat) 0 1000000 2000000
    2000000 2000000 (mk_timer true 2000000 0%nat) (Some 7%nat) 5.

Definition reset_world : world :=
  {| heap := [reset_pt; fresh PTSRC_isa; fresh PTSRC_lapic];
     vcpus := [mk_vcpu [0%nat] 0 0 0%nat false; vcpu0];
     timer_mode := no_delay_for_missed_ticks;
     NOW := 1000000; host_tsc := 2000000;
     cpu_khz := 2000000; intc := ic0;
     trace := [vcpu_kick 0%nat; hvm_isa_irq_deassert 0; hvm_isa_irq_assert 0] |}.

End Example_ack.

Module Example_two.
Import Example.

(** A 1 ms periodic timer expires twice before its first tick is
    injected. *)
Definition two_expiries : list op :=
  [Op_create 0%nat 0%nat 1000000 0 false None 0;
   Env_clock 1000000 2000000;
   Op_timer_fn 0%nat;
   Env_clock 2000000 4000000;
   Op_timer_fn 0%nat].

Definition two_pt : periodic_time :=
  mk_pt true false false false PTSRC_isa 0 (Some 0%nat) 2 1000000 2000000
    3000000 0 (mk_timer true 3000000 0%nat) None 0.

Definition two_world : world :=
  {| heap := [two_pt; fresh PTSRC_isa; fresh PTSRC_lapic];
     vcpus := [mk_vcpu [0%nat] 0 0 0%nat false; vcpu0];
     timer_mode := no_missed_ticks_pending;
     NOW := 2000000; host_tsc := 4000000;
     cpu_khz := 2000000; intc := ic0;
     trace := [vcpu_kick 0%nat; vcpu_kick 0%nat] |}.

End Example_two.

Module Example_more.
Import Example.

(** The state a sequence of operations leads to. *)
Definition after (ops : list op) (w : world) : world :=
  match run ops w with Some w' => w' | None => w end.

(** A 1 ms and a 3 ms timer share ISA IRQ 0; after 3 ms both have expired
    and the line has been raised for the 1 ms timer, the second of the
    list. *)
Definition shared_ops : list op :=
  [Op_create 0%nat 0%nat 1000000 0 false None 0;
   Op_create 0%nat 1%nat 3000000 0 false None 0;
   Env_clock 3000000 6000000;
   Op_timer_fn 0%nat;
   Op_timer_fn 1%nat;
   Op_update_irq 0%nat].

Definition shared_world : world :=
  after shared_ops (boot no_delay_for_missed_ticks).

(** In [delay_for_missed_ticks] mode a 1 ms timer is created, its vCPU is
    descheduled from 0.2 ms to 5.7 ms, and its line is raised. *)
Definition delayed_ops : list op :=
  [Op_create 0%nat 0%nat 1000000 0 false None 0;
   Env_clock 200000 400000;
   Op_save 0%nat;
   Env_clock 5700000 11400000;
   Op_restore 0%nat;
   Op_update_irq 0%nat].

Definition delayed_world : world :=
  after delayed_ops (boot delay_for_missed_ticks).

(** The same vCPU when it is about to be descheduled. *)
Definition running_world : world :=
  after [Op_create 0%nat 0%nat 1000000 0 false None 0;
         Env_clock 200000 400000] (boot delay_for_missed_ticks).

Definition saved_world : world := after [Op_save 0%nat] running_world.
Definition resumed_world : world :=
  after [Env_clock 5700000 11400000] saved_world.
Definition restored_world : world := after [Op_restore 0%nat] resumed_world.

(** The scheduler has moved the vCPU of the two timers to CPU 3. *)
Definition moved_world : world :=
  after [Env_sched 0%nat 3%nat false] shared_world.

(** What a record goes through between its creation and the next one. *)
Definition life_ops : list op :=
  [Op_timer_fn 0%nat;
   Op_update_irq 0%nat;
   Op_intr_post 0%nat (mk_intack hvm_intsrc_pic 32);
   Op_save 0%nat;
   Env_sched 0%nat 3%nat false;
   Op_restore 0%nat;
   Op_migrate 0%nat;
   Op_reset 0%nat;
   Op_destroy 0%nat].

Definition created_world : world :=
  after [Op_create 0%nat 0%nat 1000000 0 false (Some 7%nat) 5;
         Env_clock 1000000 2000000] (boot no_delay_for_missed_ticks).

Definition ended_world : world := after life_ops created_world.

(** Two periodic timers and a one-shot timer of one vCPU; the one-shot
    timer fires and is acknowledged, the first timer is created anew on
    the other vCPU. *)
Definition busy_ops : list op :=
  [Op_create 0%nat 0%nat 1000000 0 false None 0;
   Op_create 0%nat 1%nat 3000000 8 false None 0;
   Op_create 0%nat 2%nat 2000000 240 true (Some 9%nat) 0;
   Env_clock 3000000 6000000;
   Op_timer_fn 2%nat;
   Op_update_irq 0%nat;
   Op_intr_post 0%nat (mk_intack hvm_intsrc_lapic 240);
   Op_create 1%nat 0%nat 1000000 0 false None 0].

Definition busy_world : world :=
  after busy_ops (boot no_delay_for_missed_ticks).

(** The 1 ms timer whose line has been raised; its vCPU is then
    descheduled until 5.7 ms and restored. *)
Definition late_issued_ops : list op :=
  Example_ack.issued_ops ++
  [Op_save 0%nat; Env_clock 5700000 11400000; Op_restore 0%nat].

Definition late_issued_world : world :=
  after late_issued_ops (boot no_delay_for_missed_ticks).

(** In [no_missed_ticks_pending] mode the vCPU of the timer with two
    ticks pending is descheduled until 9 ms, and then restored. *)
Definition two_late_world : world :=
  after [Op_save 0%nat; Env_clock 9000000 18000000] Example_two.two_world.

Definition two_restored_world : world :=
  after [Op_restore 0%nat] two_late_world.

End Example_more.

(** ** The example states are reached *)

Module Example_runs.
Import Example Example_late Example_max Example_ack Example_two.

Lemma descheduled_eq m : descheduled m = Some (late_world m).
Proof. destruct m; reflexivity. Qed.

Lemma max_key_run :
  run max_key_ops (boot no_delay_for_missed_ticks) = Some max_key_world.
Proof. reflexivity. Qed.

Lemma max_key_eligible : eligible max_key_world max_key_pt.
Proof. split; [simpl; lia | reflexivity]. Qed.

Lemma max_key_not_asserted :
  pt_update_irq 0%nat max_key_world = Some max_key_world.
Proof. reflexivity. Qed.

Lemma issued_run m : run issued_ops (boot m) = Some (issued_world m).
Proof. destruct m; reflexivity. Qed.

Lemma one_shot_run m : run one_shot_ops (boot m) = Some (one_shot_world m).
Proof. destruct m; reflexivity. Qed.

End Example_runs.

(** ** The scenarios of the specification *)

Module Scenarios.
Import Example.

(** S1: a 1 ms timer on a running vCPU has expired three times after
    3.5 ms and is due again at 4 ms. *)
Example simple_periodic :
  exists w,
    run [Op_create 0%nat 0%nat 1000000 0 false None 0;
         Env_clock 1000000 2000000; Op_timer_fn 0%nat;
         Env_clock 2000000 4000000; Op_timer_fn 0%nat;
         Env_clock 3000000 6000000; Op_timer_fn 0%nat;
         Env_clock 3500000 7000000] (boot no_delay_for_missed_ticks)
    = Some w /\
    pending_intr_nr <$> heap w !! 0%nat = Some 3 /\
    scheduled <$> heap w !! 0%nat = Some 4000000.
Proof. eexists. split; [vm_compute; reflexivity | split; reflexivity]. Qed.

(** S2 to S4: the vCPU is descheduled from 0.2 ms to 5.7 ms. *)

Example deschedule_default :
  exists w,
    offline no_delay_for_missed_ticks = Some w /\
    pending_intr_nr <$> heap w !! 0%nat = Some 5 /\
    scheduled <$> heap w !! 0%nat = Some 6000000 /\
    pt_timer <$> heap w !! 0%nat = Some (mk_timer true 6000000 0%nat).
Proof. eexists. split; [vm_compute; reflexivity | repeat split]. Qed.

Example deschedule_no_missed_ticks_pending :
  exists w,
    offline no_missed_ticks_pending = Some w /\
    pending_intr_nr <$> heap w !! 0%nat = Some 0 /\
    scheduled <$> heap w !! 0%nat = Some 6000000.
Proof. eexists. split; [vm_compute; reflexivity | repeat split]. Qed.

Example deschedule_one_missed_tick_pending :
  exists w w',
    offline one_missed_tick_pending = Some w /\
    pending_intr_nr <$> heap w !! 0%nat = Some 5 /\
    run [Op_update_irq 0%nat;
         Op_intr_post 0%nat (mk_intack hvm_intsrc_pic 32)] w = Some w' /\
    pending_intr_nr <$> heap w' !! 0%nat = Some 0 /\
    last_plt_gtime <$> heap w' !! 0%nat = Some 11400000.
Proof.
  eexists _, _. split; [vm_compute; reflexivity|]. split; [reflexivity|].
  split; [vm_compute; reflexivity | repeat split].
Qed.

(** S6: of a 1 ms and a 3 ms LAPIC timer that both have ticks pending,
    the selector raises the vector of the 1 ms timer. *)
Example competition :
  exists w,
    run [Op_create 0%nat 1%nat 3000000 49 false None 0;
         Op_create 0%nat 0%nat 1000000 48 false None 0;
         Op_save 0%nat; Env_clock 5000000 10000000; Op_restore 0%nat;
         Op_update_irq 0%nat] boot_two_lapic = Some w /\
    pending_intr_nr <$> heap w = [4; 1] /\
    irq_issued <$> heap w = [true; false] /\
    trace w = [vlapic_set_irq 0%nat 48 0].
Proof. eexists. split; [vm_compute; reflexivity | repeat split]. Qed.

End Scenarios.

(** ** Machine arithmetic *)

Section Arith.

Lemma s64_id z : in_s64 z -> s64 z = z.
Proof.
  unfold in_s64, s64. intros H.
  rewrite Z.mod_small by lia. lia.
Qed.

Lemma u64_id z : in_u64 z -> u64 z = z.
Proof. unfold in_u64, u64. intros H. now rewrite Z.mod_small. Qed.

Lemma u32_id z : in_u32 z -> u32 z = z.
Proof. unfold in_u32, u32. intros H. now rewrite Z.mod_small. Qed.

Lemma u32_range z : in_u32 (u32 z).
Proof. unfold in_u32, u32. apply Z.mod_pos_bound. lia. Qed.

Lemma u64_range z : in_u64 (u64 z).
Proof. unfold in_u64, u64. apply Z.mod_pos_bound. lia. Qed.

Lemma s64_range z : in_s64 (s64 z).
Proof.
  unfold in_s64, s64.
  pose proof (Z.mod_pos_bound (z + 2 ^ 63) (2 ^ 64)). lia.
Qed.

(** Two integers that agree modulo 2^64 convert to the same [s_time_t]. *)
Lemma s64_congr a b : a mod 2 ^ 64 = b mod 2 ^ 64 -> s64 a = s64 b.
Proof.
  unfold s64. intros H.
  rewrite (Z.add_mod a), (Z.add_mod b), H by lia. reflexivity.
Qed.

Lemma s64_mod z : s64 z mod 2 ^ 64 = z mod 2 ^ 64.
Proof.
  unfold s64.
  rewrite Zminus_mod, Z.mod_mod, <- Zminus_mod by lia.
  f_equal. lia.
Qed.

(** A wrapped factor or summand does not change the wrapped result. *)
Lemma s64_add_mul_s64 a m p : s64 (a + s64 m * p) = s64 (a + m * p).
Proof.
  apply s64_congr.
  rewrite (Z.add_mod a (s64 m * p)), (Z.mul_mod (s64 m)), s64_mod by lia.
  rewrite <- Z.mul_mod, <- Z.add_mod by lia. reflexivity.
Qed.

Lemma u32_add_s64 a m : u32 (a + s64 m) = u32 (a + m).
Proof.
  unfold u32.
  assert (Hd : (2 ^ 32 | 2 ^ 64)) by (exists (2 ^ 32); reflexivity).
  assert (H : s64 m mod 2 ^ 32 = m mod 2 ^ 32).
  { rewrite <- (Z.mod_mod_divide (s64 m) _ _ Hd), s64_mod.
    now apply Z.mod_mod_divide. }
  rewrite (Z.add_mod a (s64 m)), H, <- Z.add_mod by lia. reflexivity.
Qed.

End Arith.

(** ** The missed-tick processor *)

Section MissedTicks.

Variable w : world.
Variable pt : periodic_time.

Lemma pt_process_missed_ticks_one_shot :
  one_shot pt = true -> pt_process_missed_ticks w pt = Some pt.
Proof. unfold pt_process_missed_ticks. now intros ->. Qed.

Lemma pt_process_missed_ticks_early :
  in_s64 (NOW w - scheduled pt) -> NOW w <= scheduled pt ->
  pt_process_missed_ticks w pt = Some pt.
Proof.
  unfold pt_process_missed_ticks. intros Hd Hle.
  destruct (one_shot pt); [reflexivity|].
  rewrite (s64_id _ Hd).
  destruct (Z.leb_spec (NOW w - scheduled pt) 0); [reflexivity | lia].
Qed.

(** What the processor does to a periodic record that is behind. *)
Lemma pt_process_missed_ticks_late :
  one_shot pt = false ->
  in_s64 (NOW w - scheduled pt) -> scheduled pt < NOW w ->
  0 < period pt < 2 ^ 63 -> is_Some (pt_vcpu w pt) ->
  pt_process_missed_ticks w pt =
  Some (set_scheduled (s64 (scheduled pt + spec_missed w pt * period pt))
          (if mode_is w no_missed_ticks_pending
           then set_do_not_freeze (pending_intr_nr pt =? 0) pt
           else set_pending_intr_nr
                  (u32 (pending_intr_nr pt + spec_missed w pt)) pt)).
Proof.
  unfold pt_process_missed_ticks, spec_missed.
  intros Hos Hd Hlt Hp [v Hv].
  rewrite Hos, (s64_id _ Hd).
  assert (Hps : s64 (period pt) = period pt)
    by (apply s64_id; unfold in_s64; lia).
  rewrite Hps.
  destruct (Z.leb_spec (NOW w - scheduled pt) 0); [lia|].
  destruct (Z.eqb_spec (period pt) 0); [lia|].
  rewrite Hv; simpl.
  rewrite Z.quot_div_nonneg by lia.
  destruct (mode_is w no_missed_ticks_pending); simpl;
    now rewrite ?s64_add_mul_s64, ?u32_add_s64.
Qed.

End MissedTicks.

(** C5.  The missed-tick processor changes nothing for a one-shot record
    and for a record whose deadline has not passed yet.  For a periodic
    record that is behind, with a period that fits the signed division, it
    returns, whatever the timer mode of the domain, a record whose
    [scheduled] is the old one plus [missed * period] for
    [missed = (now - scheduled) / period + 1] in integer division: as a
    64-bit sum always, and as the plain sum when that fits an [s_time_t]. *)
Theorem pt_process_missed_ticks_advances (w : world) (pt : periodic_time) :
  in_s64 (NOW w - scheduled pt) ->
  (one_shot pt = true \/ NOW w <= scheduled pt ->
   pt_process_missed_ticks w pt = Some pt) /\
  (one_shot pt = false -> scheduled pt < NOW w ->
   0 < period pt < 2 ^ 63 -> is_Some (pt_vcpu w pt) ->
   let missed := (NOW w - scheduled pt) / period pt + 1 in
   exists pt',
     pt_process_missed_ticks w pt = Some pt' /\
     scheduled pt' = s64 (scheduled pt + missed * period pt) /\
     (in_s64 (scheduled pt + missed * period pt) ->
      scheduled pt' = scheduled pt + missed * period pt)).
Proof.
  intros Hd. split.
  - intros [Hos | Hle].
    + now apply pt_process_missed_ticks_one_shot.
    + now apply pt_process_missed_ticks_early.
  - intros Hos Hlt Hp Hv missed.
    rewrite (pt_process_missed_ticks_late w pt Hos Hd Hlt Hp Hv).
    eexists; split; [reflexivity|].
    fold (spec_missed w pt). fold missed. simpl.
    split; [reflexivity | apply s64_id].
Qed.

Lemma pt_process_missed_ticks_advances_witness :
  exists pt',
    pt_process_missed_ticks
      (Example_late.late_world one_missed_tick_pending) Example_late.late_pt
    = Some pt' /\
    scheduled pt' = 6000000.
Proof.
  destruct (pt_process_missed_ticks_advances
              (Example_late.late_world one_missed_tick_pending)
              Example_late.late_pt) as [_ H].
  - unfold in_s64; simpl; lia.
  - destruct H as (pt' & Hrun & _ & Hs).
    + reflexivity.
    + simpl; lia.
    + simpl; lia.
    + eexists; reflexivity.
    + exists pt'. split; [exact Hrun|].
      rewrite Hs; [reflexivity | vm_compute; split; [discriminate | reflexivity]].
Defined.

(** The new deadline is the first one of the record's grid after [now]. *)
Lemma pt_process_missed_ticks_next_deadline (w : world) (pt : periodic_time) :
  scheduled pt < NOW w -> 0 < period pt ->
  let missed := (NOW w - scheduled pt) / period pt + 1 in
  NOW w < scheduled pt + missed * period pt <= NOW w + period pt.
Proof.
  intros Hlt Hp missed. subst missed.
  pose proof (Z.mul_div_le (NOW w - scheduled pt) (period pt) Hp).
  pose proof (Z.mul_succ_div_gt (NOW w - scheduled pt) (period pt) Hp).
  nia.
Qed.

(** C3, as the specification states it, fails: in [delay_for_missed_ticks]
    mode the processor adds the five missed ticks of the descheduled 1 ms
    timer to its [pending_intr_nr]. *)
Lemma delay_for_missed_ticks_alters_pending :
  Example_late.descheduled delay_for_missed_ticks
    = Some (Example_late.late_world delay_for_missed_ticks) /\
  timer_mode (Example_late.late_world delay_for_missed_ticks)
    = delay_for_missed_ticks /\
  one_shot Example_late.late_pt = false /\
  scheduled Example_late.late_pt
    < NOW (Example_late.late_world delay_for_missed_ticks) /\
  heap (Example_late.late_world delay_for_missed_ticks) !! 0%nat
    = Some Example_late.late_pt /\
  pending_intr_nr Example_late.late_pt = 0 /\
  exists pt',
    pt_process_missed_ticks
      (Example_late.late_world delay_for_missed_ticks) Example_late.late_pt
    = Some pt' /\
    pending_intr_nr pt' = 5.
Proof.
  repeat split; try reflexivity.
  eexists; split; reflexivity.
Qed.

(** C3, amended.  In [delay_for_missed_ticks] mode, for a periodic record
    that is behind, with a period that fits the signed division and a
    valid vCPU, the processor returns; it adds [missed] to
    [pending_intr_nr] modulo 2^32 and [missed * period] to [scheduled] as
    an [s_time_t], and both sums are exact when they are in range. *)
Theorem pt_process_missed_ticks_delay_mode (w : world) (pt : periodic_time) :
  timer_mode w = delay_for_missed_ticks ->
  one_shot pt = false ->
  in_s64 (NOW w - scheduled pt) -> scheduled pt < NOW w ->
  0 < period pt < 2 ^ 63 -> is_Some (pt_vcpu w pt) ->
  let missed := (NOW w - scheduled pt) / period pt + 1 in
  exists pt',
    pt_process_missed_ticks w pt = Some pt' /\
    pending_intr_nr pt' = u32 (pending_intr_nr pt + missed) /\
    scheduled pt' = s64 (scheduled pt + missed * period pt) /\
    (in_u32 (pending_intr_nr pt + missed) ->
     pending_intr_nr pt' = pending_intr_nr pt + missed) /\
    (in_s64 (scheduled pt + missed * period pt) ->
     scheduled pt' = scheduled pt + missed * period pt).
Proof.
  intros Hm Hos Hd Hlt Hp Hv missed.
  rewrite (pt_process_missed_ticks_late w pt Hos Hd Hlt Hp Hv).
  unfold mode_is. rewrite Hm. simpl.
  eexists; split; [reflexivity|].
  fold (spec_missed w pt). fold missed. simpl.
  repeat split; [apply u32_id | apply s64_id].
Qed.

Lemma pt_process_missed_ticks_delay_mode_witness :
  exists pt',
    pt_process_missed_ticks
      (Example_late.late_world delay_for_missed_ticks) Example_late.late_pt
    = Some pt' /\
    pending_intr_nr pt' = 5 /\ scheduled pt' = 6000000.
Proof.
  destruct (pt_process_missed_ticks_delay_mode
              (Example_late.late_world delay_for_missed_ticks)
              Example_late.late_pt) as (pt' & Hrun & Hp & Hs & _).
  - reflexivity.
  - reflexivity.
  - unfold in_s64; simpl; lia.
  - simpl; lia.
  - simpl; lia.
  - eexists; reflexivity.
  - exists pt'. split; [exact Hrun|]. split; [exact Hp | exact Hs].
Defined.

(** ** Well-formed states *)

Lemma forallb_from_lookup {A} (f : nat -> A -> bool) (l : list A) :
  forall i k x,
    forallb_from f i l = true -> l !! k = Some x -> f (i + k)%nat x = true.
Proof.
  induction l as [|y l IH]; intros i k x H Hk; [discriminate|].
  simpl in H. apply andb_true_iff in H as [Hy Hl].
  destruct k as [|k]; simpl in Hk.
  - injection Hk as <-. now rewrite Nat.add_0_r.
  - rewrite <- Nat.add_succ_comm. now apply IH.
Qed.

Lemma wfb_wf (w : world) : wfb w = true -> wf w.
Proof.
  unfold wfb. intros H. apply andb_true_iff in H as [Hl Hh].
  rewrite forallb_forall in Hh.
  split.
  - intros v vc id Hv Hid.
    pose proof (forallb_from_lookup _ _ 0%nat v vc Hl Hv) as Hb.
    simpl in Hb. rewrite forallb_forall in Hb.
    apply list_elem_of_In in Hid. specialize (Hb id Hid).
    unfold linkedb in Hb. unfold linked.
    destruct (heap w !! id) as [pt|]; [|discriminate].
    apply andb_true_iff in Hb as [Hon Hu].
    destruct (vcpu pt) as [u|] eqn:Hvc; [|discriminate].
    apply Nat.eqb_eq in Hu as ->. now exists pt.
  - intros id pt v Hpt Hv.
    assert (Hin : In pt (heap w)).
    { apply list_elem_of_In. eapply list_elem_of_lookup_2; eauto. }
    specialize (Hh pt Hin). apply andb_true_iff in Hh as [Hh _].
    rewrite Hv in Hh. destruct (vcpus w !! v); [eauto | discriminate].
  - intros id pt Hpt.
    assert (Hin : In pt (heap w)).
    { apply list_elem_of_In. eapply list_elem_of_lookup_2; eauto. }
    specialize (Hh pt Hin). apply andb_true_iff in Hh as [_ Hh].
    now apply Z.leb_le.
Qed.

Lemma pt_vcpu_linked (w : world) (v : vcpu_id) (vc : vcpu_state)
    (pt : periodic_time) :
  vcpus w !! v = Some vc -> vcpu pt = Some v -> pt_vcpu w pt = Some v.
Proof. unfold pt_vcpu. intros Hv ->. simpl. now rewrite Hv. Qed.

Lemma wf_listed (w : world) (v : vcpu_id) (vc : vcpu_state) (id : pt_id) :
  wf w -> vcpus w !! v = Some vc -> id ∈ tm_list vc ->
  exists pt, heap w !! id = Some pt /\ on_list pt = true /\
             vcpu pt = Some v /\ pt_vcpu w pt = Some v /\
             0 <= pending_intr_nr pt.
Proof.
  intros Hwf Hv Hid.
  destruct (wf_linked w Hwf v vc id Hv Hid) as (pt & Hpt & Hon & Hu).
  exists pt. repeat split; auto.
  - eapply pt_vcpu_linked; eauto.
  - eapply wf_pending; eauto.
Qed.

(** ** The injection selector *)

Section Selector.

Variable w : world.

Lemma masked_is_Some (pt : periodic_time) :
  is_Some (pt_vcpu w pt) -> is_Some (pt_irq_masked w pt).
Proof.
  intros [v Hv]. unfold pt_irq_masked. rewrite Hv. simpl.
  destruct (source pt); eauto.
Qed.

Lemma scan_test_eligible (pt : periodic_time) (masked : bool) (max_lag : Z) :
  0 <= pending_intr_nr pt -> pt_irq_masked w pt = Some masked ->
  negb masked && negb (pending_intr_nr pt =? 0) && (lag_key pt <? max_lag)
    = true
  <-> eligible w pt /\ lag_key pt < max_lag.
Proof.
  intros Hp Hm. unfold eligible. rewrite Hm.
  rewrite !andb_true_iff, !negb_true_iff, Z.eqb_neq, Z.ltb_lt.
  split.
  - intros [[-> Hn] Hk]. repeat split; [lia | assumption].
  - intros [[Hn [= ->]] Hk]. repeat split; [lia | assumption].
Qed.

Lemma pt_update_irq_scan_spec (l : list pt_id) :
  scannable w l ->
  forall max_lag earliest_pt,
  exists r,
    pt_update_irq_scan w l max_lag earliest_pt = Some r /\
    ((r = earliest_pt /\
      forall id pt, id ∈ l -> heap w !! id = Some pt -> eligible w pt ->
                    max_lag <= lag_key pt)
     \/ (exists i id pt,
           r = Some id /\ selects w l i id pt /\ lag_key pt < max_lag)).
Proof.
  induction l as [|id l IH]; intros Hl max_lag earliest_pt.
  - exists earliest_pt. split; [reflexivity|]. left. split; [reflexivity|].
    intros id pt Hin. inversion Hin.
  - destruct (Hl id) as (pt & Hpt & Hv & Hp); [left|].
    destruct (masked_is_Some pt Hv) as [m Hm].
    assert (Hl' : scannable w l) by (intros x Hx; apply Hl; now right).
    simpl. rewrite Hpt. simpl. rewrite Hm. simpl.
    pose proof (scan_test_eligible pt m max_lag Hp Hm) as Htest.
    destruct (negb m && negb (pending_intr_nr pt =? 0)
              && (lag_key pt <? max_lag)).
    + destruct Htest as [Htest _]. destruct Htest as [Hel Hlt]; [reflexivity|].
      destruct (IH Hl' (lag_key pt) (Some id)) as (r & Hr & Hcase).
      exists r. split; [exact Hr|]. right.
      destruct Hcase as [[-> Hall] | (i & id' & pt' & -> & Hsel & Hlt')].
      * exists 0%nat, id, pt. split; [reflexivity|]. split; [|exact Hlt].
        split; [reflexivity|]. split; [exact Hpt|]. split; [exact Hel|].
        intros j x px Hj Hx Hex. destruct j as [|j]; simpl in Hj.
        -- injection Hj as <-. rewrite Hpt in Hx. injection Hx as <-. lia.
        -- split; [|lia]. apply (Hall x); auto.
           eapply list_elem_of_lookup_2; eauto.
      * destruct Hsel as (Hi & Hpt' & Hel' & Hmin).
        exists (S i), id', pt'. split; [reflexivity|]. split; [|lia].
        split; [exact Hi|]. split; [exact Hpt'|]. split; [exact Hel'|].
        intros j x px Hj Hx Hex. destruct j as [|j]; simpl in Hj.
        -- injection Hj as <-. rewrite Hpt in Hx. injection Hx as <-. lia.
        -- destruct (Hmin j x px Hj Hx Hex) as [Hle Hlt2].
           split; [exact Hle|]. intros Hji. apply Hlt2. lia.
    + assert (Hno : ~ (eligible w pt /\ lag_key pt < max_lag)).
      { intros Hc. apply Htest in Hc. discriminate. }
      assert (Hhead : eligible w pt -> max_lag <= lag_key pt).
      { intros He. destruct (Z.le_gt_cases max_lag (lag_key pt)); [assumption|].
        exfalso. apply Hno. split; [assumption | lia]. }
      destruct (IH Hl' max_lag earliest_pt) as (r & Hr & Hcase).
      exists r. split; [exact Hr|].
      destruct Hcase as [[-> Hall] | (i & id' & pt' & -> & Hsel & Hlt')].
      * left. split; [reflexivity|].
        intros x px Hx Hpx Hex. apply elem_of_cons in Hx as [-> | Hx].
        -- rewrite Hpt in Hpx. injection Hpx as <-. now apply Hhead.
        -- now apply (Hall x px).
      * destruct Hsel as (Hi & Hpt' & Hel' & Hmin).
        right. exists (S i), id', pt'. split; [reflexivity|].
        split; [|exact Hlt'].
        split; [exact Hi|]. split; [exact Hpt'|]. split; [exact Hel'|].
        intros j x px Hj Hx Hex. destruct j as [|j]; simpl in Hj.
        -- injection Hj as <-. rewrite Hpt in Hx. injection Hx as <-.
           specialize (Hhead Hex). lia.
        -- destruct (Hmin j x px Hj Hx Hex) as [Hle Hlt2].
           split; [exact Hle|]. intros Hji. apply Hlt2. lia.
Qed.

End Selector.

Lemma wf_scannable (w : world) (v : vcpu_id) (vc : vcpu_state) :
  wf w -> vcpus w !! v = Some vc -> scannable w (tm_list vc).
Proof.
  intros Hwf Hv id Hid.
  destruct (wf_listed w v vc id Hwf Hv Hid) as (pt & Hpt & _ & _ & Hu & Hp).
  exists pt. rewrite Hu. eauto.
Qed.

Lemma lag_key_max (pt : periodic_time) : lag_key pt <= 2 ^ 64 - 1.
Proof. pose proof (u64_range (last_plt_gtime pt + period_cycles pt)) as H.
       unfold in_u64 in H. unfold lag_key. lia. Qed.

(** The selector on a well-formed state: it returns; it either changes
    nothing, and then every eligible record of the list has the key
    2^64 - 1, or marks and raises the line of the first eligible record
    with the least key. *)
Lemma pt_update_irq_spec (w : world) (v : vcpu_id) (vc : vcpu_state) :
  wf w -> vcpus w !! v = Some vc ->
  (pt_update_irq v w = Some w /\
   forall id pt, id ∈ tm_list vc -> heap w !! id = Some pt ->
                 eligible w pt -> lag_key pt = 2 ^ 64 - 1)
  \/ (exists i id pt,
        selects w (tm_list vc) i id pt /\ lag_key pt < 2 ^ 64 - 1 /\
        pt_update_irq v w = Some (assert_line v id pt w)).
Proof.
  intros Hwf Hv.
  destruct (pt_update_irq_scan_spec w (tm_list vc)
              (wf_scannable w v vc Hwf Hv) (u64 (-1)) None)
    as (r & Hr & Hcase).
  unfold pt_update_irq. rewrite Hv. simpl. rewrite Hr. simpl.
  change (u64 (-1)) with (2 ^ 64 - 1) in Hcase.
  destruct Hcase as [[-> Hall] | (i & id & pt & -> & Hsel & Hlt)].
  - left. split; [reflexivity|].
    intros id pt Hid Hpt Hel. specialize (Hall id pt Hid Hpt Hel).
    pose proof (lag_key_max pt). lia.
  - right. exists i, id, pt. split; [exact Hsel|]. split; [exact Hlt|].
    destruct Hsel as (_ & Hpt & _). rewrite Hpt. simpl.
    unfold assert_line. now destruct (source pt).
Qed.

(** When some eligible record has a key below 2^64 - 1, the selector
    chooses. *)
Lemma pt_update_irq_selects (w : world) (v : vcpu_id) (vc : vcpu_state)
    (id0 : pt_id) (pt0 : periodic_time) :
  wf w -> vcpus w !! v = Some vc ->
  id0 ∈ tm_list vc -> heap w !! id0 = Some pt0 -> eligible w pt0 ->
  lag_key pt0 < 2 ^ 64 - 1 ->
  exists i id pt,
    selects w (tm_list vc) i id pt /\
    pt_update_irq v w = Some (assert_line v id pt w).
Proof.
  intros Hwf Hv Hid Hpt Hel Hlt.
  destruct (pt_update_irq_spec w v vc Hwf Hv)
    as [[_ Hall] | (i & id & pt & Hsel & _ & Hrun)].
  - specialize (Hall id0 pt0 Hid Hpt Hel). lia.
  - eauto.
Qed.

(** One call raises at most one line, and marks at most one record. *)
Lemma pt_update_irq_one_line (w w' : world) (v : vcpu_id) :
  pt_update_irq v w = Some w' ->
  exists es, trace w' = trace w ++ es /\
             (length (filter (fun e => is_assert e = true) es) <= 1)%nat.
Proof.
  unfold pt_update_irq. intros H.
  destruct (vcpus w !! v) as [vc|]; [simpl in H | discriminate].
  destruct (pt_update_irq_scan w (tm_list vc) (u64 (-1)) None) as [[id|]|];
    simpl in H; try discriminate.
  - destruct (heap w !! id) as [pt|]; [simpl in H | discriminate].
    destruct (source pt); injection H as <-; eexists; (split; [reflexivity|]);
      simpl; lia.
  - injection H as <-. exists []. split; [now rewrite app_nil_r | simpl; lia].
Qed.

(** The loop never leaves with a record whose key is 2^64 - 1. *)
Lemma pt_update_irq_scan_skips_max (w : world) (id : pt_id)
    (pt : periodic_time) :
  heap w !! id = Some pt -> lag_key pt = 2 ^ 64 - 1 ->
  forall l max_lag earliest_pt,
    max_lag <= 2 ^ 64 - 1 -> earliest_pt <> Some id ->
    pt_update_irq_scan w l max_lag earliest_pt <> Some (Some id).
Proof.
  intros Hpt Hk. induction l as [|x l IH]; intros max_lag e Hmax He; simpl.
  - congruence.
  - destruct (heap w !! x) as [px|] eqn:Hpx; simpl; [|discriminate].
    destruct (pt_irq_masked w px) as [m|]; simpl; [|discriminate].
    destruct (negb m && negb (pending_intr_nr px =? 0)
              && (lag_key px <? max_lag)) eqn:Htest.
    + apply andb_true_iff in Htest as [_ Hlt]. apply Z.ltb_lt in Hlt.
      apply IH; [lia|].
      intros [= ->]. rewrite Hpt in Hpx. injection Hpx as <-. lia.
    + now apply IH.
Qed.

(** C4, at the failing input.  The state is reached by the operations of
    [max_key_ops]; its only listed record has a tick pending, an unmasked
    line and the key 2^64 - 1; [pt_update_irq] returns without marking it
    and without raising a line. *)
Theorem pt_update_irq_misses_max_key :
  run Example_max.max_key_ops (Example.boot no_delay_for_missed_ticks)
    = Some Example_max.max_key_world /\
  tm_list <$> vcpus Example_max.max_key_world !! 0%nat = Some [0%nat] /\
  heap Example_max.max_key_world !! 0%nat = Some Example_max.max_key_pt /\
  eligible Example_max.max_key_world Example_max.max_key_pt /\
  lag_key Example_max.max_key_pt = 2 ^ 64 - 1 /\
  pt_update_irq 0%nat Example_max.max_key_world
    = Some Example_max.max_key_world.
Proof.
  split; [exact Example_runs.max_key_run|].
  split; [reflexivity|]. split; [reflexivity|].
  split; [exact Example_runs.max_key_eligible|].
  split; [reflexivity | exact Example_runs.max_key_not_asserted].
Qed.

(** C9.  A record whose key [last_plt_gtime + period_cycles] is 2^64 - 1
    modulo 2^64 is never the one [pt_update_irq] marks: the call leaves it
    as it is.  And there is a state with an eligible listed record in
    which [pt_update_irq] changes nothing, so that no line is raised. *)
Theorem pt_update_irq_never_selects_max_key :
  (forall (w w' : world) (v : vcpu_id) (id : pt_id) (pt : periodic_time),
     heap w !! id = Some pt -> lag_key pt = 2 ^ 64 - 1 ->
     pt_update_irq v w = Some w' -> heap w' !! id = Some pt) /\
  (exists (w : world) (v : vcpu_id) (vc : vcpu_state) (id : pt_id)
          (pt : periodic_time),
     wf w /\ vcpus w !! v = Some vc /\ id ∈ tm_list vc /\
     heap w !! id = Some pt /\ eligible w pt /\
     pt_update_irq v w = Some w).
Proof.
  split.
  - intros w w' v id pt Hpt Hk. unfold pt_update_irq. intros H.
    destruct (vcpus w !! v) as [vc|]; [simpl in H | discriminate].
    destruct (pt_update_irq_scan w (tm_list vc) (u64 (-1)) None)
      as [[id'|]|] eqn:Hscan; simpl in H; try discriminate.
    + assert (Hne : id' <> id).
      { intros ->. revert Hscan.
        apply (pt_update_irq_scan_skips_max w id pt Hpt Hk);
          [change (u64 (-1)) with (2 ^ 64 - 1); lia | discriminate]. }
      destruct (heap w !! id') as [pt'|]; [simpl in H | discriminate].
      assert (Hw' : heap w' = <[id' := set_irq_issued true pt']> (heap w))
        by (destruct (source pt'); injection H as <-; reflexivity).
      rewrite Hw', list_lookup_insert_ne by exact Hne. exact Hpt.
    + injection H as <-. exact Hpt.
  - exists Example_max.max_key_world, 0%nat,
      (mk_vcpu [0%nat] 0 0 0%nat false), 0%nat, Example_max.max_key_pt.
    split; [apply wfb_wf; reflexivity|].
    split; [reflexivity|]. split; [left|]. split; [reflexivity|].
    split; [exact Example_runs.max_key_eligible|].
    exact Example_runs.max_key_not_asserted.
Qed.

Lemma pt_update_irq_never_selects_max_key_witness :
  heap Example_max.max_key_world !! 0%nat = Some Example_max.max_key_pt.
Proof.
  apply (proj1 pt_update_irq_never_selects_max_key
           Example_max.max_key_world Example_max.max_key_world 0%nat 0%nat
           Example_max.max_key_pt).
  - reflexivity.
  - reflexivity.
  - reflexivity.
Defined.

(** ** Stores *)

Section Stores.

Variable w : world.

Lemma heap_store_pt_eq (id : pt_id) (pt pt' : periodic_time) :
  heap w !! id = Some pt -> heap (store_pt id pt' w) !! id = Some pt'.
Proof.
  intros H. simpl. apply list_lookup_insert_eq. eapply lookup_lt_Some; eauto.
Qed.

Lemma heap_store_pt_ne (id id' : pt_id) (pt' : periodic_time) :
  id <> id' -> heap (store_pt id pt' w) !! id' = heap w !! id'.
Proof. intros H. simpl. now apply list_lookup_insert_ne. Qed.

Lemma vcpus_store_vcpu_eq (v : vcpu_id) (vc vc' : vcpu_state) :
  vcpus w !! v = Some vc -> vcpus (store_vcpu v vc' w) !! v = Some vc'.
Proof.
  intros H. simpl. apply list_lookup_insert_eq. eapply lookup_lt_Some; eauto.
Qed.

Lemma vcpus_store_vcpu_ne (v v' : vcpu_id) (vc' : vcpu_state) :
  v <> v' -> vcpus (store_vcpu v vc' w) !! v' = vcpus w !! v'.
Proof. intros H. simpl. now apply list_lookup_insert_ne. Qed.

Lemma vcpus_list_del (id : pt_id) (v : vcpu_id) :
  vcpus (list_del id w) !! v =
  (fun vc => set_tm_list (filter (fun x => x <> id) (tm_list vc)) vc)
    <$> vcpus w !! v.
Proof. simpl. apply list_lookup_fmap. Qed.

Lemma not_in_list_del (id : pt_id) (v : vcpu_id) (vc : vcpu_state) :
  vcpus (list_del id w) !! v = Some vc -> id ∉ tm_list vc.
Proof.
  rewrite vcpus_list_del. destruct (vcpus w !! v) as [vc0|]; [|discriminate].
  intros [= <-]. simpl. rewrite list_elem_of_filter. tauto.
Qed.

End Stores.

(** ** The acknowledgement *)

Section Ack.

Variable w : world.
Variable intack : hvm_intack.

Lemma pt_irq_vector_is_Some (pt : periodic_time) (src : hvm_intsrc) :
  is_Some (pt_vcpu w pt) -> is_Some (pt_irq_vector w pt src).
Proof.
  intros [v Hv]. unfold pt_irq_vector. rewrite Hv. simpl.
  destruct (source pt), src; eauto.
Qed.

Lemma is_pt_irq_scan_none (l : list pt_id) :
  scannable w l ->
  (forall id pt, id ∈ l -> heap w !! id = Some pt -> ~ matches w intack pt) ->
  is_pt_irq_scan w l intack = Some None.
Proof.
  induction l as [|id l IH]; intros Hl Hno; [reflexivity|].
  destruct (Hl id) as (pt & Hpt & Hv & Hp); [left|].
  simpl. rewrite Hpt. simpl.
  assert (Hrest : is_pt_irq_scan w l intack = Some None).
  { apply IH.
    - intros x Hx. apply Hl. now right.
    - intros x px Hx. apply Hno. now right. }
  destruct (negb (pending_intr_nr pt =? 0) && irq_issued pt) eqn:Htest;
    [|exact Hrest].
  apply andb_true_iff in Htest as [Hn Hi].
  apply negb_true_iff, Z.eqb_neq in Hn.
  destruct (pt_irq_vector_is_Some pt (intack_source intack) Hv) as [vec Hvec].
  rewrite Hvec. simpl.
  destruct (Z.eqb_spec (intack_vector intack) vec) as [Heq|]; [|exact Hrest].
  exfalso. apply (Hno id pt); [left | exact Hpt|].
  repeat split; [lia | assumption | now rewrite Heq].
Qed.

Lemma is_pt_irq_scan_found (l : list pt_id) (id : pt_id) :
  is_pt_irq_scan w l intack = Some (Some id) ->
  id ∈ l /\
  exists pt, heap w !! id = Some pt /\ pending_intr_nr pt <> 0 /\
             irq_issued pt = true /\
             pt_irq_vector w pt (intack_source intack)
               = Some (intack_vector intack).
Proof.
  induction l as [|x l IH]; simpl; [discriminate|].
  destruct (heap w !! x) as [px|] eqn:Hpx; simpl; [|discriminate].
  assert (Hrest : is_pt_irq_scan w l intack = Some (Some id) ->
                  id ∈ x :: l /\
                  exists pt, heap w !! id = Some pt /\ pending_intr_nr pt <> 0 /\
                             irq_issued pt = true /\
                             pt_irq_vector w pt (intack_source intack)
                               = Some (intack_vector intack)).
  { intros H. destruct (IH H) as [Hin Hex]. split; [now right | exact Hex]. }
  destruct (negb (pending_intr_nr px =? 0) && irq_issued px) eqn:Htest;
    [|exact Hrest].
  destruct (pt_irq_vector w px (intack_source intack)) as [vec|] eqn:Hvec;
    simpl; [|discriminate].
  destruct (Z.eqb_spec (intack_vector intack) vec) as [Heq|]; [|exact Hrest].
  intros [= <-]. split; [left|].
  apply andb_true_iff in Htest as [Hn Hi].
  apply negb_true_iff, Z.eqb_neq in Hn.
  exists px. rewrite Heq. auto.
Qed.

End Ack.

(** C6.  On a well-formed state, when no record of the vCPU's list has a
    tick pending, its line raised and the acknowledged vector,
    [pt_intr_post] returns the state it was given: no record, no list, no
    guest time has changed and no callback has been called. *)
Theorem pt_intr_post_not_ours (w : world) (v : vcpu_id) (vc : vcpu_state)
    (intack : hvm_intack) :
  wf w -> vcpus w !! v = Some vc ->
  (forall id pt, id ∈ tm_list vc -> heap w !! id = Some pt ->
                 ~ (0 < pending_intr_nr pt /\ irq_issued pt = true /\
                    pt_irq_vector w pt (intack_source intack)
                      = Some (intack_vector intack))) ->
  pt_intr_post v intack w = Some w.
Proof.
  intros Hwf Hv Hno. unfold pt_intr_post, is_pt_irq. rewrite Hv. simpl.
  rewrite (is_pt_irq_scan_none w intack (tm_list vc)); [reflexivity | |exact Hno].
  eapply wf_scannable; eauto.
Qed.

Lemma pt_intr_post_not_ours_witness :
  pt_intr_post 0%nat (mk_intack hvm_intsrc_pic 33)
    (Example_ack.issued_world no_delay_for_missed_ticks)
  = Some (Example_ack.issued_world no_delay_for_missed_ticks).
Proof.
  apply (pt_intr_post_not_ours _ 0%nat (mk_vcpu [0%nat] 0 0 0%nat false)).
  - apply wfb_wf. reflexivity.
  - reflexivity.
  - intros id pt Hid Hpt (_ & _ & Hvec).
    apply list_elem_of_singleton in Hid. subst id.
    injection Hpt as <-. vm_compute in Hvec. discriminate.
Defined.

(** C8.  On a well-formed state, when [is_pt_irq] finds a one-shot record
    for the acknowledged vector, [pt_intr_post] returns a state in which
    the record is on no list, the list of the vCPU is the old one without
    it, [on_list], [irq_issued] and [do_not_freeze] are clear, and
    [pending_intr_nr] and [last_plt_gtime] are what they were. *)
Theorem pt_intr_post_one_shot (w : world) (v : vcpu_id) (vc : vcpu_state)
    (intack : hvm_intack) (id : pt_id) (pt : periodic_time) :
  wf w -> vcpus w !! v = Some vc ->
  is_pt_irq w v intack = Some (Some id) ->
  heap w !! id = Some pt -> one_shot pt = true ->
  exists w' vc' pt',
    pt_intr_post v intack w = Some w' /\
    vcpus w' !! v = Some vc' /\
    tm_list vc' = filter (fun x => x <> id) (tm_list vc) /\
    (forall u uc, vcpus w' !! u = Some uc -> id ∉ tm_list uc) /\
    heap w' !! id = Some pt' /\
    on_list pt' = false /\ irq_issued pt' = false /\
    do_not_freeze pt' = false /\
    pending_intr_nr pt' = pending_intr_nr pt /\
    last_plt_gtime pt' = last_plt_gtime pt.
Proof.
  intros Hwf Hv Hfound Hpt Hos.
  assert (Hin : id ∈ tm_list vc).
  { unfold is_pt_irq in Hfound. rewrite Hv in Hfound. simpl in Hfound.
    now apply is_pt_irq_scan_found in Hfound. }
  destruct (wf_listed w v vc id Hwf Hv Hin) as (pt0 & Hpt0 & Hon & _).
  rewrite Hpt in Hpt0. injection Hpt0 as <-.
  unfold pt_intr_post. rewrite Hfound. simpl. rewrite Hpt. simpl.
  rewrite Hv. simpl. rewrite Hos, Hon. simpl.
  set (pt' := set_on_list false
                (set_irq_issued false (set_do_not_freeze false pt))).
  set (vc1 := set_tm_list (filter (fun x => x <> id) (tm_list vc)) vc).
  set (w1 := store_pt id pt' (list_del id w)).
  assert (Hv1 : vcpus w1 !! v = Some vc1).
  { change (vcpus w1) with (vcpus (list_del id w)).
    rewrite vcpus_list_del, Hv. reflexivity. }
  assert (Hh1 : heap w1 !! id = Some pt').
  { apply (heap_store_pt_eq (list_del id w) id pt pt'). exact Hpt. }
  assert (Hnot1 : forall u uc, vcpus w1 !! u = Some uc -> id ∉ tm_list uc).
  { intros u uc. change (vcpus w1) with (vcpus (list_del id w)).
    apply not_in_list_del. }
  rewrite list_lookup_fmap, Hv. simpl. fold vc1.
  set (w2 := if mode_is w1 delay_for_missed_ticks
                && (hvm_get_guest_time w1 vc1 <? last_plt_gtime pt)
             then store_vcpu v
                    (hvm_set_guest_time w1 vc1 (last_plt_gtime pt)) w1
             else w1).
  assert (Hw2 : exists vc2, vcpus w2 !! v = Some vc2 /\
                            tm_list vc2 = tm_list vc1 /\
                            (forall u uc, vcpus w2 !! u = Some uc ->
                                          id ∉ tm_list uc) /\
                            heap w2 = heap w1).
  { subst w2.
    destruct (mode_is w1 delay_for_missed_ticks
              && (hvm_get_guest_time w1 vc1 <? last_plt_gtime pt)).
    - exists (hvm_set_guest_time w1 vc1 (last_plt_gtime pt)).
      split; [now apply (vcpus_store_vcpu_eq w1 v vc1)|].
      split; [reflexivity|]. split; [|reflexivity].
      intros u uc. destruct (decide (v = u)) as [<-|Hne].
      + rewrite (vcpus_store_vcpu_eq w1 v vc1) by exact Hv1.
        intros [= <-]. simpl. now apply (Hnot1 v vc1).
      + rewrite vcpus_store_vcpu_ne by exact Hne. apply Hnot1.
    - exists vc1. auto. }
  destruct Hw2 as (vc2 & Hv2 & Hl2 & Hnot2 & Hh2).
  exists (match cb pt with
          | Some f => emit [call_cb f v (priv pt)] w2
          | None => w2
          end), vc2, pt'.
  split; [now destruct (cb pt)|].
  assert (Hsame : forall w3, (match cb pt with
                              | Some f => emit [call_cb f v (priv pt)] w2
                              | None => w2
                              end) = w3 ->
                             vcpus w3 = vcpus w2 /\ heap w3 = heap w2).
  { intros w3 <-. now destruct (cb pt). }
  destruct (Hsame _ eq_refl) as [-> ->].
  rewrite Hh2. repeat split; auto.
Qed.

Lemma pt_intr_post_one_shot_witness :
  exists w' pt',
    pt_intr_post 0%nat (mk_intack hvm_intsrc_lapic 240)
      (Example_ack.one_shot_world no_delay_for_missed_ticks) = Some w' /\
    tm_list <$> vcpus w' !! 0%nat = Some [] /\
    heap w' !! 2%nat = Some pt' /\
    on_list pt' = false /\ irq_issued pt' = false /\ pending_intr_nr pt' = 1.
Proof.
  destruct (pt_intr_post_one_shot
              (Example_ack.one_shot_world no_delay_for_missed_ticks)
              0%nat (mk_vcpu [2%nat] 0 0 0%nat false)
              (mk_intack hvm_intsrc_lapic 240) 2%nat Example_ack.one_shot_pt)
    as (w' & vc' & pt' & Hrun & Hv & Hl & _ & Hpt & Hon & Hi & _ & Hp & _).
  - apply wfb_wf. reflexivity.
  - reflexivity.
  - reflexivity.
  - reflexivity.
  - reflexivity.
  - exists w', pt'. split; [exact Hrun|].
    split; [rewrite Hv; simpl; now rewrite Hl|].
    split; [exact Hpt|]. split; [exact Hon|]. split; [exact Hi | exact Hp].
Defined.

(** ** Reset *)

Section Reset.

Variable v : vcpu_id.
Variable vc : vcpu_state.

Lemma reset_of_idem now gtime pt :
  reset_of now gtime (reset_of now gtime pt) = reset_of now gtime pt.
Proof. reflexivity. Qed.

Lemma pt_reset_body_eq (w : world) (id : pt_id) (pt : periodic_time) :
  vcpus w !! v = Some vc -> heap w !! id = Some pt -> vcpu pt = Some v ->
  pt_reset_body id w
  = Some (store_pt id (reset_of (NOW w) (hvm_get_guest_time w vc) pt) w).
Proof.
  intros Hv Hpt Hu. unfold pt_reset_body.
  rewrite Hpt. simpl. rewrite Hu. simpl. rewrite Hv. reflexivity.
Qed.

Lemma pt_reset_loop (l : list pt_id) :
  forall w : world,
    vcpus w !! v = Some vc ->
    (forall id, id ∈ l ->
                exists pt, heap w !! id = Some pt /\ vcpu pt = Some v) ->
    exists h',
      list_for_each_entry pt_reset_body l w = Some (set_heap h' w) /\
      forall id pt,
        heap w !! id = Some pt ->
        h' !! id =
        Some (if decide (id ∈ l)
              then reset_of (NOW w) (hvm_get_guest_time w vc) pt else pt).
Proof.
  induction l as [|x l IH]; intros w Hv Hl.
  - exists (heap w). split; [now destruct w|].
    intros id pt Hpt. destruct (decide (id ∈ [])) as [Hin|_]; [|exact Hpt].
    inversion Hin.
  - destruct (Hl x) as (px & Hpx & Hux); [left|].
    simpl. rewrite (pt_reset_body_eq w x px Hv Hpx Hux). simpl.
    set (rx := reset_of (NOW w) (hvm_get_guest_time w vc) px).
    destruct (IH (store_pt x rx w)) as (h' & Hrun & Hh').
    + exact Hv.
    + intros id Hid. destruct (decide (x = id)) as [<-|Hne].
      * exists rx. split; [now apply (heap_store_pt_eq w x px)|exact Hux].
      * rewrite heap_store_pt_ne by exact Hne. apply Hl. now right.
    + exists h'. split; [exact Hrun|].
      intros id pt Hpt. destruct (decide (x = id)) as [<-|Hne].
      * rewrite Hpx in Hpt. injection Hpt as <-.
        rewrite (Hh' x rx) by now apply (heap_store_pt_eq w x px).
        f_equal.
        destruct (decide (x ∈ x :: l)) as [_|Hn]; [|exfalso; apply Hn; left].
        now destruct (decide (x ∈ l)).
      * rewrite (Hh' id pt) by now rewrite heap_store_pt_ne.
        f_equal.
        destruct (decide (id ∈ l)) as [Hin|Hnin];
          destruct (decide (id ∈ x :: l)) as [Hin'|Hnin']; try reflexivity.
        -- exfalso. apply Hnin'. now right.
        -- exfalso. apply elem_of_cons in Hin' as [->|Hin']; auto.
Qed.

End Reset.

(** C10.  On a well-formed state [pt_reset] returns a state that differs
    from the old one in the records only.  A record of the vCPU's list
    keeps [on_list], [one_shot], [do_not_freeze], [irq_issued], [source],
    [irq], [vcpu], [period], [period_cycles], [cb] and [priv] and the
    physical CPU of its timer; its [pending_intr_nr] is 0, its
    [last_plt_gtime] the guest time, its [scheduled] is [NOW() + period]
    as an [s_time_t], and its timer is armed at that deadline.  Every
    other record is left alone. *)
Theorem pt_reset_frame (w : world) (v : vcpu_id) (vc : vcpu_state) :
  wf w -> vcpus w !! v = Some vc ->
  exists h',
    pt_reset v w = Some (set_heap h' w) /\
    forall id pt,
      heap w !! id = Some pt ->
      h' !! id =
      Some (if decide (id ∈ tm_list vc)
            then mk_pt (on_list pt) (one_shot pt) (do_not_freeze pt)
                   (irq_issued pt) (source pt) (irq pt) (vcpu pt) 0
                   (period pt) (period_cycles pt)
                   (s64 (NOW w + period pt)) (hvm_get_guest_time w vc)
                   (mk_timer true (s64 (NOW w + period pt))
                      (cpu (pt_timer pt)))
                   (cb pt) (priv pt)
            else pt).
Proof.
  intros Hwf Hv. unfold pt_reset. rewrite Hv. simpl.
  apply (pt_reset_loop v vc (tm_list vc) w Hv).
  intros id Hid.
  destruct (wf_listed w v vc id Hwf Hv Hid) as (pt & Hpt & _ & Hu & _).
  eauto.
Qed.

Lemma pt_reset_frame_witness :
  exists h',
    pt_reset 0%nat (Example_ack.issued_world no_delay_for_missed_ticks)
    = Some (set_heap h' (Example_ack.issued_world no_delay_for_missed_ticks)) /\
    h' !! 0%nat =
    Some (mk_pt true false false true PTSRC_isa 0 (Some 0%nat) 0 1000000
            2000000 2000000 2000000 (mk_timer true 2000000 0%nat)
            (Some 7%nat) 5).
Proof.
  destruct (pt_reset_frame
              (Example_ack.issued_world no_delay_for_missed_ticks)
              0%nat (mk_vcpu [0%nat] 0 0 0%nat false)) as (h' & Hrun & Hh').
  - apply wfb_wf. reflexivity.
  - reflexivity.
  - exists h'. split; [exact Hrun|].
    rewrite (Hh' 0%nat Example_ack.issued_pt) by reflexivity.
    reflexivity.
Defined.

(** ** Creation and destruction *)

Lemma filter_ne_id (id : pt_id) (l : list pt_id) :
  id ∉ l -> filter (fun x => x <> id) l = l.
Proof.
  induction l as [|x l IH]; intros Hn; [reflexivity|].
  apply not_elem_of_cons in Hn as [Hne Hn].
  rewrite filter_cons_True by congruence. now rewrite IH.
Qed.

Lemma set_tm_list_id (vc : vcpu_state) : set_tm_list (tm_list vc) vc = vc.
Proof. now destruct vc. Qed.

Lemma destroy_periodic_time_eq (w : world) (id : pt_id) (pt : periodic_time) :
  wf w -> heap w !! id = Some pt ->
  destroy_periodic_time id w = Some (destroyed id pt w).
Proof.
  intros Hwf Hpt. unfold destroy_periodic_time, destroyed.
  rewrite Hpt. simpl. destruct (vcpu pt) as [u|] eqn:Hu; [|reflexivity].
  destruct (wf_vcpu w Hwf id pt u Hpt Hu) as [uc Huc].
  rewrite Huc. reflexivity.
Qed.

(** Destruction takes the record off the list it is on and touches no
    other list, no clock and no other record. *)
Lemma destroyed_spec (w : world) (id : pt_id) (pt : periodic_time) :
  wf w -> heap w !! id = Some pt ->
  (forall v vc, vcpus w !! v = Some vc ->
     vcpus (destroyed id pt w) !! v
     = Some (set_tm_list (filter (fun x => x <> id) (tm_list vc)) vc)) /\
  (exists ptd, heap (destroyed id pt w) !! id = Some ptd /\
               source ptd = source pt) /\
  NOW (destroyed id pt w) = NOW w /\
  host_tsc (destroyed id pt w) = host_tsc w /\
  cpu_khz (destroyed id pt w) = cpu_khz w /\
  trace (destroyed id pt w) = trace w.
Proof.
  intros Hwf Hpt.
  assert (Hoff : forall v vc, vcpus w !! v = Some vc ->
                 (vcpu pt = None \/ on_list pt = false) ->
                 vc = set_tm_list (filter (fun x => x <> id) (tm_list vc)) vc).
  { intros v vc Hv Hcase.
    rewrite filter_ne_id; [now rewrite set_tm_list_id|].
    intros Hin.
    destruct (wf_linked w Hwf v vc id Hv Hin) as (pt0 & Hpt0 & Hon & Hu).
    rewrite Hpt in Hpt0. injection Hpt0 as <-.
    destruct Hcase; congruence. }
  unfold destroyed. destruct (vcpu pt) as [u|] eqn:Hu.
  - destruct (on_list pt) eqn:Hon.
    + split; [|split; [|now repeat split]].
      * intros v vc Hv.
        change (vcpus (list_del id w) !! v = Some
                  (set_tm_list (filter (fun x => x <> id) (tm_list vc)) vc)).
        now rewrite vcpus_list_del, Hv.
      * eexists. split;
          [now apply (heap_store_pt_eq (list_del id w) id pt) | reflexivity].
    + split; [|split; [|now repeat split]].
      * intros v vc Hv. simpl. rewrite Hv. f_equal. eapply Hoff; eauto.
      * eexists. split;
          [now apply (heap_store_pt_eq w id pt) | reflexivity].
  - split; [|split; [|now repeat split]].
    + intros v vc Hv. rewrite Hv. f_equal. eapply Hoff; eauto.
    + exists pt. auto.
Qed.

(** C7.  On a well-formed state, for a period that is a [uint64_t] and
    without overflow of the deadline and of [period * cpu_khz],
    [create_periodic_time] returns a state in which the record has the
    period clamped to 900 000 ns unless it is one-shot, no tick pending,
    [do_not_freeze] and [irq_issued] clear, [scheduled] at
    [NOW() + period], half a period later for a LAPIC source,
    [period_cycles = period * cpu_khz / 10^6], [on_list] set, its address
    at the front of the list of [v], and its timer armed at [scheduled] on
    the physical CPU of [v]. *)
Theorem create_periodic_time_spec (w : world) (v : vcpu_id) (vc : vcpu_state)
    (id : pt_id) (pt0 : periodic_time) (period0 irq0 : Z) (one_shot0 : bool)
    (cb0 : option time_cb) (data : Z) :
  wf w -> vcpus w !! v = Some vc -> heap w !! id = Some pt0 ->
  in_u64 period0 ->
  let period1 :=
    if (period0 <? 900000) && negb one_shot0 then 900000 else period0 in
  in_s64 (NOW w) -> in_s64 (NOW w + period1 + period1 / 2) ->
  in_u64 (period1 * cpu_khz w) ->
  exists w' vc' pt,
    create_periodic_time v id period0 irq0 one_shot0 cb0 data w = Some w' /\
    heap w' !! id = Some pt /\ vcpus w' !! v = Some vc' /\
    period pt = period1 /\
    (one_shot0 = false -> 900000 <= period pt) /\
    (one_shot0 = true \/ 900000 <= period0 -> period pt = period0) /\
    pending_intr_nr pt = 0 /\ do_not_freeze pt = false /\
    irq_issued pt = false /\
    scheduled pt
    = NOW w + period pt
      + match source pt0 with PTSRC_lapic => period pt / 2 | PTSRC_isa => 0 end /\
    period_cycles pt = period pt * cpu_khz w / 1000000 /\
    on_list pt = true /\
    tm_list vc' = id :: filter (fun x => x <> id) (tm_list vc) /\
    pt_timer pt = mk_timer true (scheduled pt) (processor vc) /\
    vcpu pt = Some v /\ source pt = source pt0 /\ one_shot pt = one_shot0 /\
    irq pt = u8 irq0 /\ cb pt = cb0 /\ priv pt = data.
Proof.
  intros Hwf Hv Hpt0 Hp0 period1 Hnow Hsched Hcyc.
  destruct (destroyed_spec w id pt0 Hwf Hpt0)
    as (Hvs & (ptd & Hptd & Hsrc) & Hn & Ht & Hk & _).
  specialize (Hvs v vc Hv).
  unfold create_periodic_time.
  rewrite (destroy_periodic_time_eq w id pt0 Hwf Hpt0). simpl.
  rewrite Hvs. simpl. rewrite Hptd. simpl.
  rewrite (u64_id period0 Hp0). fold period1.
  set (W1 := destroyed id pt0 w) in *.
  set (W2 := if (period0 <? 900000) && negb one_shot0
             then emit [gdprintk_small_period period0] W1 else W1).
  assert (HW2 : heap W2 = heap W1 /\ vcpus W2 = vcpus W1 /\ NOW W2 = NOW w /\
                host_tsc W2 = host_tsc w /\ cpu_khz W2 = cpu_khz w).
  { subst W2. destruct ((period0 <? 900000) && negb one_shot0); simpl; auto. }
  destruct HW2 as (Hh2 & Hv2 & Hn2 & Ht2 & Hk2).
  assert (Hp1 : 0 <= period1).
  { subst period1. unfold in_u64 in Hp0.
    destruct ((period0 <? 900000) && negb one_shot0); lia. }
  assert (Hhalf : Z.shiftr period1 1 = period1 / 2)
    by (rewrite Z.shiftr_div_pow2 by lia; reflexivity).
  assert (Hhalf0 : 0 <= period1 / 2) by (apply Z.div_pos; lia).
  assert (Hs1 : s64 (NOW W2 + period1) = NOW w + period1).
  { rewrite Hn2. apply s64_id. unfold in_s64 in *. lia. }
  rewrite Hs1, Hk2, Hhalf.
  assert (Hs2 : s64 (NOW w + period1 + period1 / 2)
                = NOW w + period1 + period1 / 2) by now apply s64_id.
  rewrite Hs2, Hsrc, (u64_id _ Hcyc).
  eexists _, _, _. split; [reflexivity|].
  split.
  { simpl. rewrite Hh2. apply list_lookup_insert_eq.
    eapply lookup_lt_Some; eauto. }
  split.
  { simpl. rewrite Hv2. apply list_lookup_insert_eq.
    eapply lookup_lt_Some; eauto. }
  simpl.
  split; [reflexivity|].
  split.
  { intros ->. subst period1. rewrite andb_true_r.
    destruct (Z.ltb_spec period0 900000); lia. }
  split.
  { subst period1. intros [-> | Hge].
    - now rewrite andb_false_r.
    - destruct (Z.ltb_spec period0 900000); [lia | reflexivity]. }
  repeat (split; [reflexivity|]).
  split; [destruct (source pt0); lia|].
  repeat split.
Qed.

Lemma create_periodic_time_spec_witness :
  exists w' pt,
    create_periodic_time 0%nat 2%nat 500000 240 false None 0
      (Example.boot no_delay_for_missed_ticks) = Some w' /\
    heap w' !! 2%nat = Some pt /\
    period pt = 900000 /\ scheduled pt = 1350000 /\
    period_cycles pt = 1800000 /\ pending_intr_nr pt = 0.
Proof.
  destruct (create_periodic_time_spec
              (Example.boot no_delay_for_missed_ticks) 0%nat Example.vcpu0
              2%nat (Example.fresh PTSRC_lapic) 500000 240 false None 0)
    as (w' & vc' & pt & Hrun & Hpt & _ & Hper & _ & _ & Hpend & _ & _ &
        Hs & Hc & _).
  - apply wfb_wf. reflexivity.
  - reflexivity.
  - reflexivity.
  - unfold in_u64. lia.
  - vm_compute. split; [discriminate | reflexivity].
  - vm_compute. split; [discriminate | reflexivity].
  - vm_compute. split; [discriminate | reflexivity].
  - exists w', pt. split; [exact Hrun|]. split; [exact Hpt|].
    split; [exact Hper|].
    split; [rewrite Hs, Hper; reflexivity|].
    split; [rewrite Hc, Hper; reflexivity | exact Hpend].
Defined.

(** ** What the operations do to the tick counter and the issue flag *)

Section HeapRel.

Variable Q : pt_id -> periodic_time -> periodic_time -> Prop.
Hypothesis Q_refl : forall id pt, Q id pt pt.

Lemma heap_rel_same (w w' : world) : heap w' = heap w -> heap_rel Q w w'.
Proof. intros H id pt Hpt. exists pt. rewrite H. auto. Qed.

Lemma heap_rel_store (w w' : world) (id : pt_id) (pt pt' : periodic_time) :
  heap w !! id = Some pt -> Q id pt pt' ->
  heap w' = <[id := pt']> (heap w) -> heap_rel Q w w'.
Proof.
  intros Hpt HQ Hw' i p Hp. rewrite Hw'.
  destruct (decide (id = i)) as [<-|Hne].
  - exists pt'. rewrite list_lookup_insert_eq by (eapply lookup_lt_Some; eauto).
    rewrite Hpt in Hp. injection Hp as <-. auto.
  - exists p. rewrite list_lookup_insert_ne by exact Hne. auto.
Qed.

Lemma heap_rel_store_pt (w : world) (id : pt_id) (pt pt' : periodic_time) :
  heap w !! id = Some pt -> Q id pt pt' -> heap_rel Q w (store_pt id pt' w).
Proof. intros Hpt HQ. now apply (heap_rel_store w _ id pt pt'). Qed.

Hypothesis Q_trans : forall id a b c, Q id a b -> Q id b c -> Q id a c.

Lemma heap_rel_trans (w1 w2 w3 : world) :
  heap_rel Q w1 w2 -> heap_rel Q w2 w3 -> heap_rel Q w1 w3.
Proof.
  intros H12 H23 id pt Hpt.
  destruct (H12 id pt Hpt) as (pt2 & Hpt2 & HQ2).
  destruct (H23 id pt2 Hpt2) as (pt3 & Hpt3 & HQ3).
  exists pt3. eauto.
Qed.

Lemma heap_rel_loop (I : world -> Prop)
    (body : pt_id -> world -> option world) :
  (forall id w w', I w -> body id w = Some w' -> heap_rel Q w w' /\ I w') ->
  forall l w w', I w -> list_for_each_entry body l w = Some w' ->
                 heap_rel Q w w' /\ I w'.
Proof.
  intros Hbody. induction l as [|x l IH]; intros w w' HI H; simpl in H.
  - injection H as <-. split; [now apply heap_rel_same | exact HI].
  - destruct (body x w) as [w1|] eqn:Hx; [simpl in H | discriminate].
    destruct (Hbody x w w1 HI Hx) as [H1 HI1].
    destruct (IH w1 w' HI1 H) as [H2 HI2].
    split; [eapply heap_rel_trans; eauto | exact HI2].
Qed.

End HeapRel.

Lemma heap_rel_mono (Q Q' : pt_id -> periodic_time -> periodic_time -> Prop)
    (w w' : world) :
  (forall id a b, Q id a b -> Q' id a b) -> heap_rel Q w w' -> heap_rel Q' w w'.
Proof.
  intros HQ H id pt Hpt. destruct (H id pt Hpt) as (pt' & Hpt' & Hq). eauto.
Qed.

Lemma keep_refl pt : keep pt pt.
Proof. now split. Qed.

Lemma keep_trans a b c : keep a b -> keep b c -> keep a c.
Proof. unfold keep. intros [-> ->] [-> ->]. now split. Qed.

Lemma caught_up_refl m pt : caught_up m pt pt.
Proof. unfold caught_up. auto. Qed.

Lemma caught_up_trans m a b c :
  caught_up m a b -> caught_up m b c -> caught_up m a c.
Proof.
  unfold caught_up. intros (-> & H1 & H2) (-> & H3 & H4).
  split; [reflexivity|]. split; [auto|].
  intros Hm. now rewrite H4, H2.
Qed.

Lemma zeroed_refl pt : zeroed pt pt.
Proof. unfold zeroed. auto. Qed.

Lemma zeroed_trans a b c : zeroed a b -> zeroed b c -> zeroed a c.
Proof.
  unfold zeroed. intros (-> & H1) (-> & H2). split; [reflexivity|].
  destruct H1 as [H1|H1], H2 as [H2|H2]; rewrite ?H2, ?H1; auto.
Qed.

(** Take the first step of a sequence of fallible steps apart. *)
Tactic Notation "bind_inv" hyp(H) "as" ident(x) ident(E) :=
  match type of H with
  | mbind _ ?m = Some _ =>
      destruct m as [x|] eqn:E; simpl in H; [|discriminate H]
  end.

Section Effects.

Lemma mode_is_true (w : world) (m : hvm_timer_mode) :
  mode_is w m = true <-> timer_mode w = m.
Proof. unfold mode_is. destruct (timer_mode w), m; simpl; split; congruence. Qed.

Lemma pt_process_missed_ticks_effect (w : world) (pt pt' : periodic_time) :
  pt_process_missed_ticks w pt = Some pt' -> caught_up (timer_mode w) pt pt'.
Proof.
  unfold pt_process_missed_ticks. intros H.
  destruct (one_shot pt); [injection H as <-; apply caught_up_refl|].
  destruct (s64 (NOW w - scheduled pt) <=? 0);
    [injection H as <-; apply caught_up_refl|].
  destruct (s64 (period pt) =? 0); [discriminate|].
  bind_inv H as v Hv.
  destruct (mode_is w no_missed_ticks_pending) eqn:Hm; injection H as <-.
  - unfold caught_up. simpl. auto.
  - unfold caught_up. simpl. split; [reflexivity|]. split.
    + intros _. apply u32_range.
    + intros Hnm. apply mode_is_true in Hnm. congruence.
Qed.

Lemma pt_save_timer_body_effect id w w' :
  pt_save_timer_body id w = Some w' ->
  heap_rel (fun _ => keep) w w' /\ timer_mode w' = timer_mode w.
Proof.
  unfold pt_save_timer_body. intros H. bind_inv H as pt Hpt.
  destruct (do_not_freeze pt); injection H as <-.
  - split; [apply heap_rel_same; auto using keep_refl | reflexivity].
  - split; [|reflexivity].
    apply (heap_rel_store_pt _ (fun _ => keep_refl) w id pt); [exact Hpt|].
    now split.
Qed.

Lemma pt_restore_timer_body_effect id w w' :
  pt_restore_timer_body id w = Some w' ->
  heap_rel (fun _ => caught_up (timer_mode w)) w w' /\
  timer_mode w' = timer_mode w.
Proof.
  unfold pt_restore_timer_body. intros H.
  bind_inv H as pt Hpt. bind_inv H as pt1 Hpt1.
  injection H as <-. split; [|reflexivity].
  apply (heap_rel_store_pt _ (fun _ => caught_up_refl _) w id pt);
    [exact Hpt|].
  apply pt_process_missed_ticks_effect in Hpt1.
  unfold caught_up in *. simpl. exact Hpt1.
Qed.

Lemma pt_reset_body_effect id w w' :
  pt_reset_body id w = Some w' ->
  heap_rel (fun _ => zeroed) w w' /\ timer_mode w' = timer_mode w.
Proof.
  unfold pt_reset_body. intros H.
  bind_inv H as pt Hpt. bind_inv H as u Hu. bind_inv H as uc Huc.
  injection H as <-. split; [|reflexivity].
  apply (heap_rel_store_pt _ (fun _ => zeroed_refl) w id pt); [exact Hpt|].
  unfold zeroed. simpl. auto.
Qed.

Lemma pt_migrate_body_effect c id w w' :
  pt_migrate_body c id w = Some w' ->
  heap_rel (fun _ => keep) w w' /\ timer_mode w' = timer_mode w.
Proof.
  unfold pt_migrate_body. intros H. bind_inv H as pt Hpt. injection H as <-.
  split; [|reflexivity].
  apply (heap_rel_store_pt _ (fun _ => keep_refl) w id pt); [exact Hpt|].
  now split.
Qed.

Lemma pt_freeze_time_same v w w' :
  pt_freeze_time v w = Some w' ->
  heap w' = heap w /\ timer_mode w' = timer_mode w.
Proof.
  unfold pt_freeze_time. intros H. bind_inv H as vc Hv.
  destruct (negb (mode_is w delay_for_missed_ticks)); now injection H as <-.
Qed.

Lemma pt_thaw_time_same v w w' :
  pt_thaw_time v w = Some w' ->
  heap w' = heap w /\ timer_mode w' = timer_mode w.
Proof.
  unfold pt_thaw_time. intros H. bind_inv H as vc Hv.
  destruct (negb (mode_is w delay_for_missed_ticks));
    [now injection H as <-|].
  destruct (guest_time vc =? 0); now injection H as <-.
Qed.

End Effects.

Section StepEffect.

Lemma destroy_periodic_time_effect id w w' :
  destroy_periodic_time id w = Some w' ->
  heap_rel (fun _ => keep) w w' /\ timer_mode w' = timer_mode w.
Proof.
  unfold destroy_periodic_time. intros H. bind_inv H as pt Hpt.
  destruct (vcpu pt) as [v|].
  - bind_inv H as vc Hv. injection H as <-. split.
    + apply (heap_rel_store _ (fun _ => keep_refl) w _ id pt
               (set_pt_timer (kill_timer (pt_timer pt)) (set_on_list false pt)));
        [exact Hpt | now split | now destruct (on_list pt)].
    + now destruct (on_list pt).
  - injection H as <-. split; [|reflexivity].
    apply heap_rel_same; auto using keep_refl.
Qed.

Lemma create_periodic_time_effect v id p i os f d w w' :
  create_periodic_time v id p i os f d w = Some w' ->
  heap_rel (effect (timer_mode w) (Op_create v id p i os f d)) w w' /\
  timer_mode w' = timer_mode w.
Proof.
  unfold create_periodic_time. cbv zeta. intros H.
  bind_inv H as w1 Hd. bind_inv H as vc Hv. bind_inv H as ptd Hptd.
  destruct (destroy_periodic_time_effect id w w1 Hd) as [Hk Hm].
  injection H as <-.
  set (W2 := if (u64 p <? 900000) && negb os
             then emit [gdprintk_small_period (u64 p)] w1 else w1).
  assert (HW2 : heap W2 = heap w1 /\ timer_mode W2 = timer_mode w)
    by (subst W2; destruct ((u64 p <? 900000) && negb os); auto).
  destruct HW2 as [Hh2 Hm2].
  split; [|exact Hm2].
  intros x px Hpx. destruct (Hk x px Hpx) as (px1 & Hpx1 & Hkeep).
  simpl. rewrite Hh2. destruct (decide (x = id)) as [->|Hne].
  - rewrite list_lookup_insert_eq by (eapply lookup_lt_Some; eauto).
    eexists. split; [reflexivity|]. now split.
  - rewrite list_lookup_insert_ne by congruence. eauto.
Qed.

Lemma pt_timer_fn_effect id w w' :
  pt_timer_fn id w = Some w' ->
  heap_rel (effect (timer_mode w) (Op_timer_fn id)) w w' /\
  timer_mode w' = timer_mode w.
Proof.
  unfold pt_timer_fn. intros H.
  bind_inv H as pt Hpt. bind_inv H as v Hv. bind_inv H as pt1 Hpt1.
  injection H as <-. split; [|reflexivity].
  assert (Heff : irq_issued pt1 = irq_issued pt /\
                 0 <= pending_intr_nr pt1 /\
                 (timer_mode w = no_missed_ticks_pending ->
                  pending_intr_nr pt1 = u32 (pending_intr_nr pt + 1))).
  { pose proof (u32_range (pending_intr_nr pt + 1)) as Hr.
    unfold in_u32 in Hr. simpl in Hpt1.
    destruct (one_shot pt).
    - injection Hpt1 as <-. simpl. auto with zarith.
    - bind_inv Hpt1 as pt2 Hpt2. injection Hpt1 as <-.
      apply pt_process_missed_ticks_effect in Hpt2.
      destruct Hpt2 as (Hi & Hp & Hn). simpl in *.
      auto with zarith. }
  intros x px Hpx. simpl. destruct (decide (x = id)) as [->|Hne].
  - rewrite list_lookup_insert_eq by (eapply lookup_lt_Some; eauto).
    rewrite Hpt in Hpx. injection Hpx as <-. eauto.
  - rewrite list_lookup_insert_ne by congruence.
    exists px. split; [exact Hpx | apply keep_refl].
Qed.

Lemma fire_timer_effect id w w' :
  fire_timer id w = Some w' ->
  heap_rel (effect (timer_mode w) (Op_timer_fn id)) w w' /\
  timer_mode w' = timer_mode w.
Proof.
  unfold fire_timer. intros H. bind_inv H as pt Hpt.
  destruct (armed (pt_timer pt) && (expires (pt_timer pt) <=? NOW w));
    [|discriminate].
  apply pt_timer_fn_effect in H. destruct H as [Heff Hm].
  split; [|exact Hm].
  intros x px Hpx.
  assert (Hlt : (id < length (heap w))%nat) by (eapply lookup_lt_Some; eauto).
  destruct (decide (x = id)) as [->|Hne].
  - rewrite Hpt in Hpx. injection Hpx as <-.
    destruct (Heff id (set_pt_timer (stop_timer (pt_timer pt)) pt))
      as (pt' & Hpt' & He).
    { simpl. now apply list_lookup_insert_eq. }
    exists pt'. split; [exact Hpt'|].
    simpl in *. destruct (decide (id = id)); [exact He | congruence].
  - destruct (Heff x px) as (pt' & Hpt' & He).
    { simpl. rewrite list_lookup_insert_ne by congruence. exact Hpx. }
    exists pt'. split; [exact Hpt'|].
    simpl in *. destruct (decide (x = id)); [congruence | exact He].
Qed.

End StepEffect.

Section StepEffect2.

Lemma loop_effect (Q : periodic_time -> periodic_time -> Prop)
    (body : pt_id -> world -> option world) (m : hvm_timer_mode) :
  (forall pt, Q pt pt) ->
  (forall a b c, Q a b -> Q b c -> Q a c) ->
  (forall id w w', timer_mode w = m -> body id w = Some w' ->
                   heap_rel (fun _ => Q) w w' /\ timer_mode w' = timer_mode w) ->
  forall l w w', timer_mode w = m ->
                 list_for_each_entry body l w = Some w' ->
                 heap_rel (fun _ => Q) w w' /\ timer_mode w' = timer_mode w.
Proof.
  intros Hr Ht Hbody l w w' Hm H.
  destruct (heap_rel_loop (fun _ => Q) (fun _ => Hr) (fun _ => Ht)
              (fun w => timer_mode w = m) body) with (l := l) (w := w) (w' := w')
    as [Hrel Hm']; auto.
  - intros id w1 w2 H1 H2. destruct (Hbody id w1 w2 H1 H2) as [Ha Hb].
    split; [exact Ha | congruence].
  - split; [exact Hrel | congruence].
Qed.

Lemma pt_save_timer_effect v w w' :
  pt_save_timer v w = Some w' ->
  heap_rel (fun _ => keep) w w' /\ timer_mode w' = timer_mode w.
Proof.
  unfold pt_save_timer. intros H. bind_inv H as vc Hv.
  destruct (blocked vc).
  - injection H as <-. split; [|reflexivity].
    apply heap_rel_same; auto using keep_refl.
  - bind_inv H as w1 Hloop.
    destruct (loop_effect keep pt_save_timer_body (timer_mode w)
                keep_refl keep_trans) with (l := tm_list vc) (w := w) (w' := w1)
      as [Hrel Hm]; auto.
    { intros id wa wb _. apply pt_save_timer_body_effect. }
    destruct (pt_freeze_time_same v w1 w' H) as [Hh Hm'].
    split; [|congruence].
    intros id pt Hpt. rewrite Hh. exact (Hrel id pt Hpt).
Qed.

Lemma pt_restore_timer_effect v w w' :
  pt_restore_timer v w = Some w' ->
  heap_rel (fun _ => caught_up (timer_mode w)) w w' /\
  timer_mode w' = timer_mode w.
Proof.
  unfold pt_restore_timer. intros H. bind_inv H as vc Hv.
  bind_inv H as w1 Hloop.
  destruct (loop_effect (caught_up (timer_mode w)) pt_restore_timer_body
              (timer_mode w) (caught_up_refl _) (caught_up_trans _))
    with (l := tm_list vc) (w := w) (w' := w1) as [Hrel Hm]; auto.
  { intros id wa wb Hma Hb.
    destruct (pt_restore_timer_body_effect id wa wb Hb) as [Ha Hb'].
    rewrite Hma in Ha. auto. }
  destruct (pt_thaw_time_same v w1 w' H) as [Hh Hm'].
  split; [|congruence].
  intros id pt Hpt. rewrite Hh. exact (Hrel id pt Hpt).
Qed.

Lemma pt_reset_effect v w w' :
  pt_reset v w = Some w' ->
  heap_rel (fun _ => zeroed) w w' /\ timer_mode w' = timer_mode w.
Proof.
  unfold pt_reset. intros H. bind_inv H as vc Hv.
  apply (loop_effect zeroed pt_reset_body (timer_mode w)
           zeroed_refl zeroed_trans) with (l := tm_list vc); auto.
  intros id wa wb _. apply pt_reset_body_effect.
Qed.

Lemma pt_migrate_effect v w w' :
  pt_migrate v w = Some w' ->
  heap_rel (fun _ => keep) w w' /\ timer_mode w' = timer_mode w.
Proof.
  unfold pt_migrate. intros H. bind_inv H as vc Hv.
  apply (loop_effect keep (pt_migrate_body (processor vc)) (timer_mode w)
           keep_refl keep_trans) with (l := tm_list vc); auto.
  intros id wa wb _. apply pt_migrate_body_effect.
Qed.

(** The record the loop of the selector leaves with has a tick pending. *)
Lemma pt_update_irq_scan_pending (w : world) (id : pt_id) :
  forall l max_lag earliest_pt,
    pt_update_irq_scan w l max_lag earliest_pt = Some (Some id) ->
    earliest_pt = Some id \/
    exists pt, heap w !! id = Some pt /\ pending_intr_nr pt <> 0.
Proof.
  induction l as [|x l IH]; intros max_lag e H; simpl in H.
  - left. congruence.
  - bind_inv H as px Hpx. bind_inv H as m Hm.
    destruct (negb m && negb (pending_intr_nr px =? 0)
              && (lag_key px <? max_lag)) eqn:Htest.
    + destruct (IH _ _ H) as [[= ->] | Hex]; [|right; exact Hex].
      right. exists px. split; [exact Hpx|].
      apply andb_true_iff in Htest as [Htest _].
      apply andb_true_iff in Htest as [_ Hn].
      now apply negb_true_iff, Z.eqb_neq in Hn.
    + eauto.
Qed.

Lemma pt_update_irq_effect v w w' :
  pt_update_irq v w = Some w' ->
  heap_rel (effect (timer_mode w) (Op_update_irq v)) w w' /\
  timer_mode w' = timer_mode w.
Proof.
  unfold pt_update_irq. intros H. bind_inv H as vc Hv.
  bind_inv H as r Hscan. destruct r as [id|].
  - bind_inv H as pt Hpt.
    destruct (pt_update_irq_scan_pending w id _ _ _ Hscan)
      as [[=] | (pt0 & Hpt0 & Hn)].
    rewrite Hpt in Hpt0. injection Hpt0 as <-.
    assert (Hw' : heap w' = <[id := set_irq_issued true pt]> (heap w) /\
                  timer_mode w' = timer_mode w)
      by (destruct (source pt); injection H as <-; auto).
    destruct Hw' as [Hh Hm]. split; [|exact Hm].
    apply (heap_rel_store _ (fun _ pt => or_introl (keep_refl pt)) w w' id pt
             (set_irq_issued true pt)); [exact Hpt | | exact Hh].
    right. simpl. auto.
  - injection H as <-. split; [|reflexivity].
    apply heap_rel_same; [|reflexivity]. intros id pt. left. apply keep_refl.
Qed.

Lemma pt_intr_post_effect v intack w w' :
  pt_intr_post v intack w = Some w' ->
  heap_rel (effect (timer_mode w) (Op_intr_post v intack)) w w' /\
  timer_mode w' = timer_mode w.
Proof.
  unfold pt_intr_post. intros H. bind_inv H as r Hr. destruct r as [id|].
  - bind_inv H as pt Hpt. bind_inv H as vc Hv.
    assert (Hn : pending_intr_nr pt <> 0).
    { unfold is_pt_irq in Hr. rewrite Hv in Hr. simpl in Hr.
      apply is_pt_irq_scan_found in Hr as (_ & pt0 & Hpt0 & Hn & _).
      rewrite Hpt in Hpt0. now injection Hpt0 as <-. }
    repeat match type of H with
           | context [if ?c then _ else _] => destruct c; simpl in H
           | context [match cb ?p with _ => _ end] => destruct (cb p); simpl in H
           | mbind _ ?m = Some _ =>
               let vc1 := fresh "vc1" in
               destruct m as [vc1|]; simpl in H; [|discriminate H]
           end;
      injection H as <-; (split; [|reflexivity]);
      refine (heap_rel_store _ (fun _ pt => or_introl (keep_refl pt)) w _ id pt
                _ Hpt _ _);
      try (simpl; reflexivity); right; simpl; auto.
  - injection H as <-. split; [|reflexivity].
    apply heap_rel_same; [|reflexivity]. intros id pt. left. apply keep_refl.
Qed.

(** The effect of every step on every record. *)
Lemma step_effect (o : op) (w w' : world) :
  step o w = Some w' ->
  heap_rel (effect (timer_mode w) o) w w' /\ timer_mode w' = timer_mode w.
Proof.
  assert (Hvia : forall Q : periodic_time -> periodic_time -> Prop,
             (forall id a b, Q a b -> effect (timer_mode w) o id a b) ->
             heap_rel (fun _ => Q) w w' /\ timer_mode w' = timer_mode w ->
             heap_rel (effect (timer_mode w) o) w w' /\
             timer_mode w' = timer_mode w).
  { intros Q HQ [Hr Hm]. split; [|exact Hm].
    eapply heap_rel_mono; [|exact Hr]. exact HQ. }
  assert (Henv : heap w' = heap w -> heap_rel (fun _ => keep) w w').
  { intros Hh. apply heap_rel_same; [|exact Hh]. intros; apply keep_refl. }
  destruct o; simpl; intros H.
  - eapply create_periodic_time_effect; exact H.
  - apply (Hvia keep); [auto | eapply destroy_periodic_time_effect; exact H].
  - apply (Hvia keep); [auto | eapply pt_save_timer_effect; exact H].
  - apply (Hvia (caught_up (timer_mode w)));
      [auto | eapply pt_restore_timer_effect; exact H].
  - eapply pt_update_irq_effect; exact H.
  - eapply pt_intr_post_effect; exact H.
  - apply (Hvia zeroed); [auto | eapply pt_reset_effect; exact H].
  - apply (Hvia keep); [auto | eapply pt_migrate_effect; exact H].
  - eapply fire_timer_effect; exact H.
  - injection H as <-. apply (Hvia keep); auto.
  - injection H as <-. apply (Hvia keep); auto.
  - bind_inv H as vc Hv. injection H as <-. apply (Hvia keep); auto.
Qed.

End StepEffect2.

(** ** Pending ticks in [no_missed_ticks_pending] mode *)

Lemma u32_le z : 0 <= z -> 0 <= u32 z <= z.
Proof.
  intros H. unfold u32. split.
  - apply Z.mod_pos_bound. lia.
  - apply Z.mod_le; lia.
Qed.

Lemma expiries_nonneg id ops : 0 <= expiries id ops.
Proof.
  induction ops as [|o ops IH]; simpl; [lia|].
  destruct o; try exact IH. destruct (decide (id = id0)); lia.
Qed.

(** C2, as the specification states it, fails: in
    [no_missed_ticks_pending] mode two expiries without an acknowledgement
    between them leave two ticks pending. *)
Lemma no_missed_ticks_pending_two_pending :
  run Example_two.two_expiries (Example.boot no_missed_ticks_pending)
    = Some Example_two.two_world /\
  timer_mode Example_two.two_world = no_missed_ticks_pending /\
  heap Example_two.two_world !! 0%nat = Some Example_two.two_pt /\
  pending_intr_nr Example_two.two_pt = 2.
Proof. repeat split. Qed.

Lemma step_pending_bound (o : op) (w w1 : world) (id : pt_id)
    (pt : periodic_time) :
  timer_mode w = no_missed_ticks_pending -> step o w = Some w1 ->
  heap w !! id = Some pt -> 0 <= pending_intr_nr pt ->
  exists pt1, heap w1 !! id = Some pt1 /\
              0 <= pending_intr_nr pt1 <= pending_intr_nr pt + expiries id [o].
Proof.
  intros Hm Hstep Hpt Hp.
  destruct (step_effect o w w1 Hstep) as [Hrel _].
  destruct (Hrel id pt Hpt) as (pt1 & Hpt1 & He).
  exists pt1. split; [exact Hpt1|].
  rewrite Hm in He. unfold effect, keep, caught_up, zeroed in He.
  pose proof (u32_le (pending_intr_nr pt + 1)) as Hu1.
  pose proof (u32_range (pending_intr_nr pt - 1)) as Hr.
  unfold in_u32 in Hr.
  destruct o; simpl; try destruct (decide (id = id0));
    try destruct (decide (id = id1));
    try (destruct He as (? & ? & He); specialize (He eq_refl)); try lia.
  assert (Hu2 : pending_intr_nr pt <> 0 ->
                  u32 (pending_intr_nr pt - 1) <= pending_intr_nr pt - 1)
    by (intros; apply u32_le; lia).
  destruct He as [[? ?] | (Hn & ? & [? | [? | ?]])]; try specialize (Hu2 Hn);
    lia.
Qed.

(** C2, amended.  In [no_missed_ticks_pending] mode the missed-tick
    processor leaves [pending_intr_nr] alone, and so does
    [pt_restore_timer], for every record; and over any sequence of
    operations the [pending_intr_nr] of a record grows by at most one for
    each run of its expiry callback. *)
Theorem no_missed_ticks_pending_bound :
  (forall (w : world) (pt pt' : periodic_time),
     timer_mode w = no_missed_ticks_pending ->
     pt_process_missed_ticks w pt = Some pt' ->
     pending_intr_nr pt' = pending_intr_nr pt) /\
  (forall (v : vcpu_id) (w w' : world) (id : pt_id) (pt : periodic_time),
     timer_mode w = no_missed_ticks_pending ->
     pt_restore_timer v w = Some w' -> heap w !! id = Some pt ->
     exists pt', heap w' !! id = Some pt' /\
                 pending_intr_nr pt' = pending_intr_nr pt) /\
  (forall (ops : list op) (w w' : world) (id : pt_id)
          (pt pt' : periodic_time),
     timer_mode w = no_missed_ticks_pending -> run ops w = Some w' ->
     heap w !! id = Some pt -> 0 <= pending_intr_nr pt ->
     heap w' !! id = Some pt' ->
     0 <= pending_intr_nr pt' <= pending_intr_nr pt + expiries id ops).
Proof.
  split; [|split].
  - intros w pt pt' Hm H.
    apply pt_process_missed_ticks_effect in H. destruct H as (_ & _ & H).
    auto.
  - intros v w w' id pt Hm H Hpt.
    destruct (pt_restore_timer_effect v w w' H) as [Hrel _].
    destruct (Hrel id pt Hpt) as (pt' & Hpt' & _ & _ & He).
    exists pt'. split; [exact Hpt' | exact (He Hm)].
  - induction ops as [|o ops IH]; intros w w' id pt pt' Hm Hrun Hpt Hp Hpt'.
    + simpl in Hrun. injection Hrun as <-.
      rewrite Hpt in Hpt'. injection Hpt' as <-. simpl. lia.
    + simpl in Hrun. bind_inv Hrun as w1 Hstep.
      destruct (step_pending_bound o w w1 id pt Hm Hstep Hpt Hp)
        as (pt1 & Hpt1 & Hb).
      destruct (step_effect o w w1 Hstep) as [_ Hm1].
      assert (Hb' : 0 <= pending_intr_nr pt'
                    <= pending_intr_nr pt1 + expiries id ops).
      { apply (IH w1 w' id pt1 pt'); auto; [congruence | lia]. }
      assert (He : expiries id (o :: ops) = expiries id [o] + expiries id ops).
      { destruct o; simpl; lia. }
      lia.
Qed.

Lemma no_missed_ticks_pending_bound_witness :
  (exists pt',
     heap Example_more.two_restored_world !! 0%nat = Some pt' /\
     pending_intr_nr pt' = 2) /\
  0 <= pending_intr_nr Example_two.two_pt <= 2.
Proof.
  destruct no_missed_ticks_pending_bound as (_ & Hrestore & Hrun).
  split.
  - destruct (Hrestore 0%nat Example_more.two_late_world
                Example_more.two_restored_world 0%nat
                (set_pt_timer (stop_timer (pt_timer Example_two.two_pt))
                   Example_two.two_pt))
      as (pt' & Hpt' & Hp).
    + reflexivity.
    + vm_compute. reflexivity.
    + vm_compute. reflexivity.
    + exists pt'. split; [exact Hpt' | exact Hp].
  - apply (Hrun Example_two.two_expiries
             (Example.boot no_missed_ticks_pending) Example_two.two_world
             0%nat (Example.fresh PTSRC_isa) Example_two.two_pt).
    + reflexivity.
    + reflexivity.
    + reflexivity.
    + simpl. lia.
    + reflexivity.
Defined.

(** ** The issue flag and the tick counter *)

(** *** Steps that add ticks, in a state with room for them *)

Lemma ticks_due_late (w : world) (pt : periodic_time) :
  scheduled pt < NOW w -> ticks_due (NOW w) pt = spec_missed w pt.
Proof.
  intros Hlt. unfold ticks_due, spec_missed.
  destruct (Z.leb_spec (NOW w) (scheduled pt)); [lia | reflexivity].
Qed.

Lemma roomy_spec (now : Z) (pt : periodic_time) :
  roomy now pt = true <->
  one_shot pt = true \/
  (0 <= now /\ 0 <= scheduled pt < 2 ^ 63 /\ 0 < period pt /\
   now + period pt < 2 ^ 63 /\
   pending_intr_nr pt + ticks_due now pt < 2 ^ 32).
Proof.
  unfold roomy.
  rewrite orb_true_iff, !andb_true_iff, !Z.leb_le, !Z.ltb_lt. tauto.
Qed.

Lemma grows_refl (now : Z) (pt : periodic_time) : grows now pt pt.
Proof. unfold grows. auto with zarith. Qed.

Lemma grows_trans (now : Z) (a b c : periodic_time) :
  grows now a b -> grows now b c -> grows now a c.
Proof.
  unfold grows. intros (Hi1 & Hp1 & Hr1) (Hi2 & Hp2 & Hr2).
  split; [congruence|]. split; [|auto].
  intros Ha. specialize (Hp1 Ha). assert (0 <= pending_intr_nr b) by lia.
  specialize (Hp2 H). lia.
Qed.

(** The missed-tick processor on a record with room. *)
Lemma pt_process_missed_ticks_grows (w : world) (pt pt' : periodic_time) :
  roomy (NOW w) pt = true -> pt_process_missed_ticks w pt = Some pt' ->
  grows (NOW w) pt pt' /\ roomy (NOW w) pt' = true.
Proof.
  intros Hr H.
  assert (Hsame : pt' = pt -> grows (NOW w) pt pt' /\ roomy (NOW w) pt' = true)
    by (intros ->; split; [apply grows_refl | exact Hr]).
  destruct (one_shot pt) eqn:Hos.
  { rewrite (pt_process_missed_ticks_one_shot w pt Hos) in H.
    injection H as <-. now apply Hsame. }
  pose proof Hr as Hr0.
  apply roomy_spec in Hr0 as [Hc | (Hnow & Hs & Hp & Hnp & Hroom)];
    [congruence|].
  assert (Hd : in_s64 (NOW w - scheduled pt)) by (unfold in_s64; lia).
  destruct (Z.le_gt_cases (NOW w) (scheduled pt)) as [Hle|Hlt].
  { rewrite (pt_process_missed_ticks_early w pt Hd Hle) in H.
    injection H as <-. now apply Hsame. }
  assert (Hv : is_Some (pt_vcpu w pt)).
  { destruct (pt_vcpu w pt) as [u|] eqn:Hu; [eauto|]. exfalso.
    unfold pt_process_missed_ticks in H.
    rewrite Hos, (s64_id _ Hd) in H.
    destruct (Z.leb_spec (NOW w - scheduled pt) 0); [lia|].
    destruct (s64 (period pt) =? 0); [discriminate|].
    rewrite Hu in H. discriminate. }
  assert (Hpr : 0 < period pt < 2 ^ 63) by lia.
  rewrite (pt_process_missed_ticks_late w pt Hos Hd Hlt Hpr Hv) in H.
  pose proof (pt_process_missed_ticks_next_deadline w pt Hlt Hp) as Hnext.
  simpl in Hnext. fold (spec_missed w pt) in Hnext.
  rewrite (ticks_due_late w pt Hlt) in Hroom.
  assert (Hk : 0 < spec_missed w pt).
  { unfold spec_missed.
    pose proof (Z.div_pos (NOW w - scheduled pt) (period pt)). lia. }
  assert (Hs' : s64 (scheduled pt + spec_missed w pt * period pt)
                = scheduled pt + spec_missed w pt * period pt)
    by (apply s64_id; unfold in_s64; lia).
  rewrite Hs' in H. injection H as <-.
  pose proof (u32_range (pending_intr_nr pt + spec_missed w pt)) as Hu.
  unfold in_u32 in Hu.
  assert (Hr' : forall pt1,
             one_shot pt1 = one_shot pt -> period pt1 = period pt ->
             scheduled pt1 = scheduled pt + spec_missed w pt * period pt ->
             pending_intr_nr pt1 < 2 ^ 32 ->
             roomy (NOW w) pt1 = true).
  { intros pt1 E1 E2 E3 E4. apply roomy_spec. right.
    unfold ticks_due. rewrite E2, E3.
    destruct (Z.leb_spec (NOW w)
                (scheduled pt + spec_missed w pt * period pt)); lia. }
  destruct (mode_is w no_missed_ticks_pending); simpl.
  - split; [|apply Hr'; simpl; auto; lia].
    unfold grows. simpl. split; [reflexivity|]. split; [lia|].
    intros _. apply Hr'; simpl; auto; lia.
  - split; [|apply Hr'; simpl; auto; lia].
    unfold grows. simpl. split; [reflexivity|]. split.
    + intros H0. rewrite u32_id by (unfold in_u32; lia). lia.
    + intros _. apply Hr'; simpl; auto; lia.
Qed.

Lemma pt_restore_timer_loop_grows (now : Z) (l : list pt_id) :
  forall w w' : world,
    NOW w = now ->
    (forall x, x ∈ l ->
       exists p, heap w !! x = Some p /\ roomy now p = true) ->
    list_for_each_entry pt_restore_timer_body l w = Some w' ->
    heap_rel (fun _ => grows now) w w'.
Proof.
  induction l as [|x l IH]; intros w w' Hnow Hl H; simpl in H.
  - injection H as <-. apply heap_rel_same; [|reflexivity].
    intros _ p. apply grows_refl.
  - bind_inv H as w1 Hbody. unfold pt_restore_timer_body in Hbody.
    bind_inv Hbody as pt Hpt. bind_inv Hbody as pt1 Hpt1.
    injection Hbody as <-.
    destruct (Hl x) as (p & Hp & Hr); [left|].
    rewrite Hpt in Hp. injection Hp as <-. rewrite <- Hnow in Hr.
    destruct (pt_process_missed_ticks_grows w pt pt1 Hr Hpt1) as [Hg Hr1].
    rewrite Hnow in Hg, Hr1.
    set (pt2 := set_pt_timer (set_timer (pt_timer pt1) (scheduled pt1)) pt1)
      in *.
    assert (H1 : heap_rel (fun _ => grows now) w (store_pt x pt2 w)).
    { apply (heap_rel_store_pt _ (fun _ => grows_refl now) w x pt);
        [exact Hpt|].
      exact Hg. }
    eapply (heap_rel_trans _ (fun _ => grows_trans now)); [exact H1|].
    apply IH; [exact Hnow | | exact H].
    intros y Hy. destruct (Hl y) as (q & Hq & Hrq); [now right|].
    destruct (H1 y q Hq) as (q' & Hq' & _ & _ & Hrq'). eauto.
Qed.

Lemma pt_restore_timer_grows (v : vcpu_id) (w w' : world) :
  room (Op_restore v) w = true -> pt_restore_timer v w = Some w' ->
  heap_rel (fun _ => grows (NOW w)) w w'.
Proof.
  unfold room, pt_restore_timer. intros Hroom H.
  destruct (vcpus w !! v) as [vc|]; [simpl in H | discriminate].
  bind_inv H as w1 Hloop.
  destruct (pt_thaw_time_same v w1 w' H) as [Hh _].
  intros id pt Hpt. rewrite Hh.
  apply (pt_restore_timer_loop_grows (NOW w) (tm_list vc) w w1 eq_refl);
    [|exact Hloop | exact Hpt].
  intros x Hx. rewrite forallb_forall in Hroom.
  apply list_elem_of_In in Hx. specialize (Hroom x Hx).
  destruct (heap w !! x) as [p|]; [eauto | discriminate].
Qed.

Lemma fire_timer_grows (id : pt_id) (w w' : world) :
  room (Op_timer_fn id) w = true -> fire_timer id w = Some w' ->
  forall x px,
    heap w !! x = Some px ->
    exists px', heap w' !! x = Some px' /\
                irq_issued px' = irq_issued px /\
                (0 <= pending_intr_nr px ->
                 pending_intr_nr px <= pending_intr_nr px').
Proof.
  unfold room, fire_timer. intros Hroom H x px Hpx.
  destruct (heap w !! id) as [pt|] eqn:Hpt; [simpl in H | discriminate].
  apply andb_true_iff in Hroom as [Hone Hr]. apply Z.ltb_lt in Hone.
  destruct (armed (pt_timer pt) && (expires (pt_timer pt) <=? NOW w));
    [|discriminate].
  set (pt0 := set_pt_timer (stop_timer (pt_timer pt)) pt) in *.
  unfold pt_timer_fn in H.
  rewrite (heap_store_pt_eq w id pt pt0 Hpt) in H. simpl in H.
  bind_inv H as v Hv. bind_inv H as pt1 Hpt1. injection H as <-.
  assert (Hlt : (id < length (heap w))%nat) by (eapply lookup_lt_Some; eauto).
  simpl. destruct (decide (id = x)) as [<-|Hne].
  - rewrite list_lookup_insert_eq by (now rewrite length_insert).
    rewrite Hpt in Hpx. injection Hpx as <-.
    exists pt1. split; [reflexivity|].
    destruct (one_shot pt) eqn:Hos.
    + injection Hpt1 as <-. simpl. split; [reflexivity|].
      intros H0. rewrite u32_id by (unfold in_u32; lia). lia.
    + bind_inv Hpt1 as pt2 Hpt2. injection Hpt1 as <-.
      assert (Hr0 : roomy (NOW (store_pt id pt0 w))
                      (set_scheduled (s64 (scheduled pt + period pt))
                         (set_pending_intr_nr
                            (u32 (pending_intr_nr pt + 1)) pt0)) = true)
        by exact Hr.
      destruct (pt_process_missed_ticks_grows _ _ pt2 Hr0 Hpt2)
        as [(Hi & Hp & _) _].
      simpl in *. split; [exact Hi|].
      intros H0. rewrite u32_id in Hp by (unfold in_u32; lia). lia.
  - rewrite !list_lookup_insert_ne by exact Hne.
    exists px. split; [exact Hpx|]. split; [reflexivity | lia].
Qed.

Lemma step_issued_pending (o : op) (w w1 : world) (id : pt_id)
    (pt pt1 : periodic_time) :
  is_reset o = false -> room o w = true -> step o w = Some w1 ->
  heap w !! id = Some pt -> heap w1 !! id = Some pt1 ->
  0 <= pending_intr_nr pt -> issued_pending pt ->
  0 <= pending_intr_nr pt1 /\ issued_pending pt1.
Proof.
  intros Hnr Hroom Hstep Hpt Hpt1 Hp Hinv.
  destruct (step_effect o w w1 Hstep) as [Hrel _].
  destruct (Hrel id pt Hpt) as (pt1' & Hpt1' & He).
  rewrite Hpt1 in Hpt1'. injection Hpt1' as <-.
  assert (Hle : adds_ticks o = true ->
                pending_intr_nr pt <= pending_intr_nr pt1).
  { intros Ha. destruct o; try discriminate Ha; simpl in Hstep.
    - destruct (pt_restore_timer_grows v w w1 Hroom Hstep id pt Hpt)
        as (q & Hq & _ & Hg & _).
      rewrite Hpt1 in Hq. injection Hq as <-. auto.
    - destruct (fire_timer_grows id0 w w1 Hroom Hstep id pt Hpt)
        as (q & Hq & _ & Hg).
      rewrite Hpt1 in Hq. injection Hq as <-. auto. }
  pose proof (u32_range (pending_intr_nr pt - 1)) as Hr.
  unfold in_u32 in Hr.
  unfold issued_pending in *.
  unfold effect, keep, caught_up in He.
  destruct o; simpl in Hnr, Hle; try discriminate;
    try destruct (decide (id = id0)); try destruct (decide (id = id1)).
  all: try (destruct He as [Hp1 Hi1]; rewrite Hp1, Hi1; now split).
  - destruct He as (Hi & Hp1 & _). specialize (Hle eq_refl).
    rewrite Hi. split; [auto | intros Hx; specialize (Hinv Hx); lia].
  - destruct He as [[Hp1 Hi1] | (Hn & Hp1 & Hi1)].
    + rewrite Hp1, Hi1. now split.
    + rewrite Hp1. split; [lia | intros _; lia].
  - destruct He as [[Hp1 Hi1] | (Hn & Hi1 & Hp1)].
    + rewrite Hp1, Hi1. now split.
    + rewrite Hi1. split; [|discriminate].
      destruct Hp1 as [-> | [-> | ->]]; lia.
  - destruct He as (Hi & Hp1 & _). specialize (Hle eq_refl).
    rewrite Hi. split; [auto | intros Hx; specialize (Hinv Hx); lia].
Qed.

(** C1, as the specification states it, fails: after the line of a timer
    has been raised, [pt_reset] zeroes [pending_intr_nr] and leaves
    [irq_issued] set. *)
Lemma pt_reset_leaves_irq_issued :
  run (Example_ack.issued_ops ++ [Op_reset 0%nat])
      (Example.boot no_delay_for_missed_ticks)
    = Some Example_ack.reset_world /\
  heap Example_ack.reset_world !! 0%nat = Some Example_ack.reset_pt /\
  irq_issued Example_ack.reset_pt = true /\
  pending_intr_nr Example_ack.reset_pt = 0.
Proof. split; [vm_compute; reflexivity | repeat split]. Qed.

(** C1, amended.  Over any sequence of operations, expiries and changes
    of the environment without [pt_reset], in which every
    [pt_restore_timer] and every expiry starts in a state with [room] for
    the ticks it adds (times and period within the signed 64-bit range,
    the sum within the 32-bit counter), a record that starts with an
    unsigned counter and with [irq_issued] only if a tick is pending ends
    the same way. *)
Theorem issued_pending_preserved (ops : list op) :
  forall (w w' : world) (id : pt_id) (pt pt' : periodic_time),
    steady ops w = true -> run ops w = Some w' ->
    heap w !! id = Some pt -> heap w' !! id = Some pt' ->
    0 <= pending_intr_nr pt ->
    (irq_issued pt = true -> 1 <= pending_intr_nr pt) ->
    0 <= pending_intr_nr pt' /\
    (irq_issued pt' = true -> 1 <= pending_intr_nr pt').
Proof.
  induction ops as [|o ops IH]; intros w w' id pt pt' Hs Hrun Hpt Hpt' Hp Hinv.
  - simpl in Hrun. injection Hrun as <-.
    rewrite Hpt in Hpt'. injection Hpt' as <-. now split.
  - simpl in Hrun, Hs. bind_inv Hrun as w1 Hstep.
    apply andb_true_iff in Hs as [Hs0 Hs].
    apply andb_true_iff in Hs0 as [Hnr Hroom].
    apply negb_true_iff in Hnr.
    destruct (step_effect o w w1 Hstep) as [Hrel _].
    destruct (Hrel id pt Hpt) as (pt1 & Hpt1 & _).
    destruct (step_issued_pending o w w1 id pt pt1 Hnr Hroom Hstep)
      as [Hp1 Hinv1]; auto.
    apply (IH w1 w' id pt1 pt'); auto.
Qed.

Lemma issued_pending_preserved_witness :
  exists pt',
    heap Example_more.late_issued_world !! 0%nat = Some pt' /\
    0 <= pending_intr_nr pt' /\
    (irq_issued pt' = true -> 1 <= pending_intr_nr pt').
Proof.
  destruct (heap Example_more.late_issued_world !! 0%nat) as [pt'|] eqn:Hpt';
    [|vm_compute in Hpt'; discriminate].
  exists pt'. split; [reflexivity|].
  apply (issued_pending_preserved Example_more.late_issued_ops
           (Example.boot no_delay_for_missed_ticks)
           Example_more.late_issued_world 0%nat
           (Example.fresh PTSRC_isa) pt').
  - vm_compute. reflexivity.
  - vm_compute. reflexivity.
  - reflexivity.
  - exact Hpt'.
  - simpl. lia.
  - simpl. discriminate.
Defined.

(** ** Well-formedness is kept *)

Section WfStores.

Variable w : world.
Hypothesis Hwf : wf w.

Lemma wf_same (w' : world) :
  heap w' = heap w -> vcpus w' = vcpus w -> wf w'.
Proof.
  intros Hh Hv. destruct Hwf as [Hl Hu Hp].
  split; unfold linked; rewrite ?Hh, ?Hv; auto.
Qed.

(** Storing a record that has the linkage of the old one, or whose
    address is on no list. *)
Lemma wf_store_pt (id : pt_id) (pt pt' : periodic_time) :
  heap w !! id = Some pt ->
  (on_list pt' = on_list pt /\ vcpu pt' = vcpu pt) \/
  (forall v vc, vcpus w !! v = Some vc -> id ∉ tm_list vc) ->
  (forall v, vcpu pt' = Some v -> is_Some (vcpus w !! v)) ->
  0 <= pending_intr_nr pt' ->
  wf (store_pt id pt' w).
Proof.
  intros Hpt Hlink Hvalid Hpend. destruct Hwf as [Hl Hu Hp].
  assert (Hlt : (id < length (heap w))%nat) by (eapply lookup_lt_Some; eauto).
  split.
  - intros v vc x Hv Hx. simpl in Hv.
    destruct (Hl v vc x Hv Hx) as (px & Hpx & Hon & Hvc).
    unfold linked. simpl. destruct (decide (id = x)) as [<-|Hne].
    + rewrite list_lookup_insert_eq by exact Hlt.
      rewrite Hpt in Hpx. injection Hpx as <-.
      destruct Hlink as [[Ho Hv'] | Hnot].
      * exists pt'. rewrite Ho, Hv'. auto.
      * exfalso. exact (Hnot v vc Hv Hx).
    + rewrite list_lookup_insert_ne by exact Hne. eauto.
  - intros x px v Hpx Hv. simpl in *. destruct (decide (id = x)) as [<-|Hne].
    + rewrite list_lookup_insert_eq in Hpx by exact Hlt.
      injection Hpx as <-. auto.
    + rewrite list_lookup_insert_ne in Hpx by exact Hne. eauto.
  - intros x px Hpx. simpl in *. destruct (decide (id = x)) as [<-|Hne].
    + rewrite list_lookup_insert_eq in Hpx by exact Hlt.
      now injection Hpx as <-.
    + rewrite list_lookup_insert_ne in Hpx by exact Hne. eauto.
Qed.

(** Storing a vCPU whose list has lost addresses at most. *)
Lemma wf_store_vcpu (v : vcpu_id) (vc vc' : vcpu_state) :
  vcpus w !! v = Some vc ->
  (forall id, id ∈ tm_list vc' -> id ∈ tm_list vc) ->
  wf (store_vcpu v vc' w).
Proof.
  intros Hv Hsub. destruct Hwf as [Hl Hu Hp].
  assert (Hlt : (v < length (vcpus w))%nat) by (eapply lookup_lt_Some; eauto).
  assert (Hsome : forall u, is_Some (vcpus w !! u) ->
                            is_Some (<[v := vc']> (vcpus w) !! u)).
  { intros u Hu'. apply lookup_lt_is_Some. rewrite length_insert.
    now apply lookup_lt_is_Some. }
  split.
  - intros u uc x Hu' Hx. simpl in Hu'. unfold linked. simpl.
    destruct (decide (v = u)) as [<-|Hne].
    + rewrite list_lookup_insert_eq in Hu' by exact Hlt.
      injection Hu' as <-. apply (Hl v vc x Hv). auto.
    + rewrite list_lookup_insert_ne in Hu' by exact Hne. eapply Hl; eauto.
  - intros x px u Hpx Hu'. simpl in *. apply Hsome. eauto.
  - intros x px Hpx. simpl in *. eauto.
Qed.

Lemma wf_list_del (id : pt_id) : wf (list_del id w).
Proof.
  destruct Hwf as [Hl Hu Hp]. split.
  - intros v vc x Hv Hx. rewrite vcpus_list_del in Hv.
    destruct (vcpus w !! v) as [vc0|] eqn:Hv0; [|discriminate].
    injection Hv as <-. simpl in Hx.
    apply list_elem_of_filter in Hx as [_ Hx]. exact (Hl v vc0 x Hv0 Hx).
  - intros x px v Hpx Hv. rewrite vcpus_list_del.
    destruct (Hu x px v Hpx Hv) as [vc Hvc]. rewrite Hvc. eauto.
  - intros x px Hpx. exact (Hp x px Hpx).
Qed.

(** Linking a record that is marked and points to the vCPU. *)
Lemma wf_push (v : vcpu_id) (vc : vcpu_state) (id : pt_id)
    (pt : periodic_time) :
  vcpus w !! v = Some vc -> heap w !! id = Some pt ->
  on_list pt = true -> vcpu pt = Some v ->
  wf (store_vcpu v (set_tm_list (id :: tm_list vc) vc) w).
Proof.
  intros Hv Hpt Hon Hvc. destruct Hwf as [Hl Hu Hp].
  assert (Hlt : (v < length (vcpus w))%nat) by (eapply lookup_lt_Some; eauto).
  split.
  - intros u uc x Hu' Hx. simpl in Hu'. unfold linked. simpl.
    destruct (decide (v = u)) as [<-|Hne].
    + rewrite list_lookup_insert_eq in Hu' by exact Hlt.
      injection Hu' as <-. simpl in Hx.
      apply elem_of_cons in Hx as [-> | Hx]; [eauto|].
      exact (Hl v vc x Hv Hx).
    + rewrite list_lookup_insert_ne in Hu' by exact Hne. eapply Hl; eauto.
  - intros x px u Hpx Hu'. simpl in *.
    apply lookup_lt_is_Some. rewrite length_insert.
    apply lookup_lt_is_Some. eauto.
  - intros x px Hpx. simpl in *. eauto.
Qed.

End WfStores.

Section WfKept.

Lemma wf_loop (body : pt_id -> world -> option world) :
  (forall id w w', wf w -> body id w = Some w' -> wf w') ->
  forall l w w', wf w -> list_for_each_entry body l w = Some w' -> wf w'.
Proof.
  intros Hbody. induction l as [|x l IH]; intros w w' Hwf H; simpl in H.
  - now injection H as <-.
  - bind_inv H as w1 Hx. eauto.
Qed.

Lemma pt_process_missed_ticks_link (w : world) (pt pt' : periodic_time) :
  pt_process_missed_ticks w pt = Some pt' ->
  on_list pt' = on_list pt /\ vcpu pt' = vcpu pt.
Proof.
  unfold pt_process_missed_ticks. intros H.
  destruct (one_shot pt); [now injection H as <-|].
  destruct (s64 (NOW w - scheduled pt) <=? 0); [now injection H as <-|].
  destruct (s64 (period pt) =? 0); [discriminate|].
  bind_inv H as v Hv.
  destruct (mode_is w no_missed_ticks_pending); now injection H as <-.
Qed.

(** Storing a record whose linkage is the old one. *)
Lemma wf_update (w : world) (id : pt_id) (pt pt' : periodic_time) :
  wf w -> heap w !! id = Some pt ->
  on_list pt' = on_list pt -> vcpu pt' = vcpu pt ->
  0 <= pending_intr_nr pt' ->
  wf (store_pt id pt' w).
Proof.
  intros Hwf Hpt Hon Hvc Hp.
  apply (wf_store_pt w Hwf id pt pt'); auto.
  intros v Hv. rewrite Hvc in Hv. eapply wf_vcpu; eauto.
Qed.

Lemma wf_destroy id w w' :
  wf w -> destroy_periodic_time id w = Some w' -> wf w'.
Proof.
  intros Hwf H. unfold destroy_periodic_time in H. bind_inv H as pt Hpt.
  destruct (vcpu pt) as [v|] eqn:Hvc; [|now injection H as <-].
  bind_inv H as vc Hv. injection H as <-.
  destruct (on_list pt) eqn:Hon.
  - apply (wf_store_pt _ (wf_list_del w Hwf id) id pt).
    + exact Hpt.
    + right. intros u uc Hu. now apply (not_in_list_del w id u).
    + intros u Hu. rewrite vcpus_list_del.
      destruct (wf_vcpu w Hwf id pt u Hpt) as [uc Huc];
        [simpl in Hu; congruence|].
      rewrite Huc. simpl. eauto.
    + simpl. eapply wf_pending; eauto.
  - apply (wf_update w id pt); simpl; auto. eapply wf_pending; eauto.
Qed.

Lemma destroy_unlinks id w w' :
  wf w -> destroy_periodic_time id w = Some w' ->
  forall v vc, vcpus w' !! v = Some vc -> id ∉ tm_list vc.
Proof.
  intros Hwf H v vc Hv.
  destruct (heap w !! id) as [pt|] eqn:Hpt;
    [|unfold destroy_periodic_time in H; rewrite Hpt in H; discriminate].
  rewrite (destroy_periodic_time_eq w id pt Hwf Hpt) in H. injection H as <-.
  destruct (destroyed_spec w id pt Hwf Hpt) as (Hvs & _).
  assert (Hlen : is_Some (vcpus w !! v)).
  { destruct (vcpus w !! v) as [vc0|] eqn:Hv0; [eauto|].
    exfalso. unfold destroyed in Hv.
    destruct (vcpu pt); [destruct (on_list pt)|]; simpl in Hv;
      rewrite ?list_lookup_fmap, Hv0 in Hv; discriminate. }
  destruct Hlen as [vc0 Hv0]. rewrite (Hvs v vc0 Hv0) in Hv.
  injection Hv as <-. simpl. rewrite list_elem_of_filter. tauto.
Qed.

Lemma wf_create v id p i os f d w w' :
  wf w -> create_periodic_time v id p i os f d w = Some w' -> wf w'.
Proof.
  intros Hwf H. unfold create_periodic_time in H. cbv zeta in H.
  bind_inv H as w1 Hd. bind_inv H as vc Hv. bind_inv H as ptd Hptd.
  pose proof (wf_destroy id w w1 Hwf Hd) as Hwf1.
  pose proof (destroy_unlinks id w w1 Hwf Hd) as Hun.
  injection H as <-.
  set (W2 := if (u64 p <? 900000) && negb os
             then emit [gdprintk_small_period (u64 p)] w1 else w1).
  assert (HW2 : heap W2 = heap w1 /\ vcpus W2 = vcpus w1)
    by (subst W2; destruct ((u64 p <? 900000) && negb os); auto).
  destruct HW2 as [Hh2 Hv2].
  pose proof (wf_same w1 Hwf1 W2 Hh2 Hv2) as Hwf2.
  match goal with
  | |- wf (store_vcpu v _ (store_pt id ?PT W2)) => set (pt' := PT)
  end.
  assert (Hwf3 : wf (store_pt id pt' W2)).
  { apply (wf_store_pt W2 Hwf2 id ptd pt'); [now rewrite Hh2| | |simpl; lia].
    - right. rewrite Hv2. exact Hun.
    - intros u [= <-]. rewrite Hv2, Hv. eauto. }
  apply (wf_push _ Hwf3 v vc id pt'); simpl; auto.
  - now rewrite Hv2.
  - rewrite Hh2. apply list_lookup_insert_eq. eapply lookup_lt_Some; eauto.
Qed.

Lemma wf_save v w w' : wf w -> pt_save_timer v w = Some w' -> wf w'.
Proof.
  intros Hwf H. unfold pt_save_timer in H. bind_inv H as vc Hv.
  destruct (blocked vc); [now injection H as <-|].
  bind_inv H as w1 Hloop.
  assert (Hwf1 : wf w1).
  { apply (wf_loop pt_save_timer_body) with (l := tm_list vc) (w := w); auto.
    intros id wa wb Hwa Hb. unfold pt_save_timer_body in Hb.
    bind_inv Hb as pt Hpt.
    destruct (do_not_freeze pt); injection Hb as <-; [exact Hwa|].
    apply (wf_update wa id pt); auto. simpl. eapply wf_pending; eauto. }
  unfold pt_freeze_time in H. bind_inv H as vc1 Hv1.
  destruct (negb (mode_is w1 delay_for_missed_ticks));
    injection H as <-; [exact Hwf1|].
  apply (wf_store_vcpu w1 Hwf1 v vc1); auto.
Qed.

Lemma wf_restore v w w' : wf w -> pt_restore_timer v w = Some w' -> wf w'.
Proof.
  intros Hwf H. unfold pt_restore_timer in H. bind_inv H as vc Hv.
  bind_inv H as w1 Hloop.
  assert (Hwf1 : wf w1).
  { apply (wf_loop pt_restore_timer_body) with (l := tm_list vc) (w := w); auto.
    intros id wa wb Hwa Hb. unfold pt_restore_timer_body in Hb.
    bind_inv Hb as pt Hpt. bind_inv Hb as pt1 Hpt1. injection Hb as <-.
    destruct (pt_process_missed_ticks_link wa pt pt1 Hpt1) as [Hon Hvc].
    destruct (pt_process_missed_ticks_effect wa pt pt1 Hpt1) as (_ & Hp & _).
    apply (wf_update wa id pt); auto. simpl. apply Hp.
    eapply wf_pending; eauto. }
  unfold pt_thaw_time in H. bind_inv H as vc1 Hv1.
  destruct (negb (mode_is w1 delay_for_missed_ticks));
    [now injection H as <-|].
  destruct (guest_time vc1 =? 0); injection H as <-; [exact Hwf1|].
  apply (wf_store_vcpu w1 Hwf1 v vc1); auto.
Qed.

Lemma wf_reset v w w' : wf w -> pt_reset v w = Some w' -> wf w'.
Proof.
  intros Hwf H. unfold pt_reset in H. bind_inv H as vc Hv.
  apply (wf_loop pt_reset_body) with (l := tm_list vc) (w := w); auto.
  intros id wa wb Hwa Hb. unfold pt_reset_body in Hb.
  bind_inv Hb as pt Hpt. bind_inv Hb as u Hu. bind_inv Hb as uc Huc.
  injection Hb as <-. apply (wf_update wa id pt); simpl; auto. lia.
Qed.

Lemma wf_migrate v w w' : wf w -> pt_migrate v w = Some w' -> wf w'.
Proof.
  intros Hwf H. unfold pt_migrate in H. bind_inv H as vc Hv.
  apply (wf_loop (pt_migrate_body (processor vc)))
    with (l := tm_list vc) (w := w); auto.
  intros id wa wb Hwa Hb. unfold pt_migrate_body in Hb.
  bind_inv Hb as pt Hpt. injection Hb as <-.
  apply (wf_update wa id pt); simpl; auto. eapply wf_pending; eauto.
Qed.

Lemma wf_timer_fn id w w' : wf w -> pt_timer_fn id w = Some w' -> wf w'.
Proof.
  intros Hwf H. unfold pt_timer_fn in H.
  bind_inv H as pt Hpt. bind_inv H as v Hv. bind_inv H as pt1 Hpt1.
  injection H as <-.
  apply (wf_same (store_pt id pt1 w)); [|reflexivity|reflexivity].
  pose proof (u32_range (pending_intr_nr pt + 1)) as Hr. unfold in_u32 in Hr.
  simpl in Hpt1. destruct (one_shot pt).
  - injection Hpt1 as <-. apply (wf_update w id pt); simpl; auto. lia.
  - bind_inv Hpt1 as pt2 Hpt2. injection Hpt1 as <-.
    destruct (pt_process_missed_ticks_link _ _ _ Hpt2) as [Hon Hvc].
    destruct (pt_process_missed_ticks_effect _ _ _ Hpt2) as (_ & Hp & _).
    simpl in *. apply (wf_update w id pt); simpl; auto. apply Hp. lia.
Qed.

Lemma wf_fire_timer id w w' : wf w -> fire_timer id w = Some w' -> wf w'.
Proof.
  intros Hwf H. unfold fire_timer in H. bind_inv H as pt Hpt.
  destruct (armed (pt_timer pt) && (expires (pt_timer pt) <=? NOW w));
    [|discriminate].
  apply wf_timer_fn in H; [exact H|].
  apply (wf_update w id pt); simpl; auto. eapply wf_pending; eauto.
Qed.

Lemma wf_update_irq v w w' : wf w -> pt_update_irq v w = Some w' -> wf w'.
Proof.
  intros Hwf H. unfold pt_update_irq in H. bind_inv H as vc Hv.
  bind_inv H as r Hscan. destruct r as [id|]; [|now injection H as <-].
  bind_inv H as pt Hpt.
  assert (Hwf1 : wf (store_pt id (set_irq_issued true pt) w)).
  { apply (wf_update w id pt); simpl; auto. eapply wf_pending; eauto. }
  destruct (source pt); injection H as <-;
    apply (wf_same _ Hwf1); reflexivity.
Qed.

End WfKept.

Section WfAck.

Local Arguments store_pt : simpl never.
Local Arguments store_vcpu : simpl never.
Local Arguments emit : simpl never.
Local Arguments list_del : simpl never.

Lemma wf_intr_post v intack w w' :
  wf w -> pt_intr_post v intack w = Some w' -> wf w'.
Proof.
  intros Hwf H. unfold pt_intr_post in H. bind_inv H as r Hr.
  destruct r as [id|]; [|now injection H as <-].
  bind_inv H as pt Hpt. bind_inv H as vc Hv.
  pose proof (wf_pending w Hwf id pt Hpt) as Hp.
  pose proof (u32_range (pending_intr_nr pt - 1)) as Hr32.
  unfold in_u32 in Hr32.
  assert (Hvalid : forall u, vcpu pt = Some u -> is_Some (vcpus w !! u))
    by (intros u; apply (wf_vcpu w Hwf id pt u Hpt)).
  assert (Hunlink : forall pt', vcpu pt' = vcpu pt ->
                                0 <= pending_intr_nr pt' ->
                                wf (store_pt id pt' (list_del id w))).
  { intros pt' Hvc' Hp'.
    apply (wf_store_pt _ (wf_list_del w Hwf id) id pt).
    - exact Hpt.
    - right. intros u uc Hu. now apply (not_in_list_del w id u).
    - intros u Hu. rewrite vcpus_list_del.
      destruct (Hvalid u) as [uc Huc]; [congruence|].
      rewrite Huc. simpl. eauto.
    - exact Hp'. }
  assert (Hstay : forall pt', on_list pt' = on_list pt ->
                              vcpu pt' = vcpu pt ->
                              0 <= pending_intr_nr pt' ->
                              wf (store_pt id pt' w)).
  { intros pt' Hon' Hvc' Hp'. now apply (wf_update w id pt). }
  assert (Htail : forall (w1 w2 : world) (c : bool) (g : Z) (vc1 : vcpu_state),
             wf w1 -> vcpus w1 !! v = Some vc1 ->
             (if c then store_vcpu v (hvm_set_guest_time w1 vc1 g) w1 else w1)
               = w2 -> wf w2).
  { intros w1 w2 c g vc1 Hwf1 Hv1 <-. destruct c; [|exact Hwf1].
    apply (wf_store_vcpu w1 Hwf1 v vc1); auto. }
  assert (Hemit : forall (w1 : world) (es : list event),
             wf w1 -> wf (emit es w1)).
  { intros w1 es Hwf1. now apply (wf_same w1 Hwf1). }
  destruct (one_shot pt) eqn:Hos;
    [destruct (on_list pt) eqn:Hon
    |destruct (mode_is w one_missed_tick_pending)];
    simpl in H; bind_inv H as vc1 Hv1;
    destruct (cb pt); injection H as <-; try apply Hemit;
    (eapply Htail; cycle 2; [reflexivity| |exact Hv1]);
    first [apply Hunlink | apply Hstay]; simpl; auto; lia.
Qed.

End WfAck.

Section WfRun.

(** Every step keeps the state well-formed, and so does every sequence. *)
Lemma wf_step (o : op) (w w' : world) : wf w -> step o w = Some w' -> wf w'.
Proof.
  intros Hwf. destruct o; simpl; intros H.
  - eapply wf_create; eauto.
  - eapply wf_destroy; eauto.
  - eapply wf_save; eauto.
  - eapply wf_restore; eauto.
  - eapply wf_update_irq; eauto.
  - eapply wf_intr_post; eauto.
  - eapply wf_reset; eauto.
  - eapply wf_migrate; eauto.
  - eapply wf_fire_timer; eauto.
  - injection H as <-. now apply (wf_same w Hwf).
  - injection H as <-. now apply (wf_same w Hwf).
  - bind_inv H as vc Hv. injection H as <-.
    apply (wf_store_vcpu w Hwf v vc); auto.
Qed.

Lemma wf_run (ops : list op) :
  forall w w', wf w -> run ops w = Some w' -> wf w'.
Proof.
  induction ops as [|o ops IH]; intros w w' Hwf H; simpl in H.
  - now injection H as <-.
  - bind_inv H as w1 Hstep. eauto using wf_step.
Qed.

Lemma wf_boot (m : hvm_timer_mode) : wf (Example.boot m).
Proof. apply wfb_wf. reflexivity. Qed.

End WfRun.

(** ** Destruction *)

Section Destroy.

Lemma set_heap_id (w : world) : set_heap (heap w) w = w.
Proof. now destruct w. Qed.

Lemma store_pt_same (w : world) (id : pt_id) (pt : periodic_time) :
  heap w !! id = Some pt -> store_pt id pt w = w.
Proof.
  intros H. unfold store_pt. rewrite list_insert_id by exact H.
  apply set_heap_id.
Qed.

Lemma is_Some_vcpus_list_del (w : world) (id : pt_id) (v : vcpu_id) :
  is_Some (vcpus w !! v) -> is_Some (vcpus (list_del id w) !! v).
Proof. intros [vc Hv]. rewrite vcpus_list_del, Hv. simpl. eauto. Qed.

(** X1.  Destroying a record twice is destroying it once: the second
    [destroy_periodic_time] returns the state it was given. *)
Theorem destroy_periodic_time_idempotent (id : pt_id) (w w1 : world) :
  destroy_periodic_time id w = Some w1 ->
  destroy_periodic_time id w1 = Some w1.
Proof.
  intros H. unfold destroy_periodic_time in H. bind_inv H as pt Hpt.
  destruct (vcpu pt) as [v|] eqn:Hvc.
  - bind_inv H as vc Hv. injection H as <-.
    set (W := if on_list pt then list_del id w else w).
    assert (HW : heap W = heap w /\ is_Some (vcpus W !! v)).
    { subst W. destruct (on_list pt); split; eauto.
      apply is_Some_vcpus_list_del. eauto. }
    destruct HW as [Hh [vc' Hv']].
    assert (Hk : heap (store_pt id (killed pt) W) !! id = Some (killed pt)).
    { apply (heap_store_pt_eq W id pt). now rewrite Hh. }
    fold (killed pt). unfold destroy_periodic_time.
    rewrite Hk. simpl. rewrite Hvc. simpl.
    change (vcpus (store_pt id (killed pt) W)) with (vcpus W).
    rewrite Hv'. simpl. f_equal.
    change (set_pt_timer (kill_timer (pt_timer (killed pt)))
              (set_on_list false (killed pt))) with (killed pt).
    now apply store_pt_same.
  - injection H as <-. unfold destroy_periodic_time.
    rewrite Hpt. simpl. now rewrite Hvc.
Qed.

Lemma destroy_periodic_time_idempotent_witness :
  exists w1,
    destroy_periodic_time 0%nat
      (Example_ack.issued_world no_delay_for_missed_ticks) = Some w1 /\
    destroy_periodic_time 0%nat w1 = Some w1.
Proof.
  eexists. split; [reflexivity|].
  apply (destroy_periodic_time_idempotent 0%nat
           (Example_ack.issued_world no_delay_for_missed_ticks)).
  reflexivity.
Defined.

(** X2.  On a well-formed state, [destroy_periodic_time] of a record that
    has been created returns; the record is marked off the list and its
    timer is not armed, with every other field as it was; its address is
    on no list and the lists have lost nothing else; every other record
    and the trace are as they were; and the expiry callback of the record
    cannot run any more. *)
Theorem destroy_periodic_time_unlinks (w : world) (id : pt_id)
    (pt : periodic_time) (u : vcpu_id) :
  wf w -> heap w !! id = Some pt -> vcpu pt = Some u ->
  exists w',
    destroy_periodic_time id w = Some w' /\
    heap w' !! id
    = Some (mk_pt false (one_shot pt) (do_not_freeze pt) (irq_issued pt)
              (source pt) (irq pt) (vcpu pt) (pending_intr_nr pt)
              (period pt) (period_cycles pt) (scheduled pt)
              (last_plt_gtime pt)
              (mk_timer false (expires (pt_timer pt)) (cpu (pt_timer pt)))
              (cb pt) (priv pt)) /\
    (forall id', id' <> id -> heap w' !! id' = heap w !! id') /\
    (forall v vc, vcpus w !! v = Some vc ->
       vcpus w' !! v
       = Some (set_tm_list (filter (fun x => x <> id) (tm_list vc)) vc)) /\
    (forall v vc, vcpus w' !! v = Some vc -> id ∉ tm_list vc) /\
    trace w' = trace w /\
    fire_timer id w' = None.
Proof.
  intros Hwf Hpt Hu.
  pose proof (destroy_periodic_time_eq w id pt Hwf Hpt) as Hrun.
  destruct (destroyed_spec w id pt Hwf Hpt) as (Hvs & _ & _ & _ & _ & Htr).
  exists (destroyed id pt w). split; [exact Hrun|].
  assert (Hrec : heap (destroyed id pt w) !! id = Some (killed pt)).
  { unfold destroyed. rewrite Hu. destruct (on_list pt).
    - apply (heap_store_pt_eq (list_del id w) id pt). exact Hpt.
    - apply (heap_store_pt_eq w id pt). exact Hpt. }
  split; [exact Hrec|].
  split.
  { intros id' Hne. unfold destroyed. rewrite Hu.
    destruct (on_list pt); simpl; apply list_lookup_insert_ne; congruence. }
  split; [exact Hvs|].
  split; [eapply destroy_unlinks; eauto|].
  split; [exact Htr|].
  unfold fire_timer. rewrite Hrec. reflexivity.
Qed.

Lemma destroy_periodic_time_unlinks_witness :
  exists w',
    destroy_periodic_time 0%nat
      (Example_ack.issued_world no_delay_for_missed_ticks) = Some w' /\
    tm_list <$> vcpus w' !! 0%nat = Some [] /\
    fire_timer 0%nat w' = None.
Proof.
  destruct (destroy_periodic_time_unlinks
              (Example_ack.issued_world no_delay_for_missed_ticks) 0%nat
              Example_ack.issued_pt 0%nat)
    as (w' & Hrun & _ & _ & Hvs & _ & _ & Hfire).
  - apply wfb_wf. reflexivity.
  - reflexivity.
  - reflexivity.
  - exists w'. split; [exact Hrun|]. split; [|exact Hfire].
    rewrite (Hvs 0%nat (mk_vcpu [0%nat] 0 0 0%nat false)) by reflexivity.
    reflexivity.
Defined.

End Destroy.

(** ** Lines and vectors of the ISA source *)

Section Pins.

Lemma land_bit (a n : Z) :
  0 <= n -> (Z.land a (Z.shiftl 1 n) =? 0) = negb (Z.testbit a n).
Proof.
  intros Hn. rewrite Z.shiftl_1_l.
  destruct (Z.testbit a n) eqn:Hb; simpl.
  - apply Z.eqb_neq. intros H0.
    assert (Hc : Z.testbit (Z.land a (2 ^ n)) n = true)
      by (rewrite Z.land_spec, Hb, Z.pow2_bits_true; auto).
    rewrite H0, Z.bits_0 in Hc. discriminate.
  - apply Z.eqb_eq. apply Z.bits_inj'. intros k Hk.
    rewrite Z.land_spec, Z.bits_0, Z.pow2_bits_eqb by exact Hn.
    destruct (Z.eqb_spec n k) as [<-|]; [now rewrite Hb|].
    apply andb_false_r.
Qed.

Lemma land_7 (a : Z) : Z.land a 7 = a mod 8.
Proof. change 7 with (Z.ones 3). now rewrite Z.land_ones. Qed.

Lemma shiftr_3 (a : Z) : Z.shiftr a 3 = a / 8.
Proof. now rewrite Z.shiftr_div_pow2. Qed.

(** X3.  For a record whose vCPU pointer is valid, the line of an ISA
    record is masked when bit [irq mod 8] of the mask register of PIC
    [irq / 8] is set, or the vCPU's LAPIC takes no PIC interrupts, and in
    both cases its I/O APIC entry is masked too; the line of a LAPIC
    record is masked when the LAPIC is disabled or bit 16 of its timer
    entry is set.  The PIC vector of an ISA record is the base of PIC
    [irq / 8] plus [irq mod 8]. *)
Theorem isa_irq_pic_pin (w : world) (pt : periodic_time) (v : vcpu_id) :
  pt_vcpu w pt = Some v ->
  pt_irq_masked w pt
  = Some (match source pt with
          | PTSRC_lapic =>
              negb (vlapic_enabled (intc w) v)
              || Z.testbit (vlapic_lvtt (intc w) v) 16
          | PTSRC_isa =>
              (Z.testbit (vpic_imr (intc w) (irq pt / 8)) (irq pt mod 8)
               || negb (vlapic_accept_pic_intr (intc w) v))
              && vioapic_mask (intc w) (hvm_isa_irq_to_gsi (intc w) (irq pt))
          end) /\
  (source pt = PTSRC_isa ->
   pt_irq_vector w pt hvm_intsrc_pic
   = Some (vpic_irq_base (intc w) (irq pt / 8) + irq pt mod 8)).
Proof.
  intros Hv. split.
  - unfold pt_irq_masked. rewrite Hv. simpl. destruct (source pt).
    + rewrite land_7, shiftr_3, land_bit, negb_involutive; [reflexivity|].
      apply Z.mod_pos_bound. lia.
    + unfold APIC_LVT_MASKED. rewrite land_bit, negb_involutive by lia.
      reflexivity.
  - intros Hs. unfold pt_irq_vector. rewrite Hs, Hv. simpl.
    now rewrite land_7, shiftr_3.
Qed.

Lemma isa_irq_pic_pin_witness :
  pt_irq_vector (Example_ack.issued_world no_delay_for_missed_ticks)
    Example_ack.issued_pt hvm_intsrc_pic = Some 32.
Proof.
  apply (proj2 (isa_irq_pic_pin
                  (Example_ack.issued_world no_delay_for_missed_ticks)
                  Example_ack.issued_pt 0%nat eq_refl)).
  reflexivity.
Defined.

End Pins.

(** ** The record an acknowledgement belongs to *)

Section FirstMatch.

Variable w : world.
Variable intack : hvm_intack.

(** What [is_pt_irq] tests of a record. *)
Lemma is_pt_irq_scan_first (l : list pt_id) (id : pt_id) :
  is_pt_irq_scan w l intack = Some (Some id) ->
  exists i pt,
    l !! i = Some id /\ heap w !! id = Some pt /\
    pending_intr_nr pt <> 0 /\ irq_issued pt = true /\
    pt_irq_vector w pt (intack_source intack) = Some (intack_vector intack) /\
    forall j id' pt',
      (j < i)%nat -> l !! j = Some id' -> heap w !! id' = Some pt' ->
      ~ (pending_intr_nr pt' <> 0 /\ irq_issued pt' = true /\
         pt_irq_vector w pt' (intack_source intack)
           = Some (intack_vector intack)).
Proof.
  induction l as [|x l IH]; simpl; [discriminate|].
  intros H. bind_inv H as px Hpx.
  assert (Hrest : is_pt_irq_scan w l intack = Some (Some id) ->
                  ~ (pending_intr_nr px <> 0 /\ irq_issued px = true /\
                     pt_irq_vector w px (intack_source intack)
                       = Some (intack_vector intack)) ->
                  exists i pt,
                    (x :: l) !! i = Some id /\ heap w !! id = Some pt /\
                    pending_intr_nr pt <> 0 /\ irq_issued pt = true /\
                    pt_irq_vector w pt (intack_source intack)
                      = Some (intack_vector intack) /\
                    forall j id' pt',
                      (j < i)%nat -> (x :: l) !! j = Some id' ->
                      heap w !! id' = Some pt' ->
                      ~ (pending_intr_nr pt' <> 0 /\ irq_issued pt' = true /\
                         pt_irq_vector w pt' (intack_source intack)
                           = Some (intack_vector intack))).
  { intros Hl Hno.
    destruct (IH Hl) as (i & pt & Hi & Hpt & Hn & Hiss & Hvec & Hbefore).
    exists (S i), pt. repeat (split; [assumption|]).
    intros j id' pt' Hj Hid' Hpt'. destruct j as [|j]; simpl in Hid'.
    - injection Hid' as <-. rewrite Hpx in Hpt'. now injection Hpt' as <-.
    - apply (Hbefore j id' pt'); auto. lia. }
  destruct (negb (pending_intr_nr px =? 0) && irq_issued px) eqn:Htest.
  - apply andb_true_iff in Htest as [Hn Hi].
    apply negb_true_iff, Z.eqb_neq in Hn.
    bind_inv H as vec Hvec.
    destruct (Z.eqb_spec (intack_vector intack) vec) as [Heq|Hne].
    + injection H as <-. exists 0%nat, px.
      rewrite Heq. repeat (split; [auto; fail|]).
      intros j id' pt' Hj. lia.
    + apply Hrest; [exact H|]. intros (_ & _ & Hv'). congruence.
  - apply Hrest; [exact H|]. intros (Hn & Hi & _).
    apply andb_false_iff in Htest as [Ht|Ht].
    + apply negb_false_iff, Z.eqb_eq in Ht. contradiction.
    + congruence.
Qed.

End FirstMatch.

(** X4.  The record [is_pt_irq] returns is the first one of the vCPU's
    list that has a tick pending, its line raised and the acknowledged
    vector: no record before it in the list has all three. *)
Theorem is_pt_irq_first (w : world) (v : vcpu_id) (vc : vcpu_state)
    (intack : hvm_intack) (id : pt_id) :
  vcpus w !! v = Some vc ->
  is_pt_irq w v intack = Some (Some id) ->
  exists i pt,
    tm_list vc !! i = Some id /\ heap w !! id = Some pt /\
    pending_intr_nr pt <> 0 /\ irq_issued pt = true /\
    pt_irq_vector w pt (intack_source intack) = Some (intack_vector intack) /\
    forall j id' pt',
      (j < i)%nat -> tm_list vc !! j = Some id' -> heap w !! id' = Some pt' ->
      ~ (pending_intr_nr pt' <> 0 /\ irq_issued pt' = true /\
         pt_irq_vector w pt' (intack_source intack)
           = Some (intack_vector intack)).
Proof.
  intros Hv H. unfold is_pt_irq in H. rewrite Hv in H. simpl in H.
  now apply is_pt_irq_scan_first.
Qed.

(** ** Catching up *)

Section CatchUp.

Lemma u32_add_u32 (a b : Z) : u32 (u32 a + b) = u32 (a + b).
Proof. unfold u32. now rewrite Z.add_mod_idemp_l by lia. Qed.

Lemma mode_is_false (w : world) (m : hvm_timer_mode) :
  mode_is w m = false <-> timer_mode w <> m.
Proof.
  rewrite <- (mode_is_true w m). destruct (mode_is w m); split; congruence.
Qed.

(** The missed-tick processor on a periodic record, with the times and
    the period in the range a host reaches. *)
Lemma pt_process_missed_ticks_grid (w : world) (pt : periodic_time) :
  one_shot pt = false ->
  0 <= NOW w -> 0 <= scheduled pt < 2 ^ 63 ->
  0 < period pt -> NOW w + period pt < 2 ^ 63 ->
  is_Some (pt_vcpu w pt) ->
  exists pt' k,
    pt_process_missed_ticks w pt = Some pt' /\
    0 <= k /\ (k = 0 <-> NOW w <= scheduled pt) /\
    scheduled pt' = scheduled pt + k * period pt /\
    NOW w <= scheduled pt' /\
    (scheduled pt < NOW w -> NOW w < scheduled pt' <= NOW w + period pt) /\
    (timer_mode w = no_missed_ticks_pending ->
     pending_intr_nr pt' = pending_intr_nr pt) /\
    (timer_mode w <> no_missed_ticks_pending -> 0 < k ->
     pending_intr_nr pt' = u32 (pending_intr_nr pt + k)) /\
    (k = 0 -> pt' = pt) /\
    on_list pt' = on_list pt /\ irq_issued pt' = irq_issued pt /\
    pt_timer pt' = pt_timer pt /\ period pt' = period pt /\
    one_shot pt' = one_shot pt /\ vcpu pt' = vcpu pt.
Proof.
  intros Hos Hnow Hs Hp Hnp Hv.
  assert (Hd : in_s64 (NOW w - scheduled pt)) by (unfold in_s64; lia).
  destruct (Z.le_gt_cases (NOW w) (scheduled pt)) as [Hle|Hlt].
  - exists pt, 0.
    rewrite (pt_process_missed_ticks_early w pt Hd Hle).
    repeat split; auto; try lia.
  - assert (Hpr : 0 < period pt < 2 ^ 63) by lia.
    rewrite (pt_process_missed_ticks_late w pt Hos Hd Hlt Hpr Hv).
    pose proof (pt_process_missed_ticks_next_deadline w pt Hlt Hp) as Hnext.
    simpl in Hnext. fold (spec_missed w pt) in Hnext.
    assert (Hk : 0 < spec_missed w pt).
    { unfold spec_missed.
      pose proof (Z.div_pos (NOW w - scheduled pt) (period pt)). lia. }
    assert (Hs' : s64 (scheduled pt + spec_missed w pt * period pt)
                  = scheduled pt + spec_missed w pt * period pt)
      by (apply s64_id; unfold in_s64; lia).
    eexists _, (spec_missed w pt). split; [reflexivity|].
    destruct (mode_is w no_missed_ticks_pending) eqn:Hm; simpl;
      rewrite Hs'.
    + apply mode_is_true in Hm.
      repeat split; auto; try lia; congruence.
    + apply mode_is_false in Hm.
      repeat split; auto; try lia; congruence.
Qed.

End CatchUp.

(** X5.  The missed-tick processor moves the deadline of a periodic
    record along its grid, by [k] whole periods; [k] is zero exactly when
    the deadline has not passed, and then the record is left alone;
    otherwise the new deadline is the first grid point after [now].
    Outside [no_missed_ticks_pending] mode the same [k] is added to the
    32-bit [pending_intr_nr]; in that mode the counter stays. *)
Theorem pt_process_missed_ticks_catches_up (w : world) (pt : periodic_time) :
  one_shot pt = false ->
  0 <= NOW w -> 0 <= scheduled pt < 2 ^ 63 ->
  0 < period pt -> NOW w + period pt < 2 ^ 63 ->
  is_Some (pt_vcpu w pt) ->
  exists pt' k,
    pt_process_missed_ticks w pt = Some pt' /\
    0 <= k /\ (k = 0 <-> NOW w <= scheduled pt) /\
    scheduled pt' = scheduled pt + k * period pt /\
    NOW w <= scheduled pt' /\
    (scheduled pt < NOW w -> NOW w < scheduled pt' <= NOW w + period pt) /\
    (timer_mode w = no_missed_ticks_pending ->
     pending_intr_nr pt' = pending_intr_nr pt) /\
    (timer_mode w <> no_missed_ticks_pending -> 0 < k ->
     pending_intr_nr pt' = u32 (pending_intr_nr pt + k)) /\
    (k = 0 -> pt' = pt).
Proof.
  intros Hos Hnow Hs Hp Hnp Hv.
  destruct (pt_process_missed_ticks_grid w pt Hos Hnow Hs Hp Hnp Hv)
    as (pt' & k & H1 & H2 & H3 & H4 & H5 & H6 & H7 & H8 & H9 & _).
  exists pt', k. repeat (split; [assumption|]). assumption.
Qed.

Lemma pt_process_missed_ticks_catches_up_witness :
  exists pt' k,
    pt_process_missed_ticks
      (Example_late.late_world no_delay_for_missed_ticks) Example_late.late_pt
    = Some pt' /\
    scheduled pt' = 1000000 + k * 1000000 /\
    5700000 < scheduled pt' <= 6700000.
Proof.
  destruct (pt_process_missed_ticks_catches_up
              (Example_late.late_world no_delay_for_missed_ticks)
              Example_late.late_pt)
    as (pt' & k & Hrun & _ & _ & Hs & _ & Hnext & _).
  - reflexivity.
  - simpl. lia.
  - simpl. lia.
  - simpl. lia.
  - simpl. lia.
  - eexists. reflexivity.
  - exists pt', k. split; [exact Hrun|]. split; [exact Hs|].
    apply Hnext. simpl. lia.
Defined.

(** X6.  The expiry callback of a periodic record that is due counts the
    expiry, moves the deadline by [k >= 1] whole periods to a grid point
    that is not before [now] and at most one period after it, arms the
    host timer there and kicks the vCPU once.  Outside [no_missed_ticks_pending] mode the counter
    grows by the same [k] (modulo 2^32), in that mode by one.  No other
    record and no vCPU changes. *)
Theorem pt_timer_fn_periodic (w : world) (id : pt_id) (pt : periodic_time)
    (v : vcpu_id) :
  heap w !! id = Some pt -> pt_vcpu w pt = Some v -> one_shot pt = false ->
  0 <= scheduled pt <= NOW w ->
  0 < period pt -> NOW w + period pt < 2 ^ 63 ->
  exists w' pt' k,
    pt_timer_fn id w = Some w' /\ heap w' !! id = Some pt' /\
    1 <= k /\
    scheduled pt' = scheduled pt + k * period pt /\
    NOW w <= scheduled pt' <= NOW w + period pt /\
    pt_timer pt' = mk_timer true (scheduled pt') (cpu (pt_timer pt)) /\
    (timer_mode w = no_missed_ticks_pending ->
     pending_intr_nr pt' = u32 (pending_intr_nr pt + 1)) /\
    (timer_mode w <> no_missed_ticks_pending ->
     pending_intr_nr pt' = u32 (pending_intr_nr pt + k)) /\
    irq_issued pt' = irq_issued pt /\ on_list pt' = on_list pt /\
    (forall id', id' <> id -> heap w' !! id' = heap w !! id') /\
    vcpus w' = vcpus w /\
    trace w' = trace w ++ [vcpu_kick v].
Proof.
  intros Hpt Hv Hos Hs Hp Hnp.
  set (pt1 := set_scheduled (s64 (scheduled pt + period pt))
                (set_pending_intr_nr (u32 (pending_intr_nr pt + 1)) pt)).
  assert (Hs1 : scheduled pt1 = scheduled pt + period pt)
    by (simpl; apply s64_id; unfold in_s64; lia).
  assert (Hv1 : is_Some (pt_vcpu w pt1)) by (exists v; exact Hv).
  assert (Hr1 : 0 <= scheduled pt1 < 2 ^ 63) by lia.
  assert (Hn0 : 0 <= NOW w) by lia.
  destruct (pt_process_missed_ticks_grid w pt1 Hos Hn0 Hr1 Hp Hnp Hv1)
    as (pt' & k & Hrun & Hk0 & Hkz & Hsk & Hge & Hnext & Hnm & Hm & Hsame
        & Hon & Hiss & Htm & _).
  change (period pt1) with (period pt) in *.
  change (pending_intr_nr pt1) with (u32 (pending_intr_nr pt + 1)) in *.
  change (on_list pt1) with (on_list pt) in *.
  change (irq_issued pt1) with (irq_issued pt) in *.
  change (pt_timer pt1) with (pt_timer pt) in *.
  assert (Hlt : (id < length (heap w))%nat) by (eapply lookup_lt_Some; eauto).
  exists (emit [vcpu_kick v]
            (store_pt id (set_pt_timer (set_timer (pt_timer pt') (scheduled pt'))
                            pt') w)),
    (set_pt_timer (set_timer (pt_timer pt') (scheduled pt')) pt'), (1 + k).
  split.
  { unfold pt_timer_fn. rewrite Hpt. simpl. rewrite Hv. simpl.
    rewrite Hos. fold pt1. rewrite Hrun. reflexivity. }
  split; [simpl; now apply list_lookup_insert_eq|].
  split; [lia|]. simpl.
  split; [rewrite Hsk, Hs1; lia|].
  split.
  { split; [exact Hge|].
    destruct (Z.le_gt_cases (NOW w) (scheduled pt1)) as [Hle|Hgt].
    - apply Hkz in Hle. subst k. lia.
    - apply Hnext in Hgt. rewrite Hs1 in *. simpl in *. lia. }
  split; [now rewrite Htm|].
  split; [intros Hmode; now rewrite (Hnm Hmode)|].
  split.
  { intros Hmode. destruct (Z.eq_dec k 0) as [->|Hk].
    - rewrite (Hsame eq_refl). simpl. f_equal; lia.
    - rewrite (Hm Hmode) by lia. rewrite u32_add_u32. f_equal; lia. }
  split; [now rewrite Hiss|]. split; [now rewrite Hon|].
  split; [|split; reflexivity].
  intros id' Hne. apply list_lookup_insert_ne. congruence.
Qed.

Lemma pt_timer_fn_periodic_witness :
  exists w' pt' k,
    pt_timer_fn 0%nat (Example_late.late_world no_delay_for_missed_ticks)
    = Some w' /\
    heap w' !! 0%nat = Some pt' /\
    scheduled pt' = 1000000 + k * 1000000 /\
    5700000 <= scheduled pt' <= 6700000 /\
    pending_intr_nr pt' = u32 (0 + k).
Proof.
  destruct (pt_timer_fn_periodic
              (Example_late.late_world no_delay_for_missed_ticks) 0%nat
              Example_late.late_pt 0%nat)
    as (w' & pt' & k & Hrun & Hpt & _ & Hs & Hb & _ & _ & Hp & _).
  - reflexivity.
  - reflexivity.
  - reflexivity.
  - simpl. lia.
  - simpl. lia.
  - simpl. lia.
  - exists w', pt', k. split; [exact Hrun|]. split; [exact Hpt|].
    split; [exact Hs|]. split; [exact Hb|]. apply Hp. discriminate.
Defined.

Lemma is_pt_irq_first_witness :
  exists i pt,
    [1%nat; 0%nat] !! i = Some 0%nat /\
    heap Example_more.shared_world !! 0%nat = Some pt /\
    irq_issued pt = true.
Proof.
  destruct (is_pt_irq_first Example_more.shared_world 0%nat
              (mk_vcpu [1%nat; 0%nat] 0 0 0%nat false)
              (mk_intack hvm_intsrc_pic 32) 0%nat)
    as (i & pt & Hi & Hpt & _ & Hiss & _).
  - vm_compute. reflexivity.
  - vm_compute. reflexivity.
  - exists i, pt. split; [exact Hi|]. split; [exact Hpt | exact Hiss].
Defined.

(** ** The acknowledgement of a matched record *)

Section Acknowledged.

Local Arguments store_pt : simpl never.
Local Arguments store_vcpu : simpl never.
Local Arguments emit : simpl never.
Local Arguments list_del : simpl never.
Local Arguments hvm_get_guest_time : simpl never.
Local Arguments hvm_set_guest_time : simpl never.

(** [pt_intr_post] on a matched record, in one piece. *)
Lemma pt_intr_post_found (w : world) (v : vcpu_id) (vc : vcpu_state)
    (intack : hvm_intack) (id : pt_id) (pt : periodic_time) :
  vcpus w !! v = Some vc ->
  is_pt_irq w v intack = Some (Some id) -> heap w !! id = Some pt ->
  pt_intr_post v intack w = Some (acknowledged v vc id pt w).
Proof.
  intros Hv Hfound Hpt. unfold pt_intr_post, acknowledged, acked.
  rewrite Hfound. simpl. rewrite Hpt. simpl. rewrite Hv. simpl.
  destruct (one_shot pt) eqn:Hos;
    [destruct (on_list pt) eqn:Hon
    |destruct (mode_is w one_missed_tick_pending) eqn:Hm]; simpl.
  - rewrite list_lookup_fmap, Hv. simpl. now destruct (cb pt).
  - rewrite Hv. simpl. now destruct (cb pt).
  - rewrite Hv. simpl. now destruct (cb pt).
  - rewrite Hv. simpl. now destruct (cb pt).
Qed.

End Acknowledged.

Section Acks.

Lemma guest_time_set_get (w : world) (vc : vcpu_state) (g : Z) :
  in_u64 g -> hvm_get_guest_time w (hvm_set_guest_time w vc g) = g.
Proof.
  intros Hg. unfold hvm_get_guest_time, hvm_set_guest_time, u64. simpl.
  rewrite Z.add_mod_idemp_r by lia.
  replace (host_tsc w + (g - host_tsc w)) with g by lia.
  now apply Z.mod_small.
Qed.

Lemma acknowledged_outside (v : vcpu_id) (vc : vcpu_state) (id : pt_id)
    (pt : periodic_time) (w : world) :
  heap w !! id = Some pt ->
  heap (acknowledged v vc id pt w) = <[id := acked w vc pt]> (heap w) /\
  host_tsc (acknowledged v vc id pt w) = host_tsc w /\
  timer_mode (acknowledged v vc id pt w) = timer_mode w /\
  trace (acknowledged v vc id pt w)
  = trace w ++ match cb pt with
               | Some f => [call_cb f v (priv pt)]
               | None => []
               end.
Proof.
  intros Hpt. unfold acknowledged.
  destruct (cb pt); destruct (one_shot pt && on_list pt);
    destruct (mode_is w delay_for_missed_ticks
              && (hvm_get_guest_time w vc <? last_plt_gtime (acked w vc pt)));
    simpl; rewrite ?app_nil_r; auto.
Qed.

End Acks.

(** X7.  When [is_pt_irq] finds a periodic record for the acknowledged
    vector, [pt_intr_post] clears [irq_issued] and [do_not_freeze]; in
    [one_missed_tick_pending] mode it zeroes [pending_intr_nr] and stamps
    [last_plt_gtime] with the guest time, in every other mode it takes one
    tick off the counter, which was not zero, and moves [last_plt_gtime]
    on by [period_cycles].  The record stays on its list with its schedule
    and timer, no other record and no list changes, and the callback of
    the record, if it has one, is the one call made. *)
Theorem pt_intr_post_periodic (w : world) (v : vcpu_id) (vc : vcpu_state)
    (intack : hvm_intack) (id : pt_id) (pt : periodic_time) :
  vcpus w !! v = Some vc ->
  is_pt_irq w v intack = Some (Some id) ->
  heap w !! id = Some pt -> one_shot pt = false ->
  exists w' vc',
    pt_intr_post v intack w = Some w' /\
    pending_intr_nr pt <> 0 /\
    heap w' !! id
    = Some (if mode_is w one_missed_tick_pending
            then mk_pt (on_list pt) (one_shot pt) false false (source pt)
                   (irq pt) (vcpu pt) 0 (period pt) (period_cycles pt) (scheduled pt)
                   (hvm_get_guest_time w vc) (pt_timer pt) (cb pt) (priv pt)
            else mk_pt (on_list pt) (one_shot pt) false false (source pt)
                   (irq pt) (vcpu pt) (u32 (pending_intr_nr pt - 1)) (period pt)
                   (period_cycles pt) (scheduled pt)
                   (u64 (last_plt_gtime pt + period_cycles pt))
                   (pt_timer pt) (cb pt) (priv pt)) /\
    (forall id', id' <> id -> heap w' !! id' = heap w !! id') /\
    vcpus w' !! v = Some vc' /\ tm_list vc' = tm_list vc /\
    guest_time vc' = guest_time vc /\
    (forall u, u <> v -> vcpus w' !! u = vcpus w !! u) /\
    trace w' = trace w ++ match cb pt with
                          | Some f => [call_cb f v (priv pt)]
                          | None => []
                          end.
Proof.
  intros Hv Hfound Hpt Hos.
  assert (Hn : pending_intr_nr pt <> 0).
  { unfold is_pt_irq in Hfound. rewrite Hv in Hfound. simpl in Hfound.
    apply is_pt_irq_scan_found in Hfound as (_ & pt0 & Hpt0 & Hn & _).
    rewrite Hpt in Hpt0. now injection Hpt0 as <-. }
  assert (Hlt : (id < length (heap w))%nat) by (eapply lookup_lt_Some; eauto).
  assert (Hvlt : (v < length (vcpus w))%nat) by (eapply lookup_lt_Some; eauto).
  destruct (acknowledged_outside v vc id pt w Hpt) as (Hh & _ & _ & Htr).
  assert (Hvc : exists vc',
             vcpus (acknowledged v vc id pt w) !! v = Some vc' /\
             tm_list vc' = tm_list vc /\ guest_time vc' = guest_time vc /\
             forall u, u <> v ->
                       vcpus (acknowledged v vc id pt w) !! u = vcpus w !! u).
  { unfold acknowledged. rewrite Hos. simpl.
    destruct (mode_is w delay_for_missed_ticks
              && (hvm_get_guest_time w vc <? last_plt_gtime (acked w vc pt))).
    - eexists. split; [|split; [|split]].
      + destruct (cb pt); simpl; now apply list_lookup_insert_eq.
      + reflexivity.
      + reflexivity.
      + intros u Hu. destruct (cb pt); simpl;
          apply list_lookup_insert_ne; congruence.
    - exists vc. destruct (cb pt); simpl; auto. }
  destruct Hvc as (vc' & Hvc' & Htl & Hgt & Hother).
  exists (acknowledged v vc id pt w), vc'.
  split; [now apply pt_intr_post_found|]. split; [exact Hn|].
  split.
  { rewrite Hh, list_lookup_insert_eq by exact Hlt. f_equal.
    unfold acked, set_pending_intr_nr, set_last_plt_gtime, set_irq_issued,
      set_do_not_freeze. simpl.
    destruct (one_shot pt); [discriminate|].
    now destruct (mode_is w one_missed_tick_pending). }
  split.
  { intros id' Hne. rewrite Hh. apply list_lookup_insert_ne. congruence. }
  auto.
Qed.

Lemma pt_intr_post_periodic_witness :
  exists w' pt',
    pt_intr_post 0%nat (mk_intack hvm_intsrc_pic 32)
      (Example_ack.issued_world no_delay_for_missed_ticks) = Some w' /\
    heap w' !! 0%nat = Some pt' /\
    pending_intr_nr pt' = 0 /\ last_plt_gtime pt' = 2000000 /\
    trace w' = [vcpu_kick 0%nat; hvm_isa_irq_deassert 0; hvm_isa_irq_assert 0;
                call_cb 7%nat 0%nat 5].
Proof.
  destruct (pt_intr_post_periodic
              (Example_ack.issued_world no_delay_for_missed_ticks) 0%nat
              (mk_vcpu [0%nat] 0 0 0%nat false)
              (mk_intack hvm_intsrc_pic 32) 0%nat Example_ack.issued_pt)
    as (w' & vc' & Hrun & _ & Hpt & _ & _ & _ & _ & _ & Htr).
  - reflexivity.
  - reflexivity.
  - reflexivity.
  - reflexivity.
  - exists w'. eexists. split; [exact Hrun|]. split; [exact Hpt|].
    split; [reflexivity|]. split; [reflexivity | exact Htr].
Defined.

(** X8.  [pt_intr_post] never moves the guest time of the vCPU back, and
    changes it in [delay_for_missed_ticks] mode only; in that mode the
    guest time it leaves is not before the [last_plt_gtime] of the record
    it has acknowledged. *)
Theorem pt_intr_post_guest_time (w w' : world) (v : vcpu_id)
    (vc : vcpu_state) (intack : hvm_intack) :
  vcpus w !! v = Some vc -> pt_intr_post v intack w = Some w' ->
  (forall id pt, heap w !! id = Some pt -> in_u64 (last_plt_gtime pt)) ->
  exists vc',
    vcpus w' !! v = Some vc' /\ host_tsc w' = host_tsc w /\
    hvm_get_guest_time w vc <= hvm_get_guest_time w' vc' /\
    (timer_mode w <> delay_for_missed_ticks ->
     hvm_get_guest_time w' vc' = hvm_get_guest_time w vc) /\
    (forall id pt',
       timer_mode w = delay_for_missed_ticks ->
       is_pt_irq w v intack = Some (Some id) -> heap w' !! id = Some pt' ->
       last_plt_gtime pt' <= hvm_get_guest_time w' vc').
Proof.
  intros Hv Hrun Htyped.
  destruct (is_pt_irq w v intack) as [[id|]|] eqn:Hfound.
  - destruct (heap w !! id) as [pt|] eqn:Hpt.
    2:{ unfold pt_intr_post in Hrun. rewrite Hfound in Hrun. simpl in Hrun.
        rewrite Hpt in Hrun. discriminate. }
    rewrite (pt_intr_post_found w v vc intack id pt Hv Hfound Hpt) in Hrun.
    injection Hrun as <-.
    destruct (acknowledged_outside v vc id pt w Hpt) as (Hh & Ht & _ & _).
    assert (Hlt : (id < length (heap w))%nat)
      by (eapply lookup_lt_Some; eauto).
    assert (Hvlt : (v < length (vcpus w))%nat)
      by (eapply lookup_lt_Some; eauto).
    assert (Hl1 : in_u64 (last_plt_gtime (acked w vc pt))).
    { unfold acked. simpl. destruct (one_shot pt); simpl; [eauto|].
      destruct (mode_is w one_missed_tick_pending); simpl; apply u64_range. }
    assert (Hrec : forall pt', heap (acknowledged v vc id pt w) !! id = Some pt' ->
                               pt' = acked w vc pt).
    { intros pt'. rewrite Hh, list_lookup_insert_eq by exact Hlt. congruence. }
    set (unlink := one_shot pt && on_list pt).
    set (vc1 := if unlink
                then set_tm_list (filter (fun x => x <> id) (tm_list vc)) vc
                else vc).
    assert (Hoff : hvm_get_guest_time w vc1 = hvm_get_guest_time w vc)
      by (subst vc1; now destruct unlink).
    destruct (mode_is w delay_for_missed_ticks) eqn:Hm.
    + destruct (Z.ltb_spec (hvm_get_guest_time w vc)
                  (last_plt_gtime (acked w vc pt))) as [Hless|Hge].
      * exists (hvm_set_guest_time w vc1 (last_plt_gtime (acked w vc pt))).
        assert (Hget : hvm_get_guest_time (acknowledged v vc id pt w)
                         (hvm_set_guest_time w vc1
                            (last_plt_gtime (acked w vc pt)))
                       = last_plt_gtime (acked w vc pt)).
        { rewrite <- (guest_time_set_get w vc1 _ Hl1) at 2.
          unfold hvm_get_guest_time. now rewrite Ht. }
        split.
        { unfold acknowledged. fold unlink. fold vc1. rewrite Hm.
          destruct (Z.ltb_spec (hvm_get_guest_time w vc)
                      (last_plt_gtime (acked w vc pt))); [|lia].
          subst unlink. destruct (cb pt); destruct (one_shot pt && on_list pt);
            simpl; apply list_lookup_insert_eq;
            rewrite ?length_fmap; exact Hvlt. }
        split; [exact Ht|]. rewrite Hget.
        split; [lia|]. split.
        { intros Hne. apply mode_is_true in Hm. contradiction. }
        intros id0 pt' _ [= <-] Hpt'. rewrite (Hrec pt' Hpt'). lia.
      * exists vc1.
        assert (Hget : hvm_get_guest_time (acknowledged v vc id pt w) vc1
                       = hvm_get_guest_time w vc).
        { rewrite <- Hoff. unfold hvm_get_guest_time. now rewrite Ht. }
        split.
        { unfold acknowledged. fold unlink. fold vc1. rewrite Hm.
          destruct (Z.ltb_spec (hvm_get_guest_time w vc)
                      (last_plt_gtime (acked w vc pt))); [lia|].
          subst vc1 unlink.
          destruct (cb pt); destruct (one_shot pt && on_list pt); simpl;
            rewrite ?list_lookup_fmap, Hv; reflexivity. }
        split; [exact Ht|]. rewrite Hget.
        split; [lia|]. split; [reflexivity|].
        intros id0 pt' _ [= <-] Hpt'. rewrite (Hrec pt' Hpt'). lia.
    + exists vc1.
      assert (Hget : hvm_get_guest_time (acknowledged v vc id pt w) vc1
                     = hvm_get_guest_time w vc).
      { rewrite <- Hoff. unfold hvm_get_guest_time. now rewrite Ht. }
      split.
      { unfold acknowledged. fold unlink. fold vc1. rewrite Hm.
        subst vc1 unlink.
        destruct (cb pt); destruct (one_shot pt && on_list pt); simpl;
          rewrite ?list_lookup_fmap, Hv; reflexivity. }
      split; [exact Ht|]. rewrite Hget.
      split; [lia|]. split; [reflexivity|].
      intros id0 pt' Hmode. apply mode_is_false in Hm. contradiction.
  - unfold pt_intr_post in Hrun. rewrite Hfound in Hrun. simpl in Hrun.
    injection Hrun as <-. exists vc.
    split; [exact Hv|]. split; [reflexivity|]. split; [lia|].
    split; [reflexivity|]. intros id pt' _ [=].
  - unfold pt_intr_post in Hrun. rewrite Hfound in Hrun. discriminate.
Qed.

Lemma in_u64_last_plt_gtime_check (w : world) :
  forallb (fun pt => (0 <=? last_plt_gtime pt) && (last_plt_gtime pt <? 2 ^ 64))
          (heap w) = true ->
  forall id pt, heap w !! id = Some pt -> in_u64 (last_plt_gtime pt).
Proof.
  intros H id pt Hpt. rewrite forallb_forall in H.
  assert (Hin : In pt (heap w)).
  { apply list_elem_of_In. eapply list_elem_of_lookup_2; eauto. }
  specialize (H pt Hin). apply andb_true_iff in H as [H1 H2].
  apply Z.leb_le in H1. apply Z.ltb_lt in H2. split; assumption.
Qed.

Lemma pt_intr_post_guest_time_witness :
  exists w' vc',
    pt_intr_post 0%nat (mk_intack hvm_intsrc_pic 32)
      Example_more.delayed_world = Some w' /\
    vcpus w' !! 0%nat = Some vc' /\
    400000 <= hvm_get_guest_time w' vc'.
Proof.
  destruct (pt_intr_post 0%nat (mk_intack hvm_intsrc_pic 32)
              Example_more.delayed_world) as [w'|] eqn:Hrun;
    [|vm_compute in Hrun; discriminate].
  destruct (pt_intr_post_guest_time Example_more.delayed_world w' 0%nat
              (mk_vcpu [0%nat] 0 (u64 (400000 - 11400000)) 0%nat false)
              (mk_intack hvm_intsrc_pic 32))
    as (vc' & Hv & _ & Hle & _).
  - vm_compute. reflexivity.
  - exact Hrun.
  - apply in_u64_last_plt_gtime_check. vm_compute. reflexivity.
  - exists w', vc'. split; [reflexivity|]. split; [exact Hv|].
    etransitivity; [|exact Hle]. vm_compute. discriminate.
Defined.

(** ** The loops touch records only *)

Section Outside.

Lemma loop_outside (body : pt_id -> world -> option world) :
  (forall id w w', body id w = Some w' -> outside w' = outside w) ->
  forall l w w', list_for_each_entry body l w = Some w' ->
                 outside w' = outside w.
Proof.
  intros Hbody l. induction l as [|id l IH]; intros w w' H; simpl in H.
  - now injection H as <-.
  - bind_inv H as w1 H1. rewrite (IH _ _ H). eauto.
Qed.

Lemma pt_save_timer_body_outside id w w' :
  pt_save_timer_body id w = Some w' -> outside w' = outside w.
Proof.
  unfold pt_save_timer_body. intros H. bind_inv H as pt Hpt.
  destruct (do_not_freeze pt); now injection H as <-.
Qed.

Lemma pt_restore_timer_body_outside id w w' :
  pt_restore_timer_body id w = Some w' -> outside w' = outside w.
Proof.
  unfold pt_restore_timer_body. intros H.
  bind_inv H as pt Hpt. bind_inv H as pt1 Hpt1. now injection H as <-.
Qed.

Lemma pt_migrate_body_outside c id w w' :
  pt_migrate_body c id w = Some w' -> outside w' = outside w.
Proof.
  unfold pt_migrate_body. intros H. bind_inv H as pt Hpt.
  now injection H as <-.
Qed.

Lemma pt_reset_body_outside id w w' :
  pt_reset_body id w = Some w' -> outside w' = outside w.
Proof.
  unfold pt_reset_body. intros H.
  bind_inv H as pt Hpt. bind_inv H as u Hu. bind_inv H as uc Huc.
  now injection H as <-.
Qed.

End Outside.

(** X9.  Descheduling a vCPU that is not blocked and scheduling it again
    ([pt_save_timer], then [pt_restore_timer], whatever the clocks did in
    between): in [delay_for_missed_ticks] mode the guest time after the
    restore is the guest time at the save, and the saved copy is cleared,
    unless that guest time was 0, which [pt_thaw_time] takes for "nothing
    saved"; in the other modes the vCPU is left as it was, so its guest time
    has run on with the host's.  No timer list and no other vCPU changes. *)
Theorem pt_save_restore_guest_time (w w1 w2 w' : world) (v : vcpu_id)
    (vc : vcpu_state) :
  vcpus w !! v = Some vc -> blocked vc = false ->
  pt_save_timer v w = Some w1 ->
  vcpus w2 = vcpus w1 -> timer_mode w2 = timer_mode w1 ->
  pt_restore_timer v w2 = Some w' ->
  exists vc',
    vcpus w' !! v = Some vc' /\ tm_list vc' = tm_list vc /\
    (timer_mode w = delay_for_missed_ticks ->
     hvm_get_guest_time w vc <> 0 ->
     hvm_get_guest_time w' vc' = hvm_get_guest_time w vc /\
     guest_time vc' = 0) /\
    (timer_mode w = delay_for_missed_ticks ->
     hvm_get_guest_time w vc = 0 ->
     vc' = set_guest_time 0 vc) /\
    (timer_mode w <> delay_for_missed_ticks -> vc' = vc) /\
    (forall u, u <> v -> vcpus w' !! u = vcpus w !! u).
Proof.
  intros Hv Hb Hs Hvs Hms Hr.
  unfold pt_save_timer in Hs. rewrite Hv in Hs. simpl in Hs.
  rewrite Hb in Hs. bind_inv Hs as wa Hloop.
  pose proof (loop_outside pt_save_timer_body pt_save_timer_body_outside
                _ _ _ Hloop) as Ho.
  unfold outside in Ho. injection Ho as Hvca Hma _ Hta _ _ _.
  unfold pt_freeze_time in Hs. rewrite Hvca, Hv in Hs. simpl in Hs.
  assert (Hg : hvm_get_guest_time wa vc = hvm_get_guest_time w vc).
  { unfold hvm_get_guest_time. now rewrite Hta. }
  unfold pt_restore_timer in Hr. rewrite Hvs in Hr.
  destruct (mode_is wa delay_for_missed_ticks) eqn:Hmode; simpl in Hs;
    injection Hs as <-.
  - assert (Hv1 : vcpus (store_vcpu v
                           (set_guest_time (hvm_get_guest_time wa vc) vc) wa)
                  !! v
                  = Some (set_guest_time (hvm_get_guest_time wa vc) vc)).
    { apply vcpus_store_vcpu_eq with (vc := vc). now rewrite Hvca. }
    rewrite Hv1 in Hr. simpl in Hr. bind_inv Hr as wb Hloopb.
    pose proof (loop_outside pt_restore_timer_body
                  pt_restore_timer_body_outside _ _ _ Hloopb) as Ho.
    unfold outside in Ho. injection Ho as Hvcb Hmb _ Htb _ _ _.
    unfold pt_thaw_time in Hr. rewrite Hvcb, Hvs, Hv1 in Hr. simpl in Hr.
    assert (Hmodeb : mode_is wb delay_for_missed_ticks = true).
    { unfold mode_is in *. rewrite Hmb, Hms. exact Hmode. }
    rewrite Hmodeb in Hr. simpl in Hr. rewrite Hg in Hr.
    apply mode_is_true in Hmode. rewrite Hma in Hmode.
    destruct (hvm_get_guest_time w vc =? 0) eqn:Hz.
    + apply Z.eqb_eq in Hz. injection Hr as <-.
      exists (set_guest_time (hvm_get_guest_time wa vc) vc).
      rewrite Hvcb, Hvs. split; [exact Hv1|]. split; [reflexivity|].
      split; [intros _ Hne; contradiction|].
      split; [intros _ _; now rewrite Hg, Hz|].
      split; [intros Hne; contradiction|].
      intros u Hu. rewrite vcpus_store_vcpu_ne by congruence.
      now rewrite Hvca.
    + apply Z.eqb_neq in Hz. injection Hr as <-.
      eexists. split.
      { apply vcpus_store_vcpu_eq
          with (vc := set_guest_time (hvm_get_guest_time wa vc) vc).
        rewrite Hvcb, Hvs. exact Hv1. }
      split; [reflexivity|].
      split.
      { intros _ _. split; [|reflexivity].
        unfold hvm_get_guest_time at 1, hvm_set_guest_time, u64. simpl.
        rewrite Z.add_mod_idemp_r by lia.
        replace (host_tsc wb + (hvm_get_guest_time w vc - host_tsc wb))
          with (hvm_get_guest_time w vc) by lia.
        apply Z.mod_small. apply u64_range. }
      split; [intros _ Hz'; contradiction|].
      split; [intros Hne; contradiction|].
      intros u Hu. rewrite vcpus_store_vcpu_ne by congruence.
      rewrite Hvcb, Hvs. rewrite vcpus_store_vcpu_ne by congruence.
      now rewrite Hvca.
  - rewrite Hvca, Hv in Hr. simpl in Hr. bind_inv Hr as wb Hloopb.
    pose proof (loop_outside pt_restore_timer_body
                  pt_restore_timer_body_outside _ _ _ Hloopb) as Ho.
    unfold outside in Ho. injection Ho as Hvcb Hmb _ Htb _ _ _.
    unfold pt_thaw_time in Hr. rewrite Hvcb, Hvs, Hvca, Hv in Hr.
    simpl in Hr.
    assert (Hmodeb : mode_is wb delay_for_missed_ticks = false).
    { unfold mode_is in *. rewrite Hmb, Hms. exact Hmode. }
    rewrite Hmodeb in Hr. simpl in Hr. injection Hr as <-.
    assert (Hne : timer_mode w <> delay_for_missed_ticks).
    { intros Hm. rewrite <- Hma in Hm. apply mode_is_true in Hm. congruence. }
    exists vc. rewrite Hvcb, Hvs, Hvca.
    split; [exact Hv|]. split; [reflexivity|].
    split; [intros Hm; contradiction|].
    split; [intros Hm; contradiction|].
    split; [reflexivity|]. reflexivity.
Qed.

Lemma pt_save_restore_guest_time_witness :
  exists vc',
    vcpus Example_more.restored_world !! 0%nat = Some vc' /\
    hvm_get_guest_time Example_more.restored_world vc' = 400000.
Proof.
  destruct (pt_save_restore_guest_time Example_more.running_world
              Example_more.saved_world Example_more.resumed_world
              Example_more.restored_world 0%nat
              (mk_vcpu [0%nat] 0 0 0%nat false))
    as (vc' & Hv & _ & Hd & _).
  - vm_compute. reflexivity.
  - reflexivity.
  - vm_compute. reflexivity.
  - vm_compute. reflexivity.
  - vm_compute. reflexivity.
  - vm_compute. reflexivity.
  - exists vc'. split; [exact Hv|].
    destruct Hd as [Hd _]; [reflexivity | vm_compute; discriminate|].
    rewrite Hd. vm_compute. reflexivity.
Defined.

(** ** Loops that update each listed record in place *)

Section LoopMap.

Variable f : periodic_time -> periodic_time.
Variable body : pt_id -> world -> option world.
Hypothesis f_idem : forall pt, f (f pt) = f pt.
Hypothesis body_eq : forall id w pt,
  heap w !! id = Some pt -> body id w = Some (store_pt id (f pt) w).

Lemma loop_map (l : list pt_id) :
  forall w : world,
    (forall id, id ∈ l -> is_Some (heap w !! id)) ->
    exists w',
      list_for_each_entry body l w = Some w' /\ outside w' = outside w /\
      forall id,
        heap w' !! id
        = if decide (id ∈ l) then f <$> heap w !! id else heap w !! id.
Proof.
  induction l as [|a l IH]; intros w Hl.
  - exists w. split; [reflexivity|]. split; [reflexivity|].
    intros id. destruct (decide (id ∈ [])) as [Hin|_]; [|reflexivity].
    inversion Hin.
  - destruct (Hl a) as [pt Hpt]; [left|].
    simpl. rewrite (body_eq a w pt Hpt). simpl.
    destruct (IH (store_pt a (f pt) w)) as (w' & Hrun & Ho & Hh).
    { intros id Hid. destruct (decide (a = id)) as [<-|Hne].
      - rewrite (heap_store_pt_eq w a pt (f pt) Hpt). eauto.
      - rewrite heap_store_pt_ne by exact Hne. apply Hl. now right. }
    exists w'. split; [exact Hrun|]. split; [now rewrite Ho|].
    intros id. rewrite Hh. destruct (decide (a = id)) as [<-|Hne].
    + rewrite (heap_store_pt_eq w a pt (f pt) Hpt), Hpt.
      destruct (decide (a ∈ a :: l)) as [_|Hn]; [|exfalso; apply Hn; left].
      destruct (decide (a ∈ l)); simpl; [now rewrite f_idem | reflexivity].
    + rewrite heap_store_pt_ne by exact Hne.
      destruct (decide (id ∈ l)) as [Hin|Hnin];
        destruct (decide (id ∈ a :: l)) as [Hin'|Hnin']; try reflexivity.
      * exfalso. apply Hnin'. now right.
      * exfalso. apply elem_of_cons in Hin' as [->|Hin']; auto.
Qed.

End LoopMap.

Lemma frozen_idem (pt : periodic_time) : frozen (frozen pt) = frozen pt.
Proof.
  unfold frozen. destruct (do_not_freeze pt) eqn:Hd; [now rewrite Hd|].
  simpl. now rewrite Hd.
Qed.

Lemma pt_save_timer_body_eq (id : pt_id) (w : world) (pt : periodic_time) :
  heap w !! id = Some pt ->
  pt_save_timer_body id w = Some (store_pt id (frozen pt) w).
Proof.
  intros Hpt. unfold pt_save_timer_body, frozen. rewrite Hpt. simpl.
  destruct (do_not_freeze pt); [|reflexivity].
  now rewrite (store_pt_same w id pt Hpt).
Qed.

Lemma wf_listed_is_Some (w : world) (v : vcpu_id) (vc : vcpu_state) :
  wf w -> vcpus w !! v = Some vc ->
  forall id, id ∈ tm_list vc -> is_Some (heap w !! id).
Proof.
  intros Hwf Hv id Hid.
  destruct (wf_listed w v vc id Hwf Hv Hid) as (pt & Hpt & _). eauto.
Qed.

(** X10.  On a well-formed state [pt_save_timer] returns.  For a blocked
    vCPU it changes nothing.  Otherwise it stops the timer of every record
    of the vCPU's list that is not marked [do_not_freeze], and changes no
    other record, no other field of a record, no timer list and no event
    trace. *)
Theorem pt_save_timer_stops (w : world) (v : vcpu_id) (vc : vcpu_state) :
  wf w -> vcpus w !! v = Some vc ->
  exists w',
    pt_save_timer v w = Some w' /\
    (blocked vc = true -> w' = w) /\
    (blocked vc = false ->
     (forall id,
        heap w' !! id
        = if decide (id ∈ tm_list vc) then frozen <$> heap w !! id
          else heap w !! id) /\
     (forall u, tm_list <$> vcpus w' !! u = tm_list <$> vcpus w !! u) /\
     trace w' = trace w).
Proof.
  intros Hwf Hv. unfold pt_save_timer. rewrite Hv. simpl.
  destruct (blocked vc) eqn:Hb.
  - exists w. split; [reflexivity|]. split; [reflexivity | discriminate].
  - destruct (loop_map frozen pt_save_timer_body frozen_idem
                pt_save_timer_body_eq (tm_list vc) w
                (wf_listed_is_Some w v vc Hwf Hv))
      as (wa & Hloop & Ho & Hh).
    rewrite Hloop. simpl.
    unfold outside in Ho. injection Ho as Hvca _ _ _ _ _ Htr.
    unfold pt_freeze_time. rewrite Hvca, Hv. simpl.
    destruct (negb (mode_is wa delay_for_missed_ticks)).
    + exists wa. split; [reflexivity|]. split; [discriminate|].
      intros _. split; [exact Hh|]. split; [|exact Htr].
      intros u. now rewrite Hvca.
    + eexists. split; [reflexivity|]. split; [discriminate|].
      intros _. split; [exact Hh|]. split; [|exact Htr].
      intros u. destruct (decide (v = u)) as [<-|Hne].
      * rewrite (vcpus_store_vcpu_eq wa v vc) by now rewrite Hvca.
        now rewrite Hv.
      * rewrite vcpus_store_vcpu_ne by exact Hne. now rewrite Hvca.
Qed.

Lemma pt_save_timer_stops_witness :
  exists w',
    pt_save_timer 0%nat Example_more.shared_world = Some w' /\
    armed <$> (pt_timer <$> heap w' !! 1%nat) = Some false.
Proof.
  destruct (pt_save_timer_stops Example_more.shared_world 0%nat
              (mk_vcpu [1%nat; 0%nat] 0 0 0%nat false))
    as (w' & Hrun & _ & Hh).
  - apply wfb_wf. reflexivity.
  - reflexivity.
  - exists w'. split; [exact Hrun|].
    destruct Hh as (Hh & _); [reflexivity|].
    rewrite Hh. reflexivity.
Defined.

(** ** Restoring re-arms *)

Lemma pt_restore_timer_loop (l : list pt_id) :
  forall w w' : world,
    list_for_each_entry pt_restore_timer_body l w = Some w' ->
    forall id pt',
      heap w' !! id = Some pt' ->
      (id ∈ l -> armed (pt_timer pt') = true /\
                 expires (pt_timer pt') = scheduled pt') /\
      (id ∉ l -> heap w !! id = Some pt').
Proof.
  induction l as [|a l IH]; intros w w' H id pt' Hpt'; simpl in H.
  - injection H as <-. split; [intros Hin; inversion Hin | auto].
  - bind_inv H as w1 Hbody.
    destruct (IH w1 w' H id pt' Hpt') as [Hin Hout].
    unfold pt_restore_timer_body in Hbody.
    bind_inv Hbody as pt Hpt. bind_inv Hbody as pt1 Hpt1.
    injection Hbody as <-.
    destruct (decide (id ∈ l)) as [Hl|Hl].
    + split; [auto|]. intros Hn. exfalso. apply Hn. now right.
    + specialize (Hout Hl). split.
      * intros Hal. apply elem_of_cons in Hal as [->|Hal]; [|contradiction].
        rewrite (heap_store_pt_eq w a pt _ Hpt) in Hout.
        injection Hout as <-. simpl. auto.
      * intros Hn. rewrite heap_store_pt_ne in Hout; [exact Hout|].
        intros ->. apply Hn. left.
Qed.

(** X11.  After [pt_restore_timer] the timer of every record of the
    vCPU's list is armed, at the [scheduled] deadline of the record as the
    missed-tick processor has left it: also the timer of a record marked
    [do_not_freeze], and of a one-shot record that has fired and waits for
    its acknowledgement.  Records outside the list are left alone. *)
Theorem pt_restore_timer_arms (w w' : world) (v : vcpu_id) (vc : vcpu_state) :
  vcpus w !! v = Some vc -> pt_restore_timer v w = Some w' ->
  forall id pt',
    heap w' !! id = Some pt' ->
    (id ∈ tm_list vc ->
     armed (pt_timer pt') = true /\ expires (pt_timer pt') = scheduled pt') /\
    (id ∉ tm_list vc -> heap w !! id = Some pt').
Proof.
  intros Hv H id pt' Hpt'. unfold pt_restore_timer in H.
  rewrite Hv in H. simpl in H. bind_inv H as w1 Hloop.
  destruct (pt_thaw_time_same v w1 w' H) as [Hh _]. rewrite Hh in Hpt'.
  exact (pt_restore_timer_loop (tm_list vc) w w1 Hloop id pt' Hpt').
Qed.

(** X12.  On a well-formed state [pt_migrate] returns; it moves the timer
    of every record of the vCPU's list to the physical CPU the vCPU runs
    on, and changes nothing else: not whether a timer is armed, not its
    deadline, no other record, nothing outside the records. *)
Theorem pt_migrate_moves (w : world) (v : vcpu_id) (vc : vcpu_state) :
  wf w -> vcpus w !! v = Some vc ->
  exists w',
    pt_migrate v w = Some w' /\ outside w' = outside w /\
    forall id,
      heap w' !! id
      = if decide (id ∈ tm_list vc)
        then migrated (processor vc) <$> heap w !! id
        else heap w !! id.
Proof.
  intros Hwf Hv. unfold pt_migrate. rewrite Hv. simpl.
  apply (loop_map (migrated (processor vc))
           (pt_migrate_body (processor vc))).
  - reflexivity.
  - intros id w0 pt Hpt. unfold pt_migrate_body. now rewrite Hpt.
  - exact (wf_listed_is_Some w v vc Hwf Hv).
Qed.

Lemma pt_migrate_moves_witness :
  exists w',
    pt_migrate 0%nat Example_more.moved_world = Some w' /\
    pt_timer <$> heap w' !! 0%nat = Some (mk_timer true 4000000 3%nat).
Proof.
  destruct (pt_migrate_moves Example_more.moved_world 0%nat
              (mk_vcpu [1%nat; 0%nat] 0 0 3%nat false))
    as (w' & Hrun & _ & Hh).
  - apply wfb_wf. reflexivity.
  - reflexivity.
  - exists w'. split; [exact Hrun|]. rewrite Hh. reflexivity.
Defined.

Lemma pt_restore_timer_arms_witness :
  exists pt',
    heap Example_more.restored_world !! 0%nat = Some pt' /\
    armed (pt_timer pt') = true /\ expires (pt_timer pt') = scheduled pt'.
Proof.
  destruct (heap Example_more.restored_world !! 0%nat) as [pt'|] eqn:Hpt;
    [|vm_compute in Hpt; discriminate].
  assert (Hv : vcpus Example_more.resumed_world !! 0%nat
               = Some (mk_vcpu [0%nat] 400000 0 0%nat false))
    by (vm_compute; reflexivity).
  assert (Hrun : pt_restore_timer 0%nat Example_more.resumed_world
                 = Some Example_more.restored_world)
    by (vm_compute; reflexivity).
  destruct (pt_restore_timer_arms Example_more.resumed_world
              Example_more.restored_world 0%nat
              (mk_vcpu [0%nat] 400000 0 0%nat false) Hv Hrun 0%nat pt' Hpt)
    as [Hin _].
  exists pt'. split; [reflexivity|]. apply Hin. left.
Defined.

(** ** After a reset nothing is pending *)

Section Quiet.

Variable w : world.

Lemma pt_update_irq_scan_quiet (l : list pt_id) :
  (forall id, id ∈ l ->
     exists pt, heap w !! id = Some pt /\ pending_intr_nr pt = 0 /\
                is_Some (pt_vcpu w pt)) ->
  forall max_lag earliest_pt,
    pt_update_irq_scan w l max_lag earliest_pt = Some earliest_pt.
Proof.
  induction l as [|a l IH]; intros Hl max_lag e; [reflexivity|].
  destruct (Hl a) as (pt & Hpt & Hz & Hv); [left|].
  simpl. rewrite Hpt. simpl.
  destruct (masked_is_Some w pt Hv) as [m Hm]. rewrite Hm. simpl.
  rewrite Hz. simpl. rewrite andb_false_r. simpl.
  apply IH. intros id Hid. apply Hl. now right.
Qed.

Lemma is_pt_irq_scan_quiet (intack : hvm_intack) (l : list pt_id) :
  (forall id, id ∈ l ->
     exists pt, heap w !! id = Some pt /\ pending_intr_nr pt = 0 /\
                is_Some (pt_vcpu w pt)) ->
  is_pt_irq_scan w l intack = Some None.
Proof.
  induction l as [|a l IH]; intros Hl; [reflexivity|].
  destruct (Hl a) as (pt & Hpt & Hz & _); [left|].
  simpl. rewrite Hpt. simpl. rewrite Hz. simpl.
  apply IH. intros id Hid. apply Hl. now right.
Qed.

End Quiet.

(** X13.  On a well-formed state [pt_reset] returns, and in the state it
    leaves neither [pt_update_irq] nor [pt_intr_post] of the same vCPU does
    anything: no line is raised, and an acknowledgement that arrives for
    an interrupt raised before the reset finds no record, whatever its
    vector, although [irq_issued] may still be set. *)
Theorem pt_reset_quiesces (w : world) (v : vcpu_id) (vc : vcpu_state)
    (intack : hvm_intack) :
  wf w -> vcpus w !! v = Some vc ->
  exists w1,
    pt_reset v w = Some w1 /\
    pt_update_irq v w1 = Some w1 /\
    pt_intr_post v intack w1 = Some w1.
Proof.
  intros Hwf Hv.
  destruct (pt_reset_loop v vc (tm_list vc) w Hv) as (h' & Hrun & Hh').
  { intros id Hid.
    destruct (wf_listed w v vc id Hwf Hv Hid) as (pt & Hpt & _ & Hu & _).
    eauto. }
  exists (set_heap h' w).
  split; [unfold pt_reset; rewrite Hv; exact Hrun|].
  assert (Hq : forall id, id ∈ tm_list vc ->
             exists pt, heap (set_heap h' w) !! id = Some pt /\
                        pending_intr_nr pt = 0 /\
                        is_Some (pt_vcpu (set_heap h' w) pt)).
  { intros id Hid.
    destruct (wf_listed w v vc id Hwf Hv Hid) as (pt & Hpt & _ & Hu & _).
    exists (reset_of (NOW w) (hvm_get_guest_time w vc) pt).
    split.
    - simpl. rewrite (Hh' id pt Hpt).
      now destruct (decide (id ∈ tm_list vc)).
    - split; [reflexivity|]. exists v.
      apply (pt_vcpu_linked (set_heap h' w) v vc); [exact Hv | exact Hu]. }
  split.
  - unfold pt_update_irq.
    change (vcpus (set_heap h' w)) with (vcpus w). rewrite Hv. simpl.
    now rewrite (pt_update_irq_scan_quiet _ _ Hq).
  - unfold pt_intr_post, is_pt_irq.
    change (vcpus (set_heap h' w)) with (vcpus w). rewrite Hv. simpl.
    now rewrite (is_pt_irq_scan_quiet _ intack _ Hq).
Qed.

Lemma pt_reset_quiesces_witness :
  exists w1,
    pt_reset 0%nat (Example_ack.issued_world no_delay_for_missed_ticks)
    = Some w1 /\
    pt_intr_post 0%nat (mk_intack hvm_intsrc_pic 32) w1 = Some w1.
Proof.
  destruct (pt_reset_quiesces
              (Example_ack.issued_world no_delay_for_missed_ticks)
              0%nat (mk_vcpu [0%nat] 0 0 0%nat false)
              (mk_intack hvm_intsrc_pic 32))
    as (w1 & Hrun & _ & Hack).
  - apply wfb_wf. reflexivity.
  - reflexivity.
  - exists w1. split; [exact Hrun | exact Hack].
Defined.

(** ** What only creation writes, and the lists *)

Section Links.

Lemma fixed_refl (pt : periodic_time) : fixed pt pt.
Proof. unfold fixed. repeat split. Qed.

Lemma fixed_trans (a b c : periodic_time) : fixed a b -> fixed b c -> fixed a c.
Proof. unfold fixed. intuition congruence. Qed.

Lemma lists_lookup (w : world) (v : vcpu_id) :
  lists w !! v = tm_list <$> vcpus w !! v.
Proof. apply list_lookup_fmap. Qed.

Lemma lists_store_vcpu (w : world) (v : vcpu_id) (vc vc' : vcpu_state) :
  vcpus w !! v = Some vc -> tm_list vc' = tm_list vc ->
  lists (store_vcpu v vc' w) = lists w.
Proof.
  intros Hv Ht. unfold lists. simpl. rewrite list_fmap_insert, Ht.
  apply list_insert_id. now rewrite list_lookup_fmap, Hv.
Qed.

Lemma lists_list_del (w : world) (id : pt_id) :
  lists (list_del id w) = filter (fun x => x <> id) <$> lists w.
Proof.
  unfold lists. simpl. rewrite <- !list_fmap_compose. reflexivity.
Qed.

Lemma unlinks_same (w w' : world) :
  heap w' = heap w -> lists w' = lists w -> unlinks None w w'.
Proof.
  intros Hh Hl. split; [|split; [now rewrite Hh | exact Hl]].
  intros id pt Hpt. exists pt. rewrite Hh. split; [exact Hpt|].
  split; [apply fixed_refl | reflexivity].
Qed.

Lemma unlinks_refl (w : world) : unlinks None w w.
Proof. now apply unlinks_same. Qed.

Lemma unlinks_trans (d : option pt_id) (w1 w2 w3 : world) :
  unlinks None w1 w2 -> unlinks d w2 w3 -> unlinks d w1 w3.
Proof.
  intros (H12 & Hn12 & Hl12) (H23 & Hn23 & Hl23).
  split; [|split; [congruence | now rewrite Hl23, Hl12]].
  intros id pt Hpt.
  destruct (H12 id pt Hpt) as (pt2 & Hpt2 & Hf2 & Ho2).
  destruct (H23 id pt2 Hpt2) as (pt3 & Hpt3 & Hf3 & Ho3).
  exists pt3. split; [exact Hpt3|]. split; [eapply fixed_trans; eauto|].
  rewrite Ho3. simpl in Ho2. now rewrite Ho2.
Qed.

Lemma unlinks_store (d : option pt_id) (w w' : world) (id : pt_id)
    (pt pt' : periodic_time) :
  heap w !! id = Some pt -> fixed pt pt' ->
  on_list pt' = (if decide (d = Some id) then false else on_list pt) ->
  (forall i p, i <> id -> heap w !! i = Some p -> d = Some i ->
               on_list p = false) ->
  heap w' = <[id := pt']> (heap w) ->
  lists w' = match d with
             | Some id => filter (fun x => x <> id) <$> lists w
             | None => lists w
             end ->
  unlinks d w w'.
Proof.
  intros Hpt Hf Ho Hother Hh Hl.
  split; [|split; [now rewrite Hh, length_insert | exact Hl]].
  intros i p Hp. rewrite Hh. destruct (decide (id = i)) as [<-|Hne].
  - exists pt'.
    rewrite list_lookup_insert_eq by (eapply lookup_lt_Some; eauto).
    rewrite Hpt in Hp. injection Hp as <-. auto.
  - exists p. rewrite list_lookup_insert_ne by exact Hne.
    split; [exact Hp|]. split; [apply fixed_refl|].
    destruct (decide (d = Some i)) as [Hd|_]; [|reflexivity].
    apply (Hother i p); auto.
Qed.

Lemma unlinks_store_pt (w : world) (id : pt_id) (pt pt' : periodic_time) :
  heap w !! id = Some pt -> fixed pt pt' -> on_list pt' = on_list pt ->
  unlinks None w (store_pt id pt' w).
Proof.
  intros Hpt Hf Ho.
  apply (unlinks_store None w _ id pt pt'); auto. discriminate.
Qed.

Lemma unlinks_loop (body : pt_id -> world -> option world) :
  (forall id w w', body id w = Some w' -> unlinks None w w') ->
  forall l w w', list_for_each_entry body l w = Some w' -> unlinks None w w'.
Proof.
  intros Hbody l. induction l as [|a l IH]; intros w w' H; simpl in H.
  - injection H as <-. apply unlinks_refl.
  - bind_inv H as w1 H1. eapply unlinks_trans; eauto.
Qed.

Lemma pt_process_missed_ticks_fixed (w : world) (pt pt' : periodic_time) :
  pt_process_missed_ticks w pt = Some pt' ->
  fixed pt pt' /\ on_list pt' = on_list pt.
Proof.
  unfold pt_process_missed_ticks. intros H.
  destruct (one_shot pt);
    [injection H as <-; split; [apply fixed_refl | reflexivity]|].
  destruct (s64 (NOW w - scheduled pt) <=? 0);
    [injection H as <-; split; [apply fixed_refl | reflexivity]|].
  destruct (s64 (period pt) =? 0); [discriminate|].
  bind_inv H as v Hv.
  destruct (mode_is w no_missed_ticks_pending); injection H as <-;
    (split; [unfold fixed; simpl; repeat split | reflexivity]).
Qed.

Lemma pt_save_timer_unlinks v w w' :
  pt_save_timer v w = Some w' -> unlinks None w w'.
Proof.
  unfold pt_save_timer. intros H. bind_inv H as vc Hv.
  destruct (blocked vc); [injection H as <-; apply unlinks_refl|].
  bind_inv H as w1 Hloop.
  apply (unlinks_trans None w w1 w').
  - apply (unlinks_loop pt_save_timer_body) with (l := tm_list vc);
      [|exact Hloop].
    intros id wa wb Hb. unfold pt_save_timer_body in Hb.
    bind_inv Hb as pt Hpt.
    destruct (do_not_freeze pt); injection Hb as <-;
      [apply unlinks_refl|].
    apply (unlinks_store_pt wa id pt); [exact Hpt | | reflexivity].
    unfold fixed. simpl. repeat split.
  - unfold pt_freeze_time in H. bind_inv H as vc1 Hv1.
    destruct (negb (mode_is w1 delay_for_missed_ticks)); injection H as <-;
      [apply unlinks_refl|].
    apply unlinks_same; [reflexivity|].
    now apply (lists_store_vcpu w1 v vc1).
Qed.

Lemma pt_restore_timer_unlinks v w w' :
  pt_restore_timer v w = Some w' -> unlinks None w w'.
Proof.
  unfold pt_restore_timer. intros H. bind_inv H as vc Hv.
  bind_inv H as w1 Hloop.
  apply (unlinks_trans None w w1 w').
  - apply (unlinks_loop pt_restore_timer_body) with (l := tm_list vc);
      [|exact Hloop].
    intros id wa wb Hb. unfold pt_restore_timer_body in Hb.
    bind_inv Hb as pt Hpt. bind_inv Hb as pt1 Hpt1. injection Hb as <-.
    destruct (pt_process_missed_ticks_fixed wa pt pt1 Hpt1) as [Hf Ho].
    apply (unlinks_store_pt wa id pt); [exact Hpt | | exact Ho].
    unfold fixed in *. simpl. exact Hf.
  - unfold pt_thaw_time in H. bind_inv H as vc1 Hv1.
    destruct (negb (mode_is w1 delay_for_missed_ticks));
      [injection H as <-; apply unlinks_refl|].
    destruct (guest_time vc1 =? 0); injection H as <-;
      [apply unlinks_refl|].
    apply unlinks_same; [reflexivity|].
    now apply (lists_store_vcpu w1 v vc1).
Qed.

Lemma pt_reset_unlinks v w w' : pt_reset v w = Some w' -> unlinks None w w'.
Proof.
  unfold pt_reset. intros H. bind_inv H as vc Hv.
  apply (unlinks_loop pt_reset_body) with (l := tm_list vc); [|exact H].
  intros id wa wb Hb. unfold pt_reset_body in Hb.
  bind_inv Hb as pt Hpt. bind_inv Hb as u Hu. bind_inv Hb as uc Huc.
  injection Hb as <-.
  apply (unlinks_store_pt wa id pt); [exact Hpt | | reflexivity].
  unfold fixed. simpl. repeat split.
Qed.

Lemma pt_migrate_unlinks v w w' :
  pt_migrate v w = Some w' -> unlinks None w w'.
Proof.
  unfold pt_migrate. intros H. bind_inv H as vc Hv.
  apply (unlinks_loop (pt_migrate_body (processor vc)))
    with (l := tm_list vc); [|exact H].
  intros id wa wb Hb. unfold pt_migrate_body in Hb.
  bind_inv Hb as pt Hpt. injection Hb as <-.
  apply (unlinks_store_pt wa id pt); [exact Hpt | | reflexivity].
  unfold fixed. simpl. repeat split.
Qed.

Lemma pt_timer_fn_unlinks id w w' :
  pt_timer_fn id w = Some w' -> unlinks None w w'.
Proof.
  unfold pt_timer_fn. intros H.
  bind_inv H as pt Hpt. bind_inv H as v Hv. bind_inv H as pt1 Hpt1.
  injection H as <-.
  assert (Hf : fixed pt pt1 /\ on_list pt1 = on_list pt).
  { simpl in Hpt1. destruct (one_shot pt).
    - injection Hpt1 as <-. split; [unfold fixed; simpl; repeat split|].
      reflexivity.
    - bind_inv Hpt1 as pt2 Hpt2. injection Hpt1 as <-.
      apply pt_process_missed_ticks_fixed in Hpt2.
      unfold fixed in *. simpl in *. exact Hpt2. }
  destruct Hf as [Hf Ho].
  apply (unlinks_store None w _ id pt pt1); auto. discriminate.
Qed.

Lemma fire_timer_unlinks id w w' :
  fire_timer id w = Some w' -> unlinks None w w'.
Proof.
  unfold fire_timer. intros H. bind_inv H as pt Hpt.
  destruct (armed (pt_timer pt) && (expires (pt_timer pt) <=? NOW w));
    [|discriminate].
  eapply unlinks_trans; [|apply (pt_timer_fn_unlinks _ _ _ H)].
  apply (unlinks_store_pt w id pt); [exact Hpt | | reflexivity].
  unfold fixed. simpl. repeat split.
Qed.

Lemma pt_update_irq_unlinks v w w' :
  pt_update_irq v w = Some w' -> unlinks None w w'.
Proof.
  unfold pt_update_irq. intros H. bind_inv H as vc Hv.
  bind_inv H as r Hscan. destruct r as [id|];
    [|injection H as <-; apply unlinks_refl].
  bind_inv H as pt Hpt.
  apply (unlinks_store None w _ id pt (set_irq_issued true pt)); auto.
  - unfold fixed. simpl. repeat split.
  - discriminate.
  - destruct (source pt); now injection H as <-.
  - destruct (source pt); now injection H as <-.
Qed.

(** [destroy_periodic_time] unlinks the record when it is marked and has a
    vCPU, and leaves the lists alone otherwise. *)
Lemma destroy_periodic_time_unlinks_rel id w w' pt :
  destroy_periodic_time id w = Some w' -> heap w !! id = Some pt ->
  (on_list pt = true /\ vcpu pt <> None /\ unlinks (Some id) w w') \/
  ((on_list pt = false \/ vcpu pt = None) /\ unlinks None w w').
Proof.
  unfold destroy_periodic_time. intros H Hpt. rewrite Hpt in H. simpl in H.
  destruct (vcpu pt) as [v|] eqn:Hvc;
    [|injection H as <-; right; split; [now right | apply unlinks_refl]].
  bind_inv H as vc Hv. injection H as <-.
  destruct (on_list pt) eqn:Hon.
  - left. split; [reflexivity|]. split; [discriminate|].
    apply (unlinks_store (Some id) w _ id pt
             (set_pt_timer (kill_timer (pt_timer pt)) (set_on_list false pt)));
      auto.
    + unfold fixed. simpl. repeat split.
    + simpl. now destruct (decide (Some id = Some id)).
    + intros i p Hne _ [= ->]. congruence.
    + exact (lists_list_del w id).
  - right. split; [now left|].
    apply (unlinks_store_pt w id pt); [exact Hpt | | simpl; now rewrite Hon].
    unfold fixed. simpl. repeat split.
Qed.

Lemma lists_acknowledged (v : vcpu_id) (vc : vcpu_state) (id : pt_id)
    (pt : periodic_time) (w : world) :
  vcpus w !! v = Some vc ->
  lists (acknowledged v vc id pt w)
  = if one_shot pt && on_list pt
    then filter (fun x => x <> id) <$> lists w else lists w.
Proof.
  intros Hv. unfold acknowledged. cbv zeta.
  assert (Hcb : forall x,
             lists match cb pt with
                   | Some f => emit [call_cb f v (priv pt)] x
                   | None => x
                   end = lists x) by (intros x; now destruct (cb pt)).
  rewrite Hcb.
  destruct (one_shot pt && on_list pt);
    destruct (mode_is w delay_for_missed_ticks
              && (hvm_get_guest_time w vc <? last_plt_gtime (acked w vc pt))).
  - transitivity (lists (store_pt id (acked w vc pt) (list_del id w)));
      [|exact (lists_list_del w id)].
    apply (lists_store_vcpu _ v
             (set_tm_list (filter (fun x => x <> id) (tm_list vc)) vc));
      [|reflexivity].
    simpl. now rewrite list_lookup_fmap, Hv.
  - exact (lists_list_del w id).
  - transitivity (lists (store_pt id (acked w vc pt) w)); [|reflexivity].
    now apply (lists_store_vcpu _ v vc).
  - reflexivity.
Qed.

Lemma pt_intr_post_unlinks v intack w w' :
  pt_intr_post v intack w = Some w' -> exists d, unlinks d w w'.
Proof.
  intros H.
  destruct (is_pt_irq w v intack) as [[id|]|] eqn:Hfound.
  - assert (Hv : is_Some (vcpus w !! v)).
    { unfold is_pt_irq in Hfound.
      destruct (vcpus w !! v); [eauto | discriminate]. }
    destruct Hv as [vc Hv].
    destruct (heap w !! id) as [pt|] eqn:Hpt.
    2:{ unfold pt_intr_post in H. rewrite Hfound in H. simpl in H.
        rewrite Hpt in H. discriminate. }
    rewrite (pt_intr_post_found w v vc intack id pt Hv Hfound Hpt) in H.
    injection H as <-.
    destruct (acknowledged_outside v vc id pt w Hpt) as (Hh & _).
    pose proof (lists_acknowledged v vc id pt w Hv) as Hl.
    destruct (one_shot pt) eqn:Hos; [destruct (on_list pt) eqn:Hon|];
      simpl in Hl.
    + exists (Some id).
      apply (unlinks_store (Some id) w _ id pt (acked w vc pt)); auto.
      * unfold acked. simpl. rewrite Hos. unfold fixed. simpl. repeat split.
      * unfold acked. simpl. rewrite Hos. simpl.
        now destruct (decide (Some id = Some id)).
      * intros i p Hne _ [= ->]. congruence.
    + exists None.
      apply (unlinks_store None w _ id pt (acked w vc pt)); auto.
      * unfold acked. simpl. rewrite Hos. unfold fixed. simpl. repeat split.
      * unfold acked. simpl. rewrite Hos. simpl. now rewrite Hon.
      * discriminate.
    + exists None.
      apply (unlinks_store None w _ id pt (acked w vc pt)); auto.
      * unfold acked. simpl. rewrite Hos.
        destruct (mode_is w one_missed_tick_pending);
          unfold fixed; simpl; repeat split; now rewrite ?Hos.
      * unfold acked. simpl. rewrite Hos.
        now destruct (mode_is w one_missed_tick_pending).
      * discriminate.
  - unfold pt_intr_post in H. rewrite Hfound in H. simpl in H.
    injection H as <-. exists None. apply unlinks_refl.
  - unfold pt_intr_post in H. rewrite Hfound in H. discriminate.
Qed.

(** Every step but a creation. *)
Lemma step_unlinks (o : op) (w w' : world) :
  (forall id, creates id o = false) -> step o w = Some w' ->
  exists d, unlinks d w w'.
Proof.
  intros Hc H. destruct o; simpl in H.
  - specialize (Hc id). simpl in Hc. now rewrite Nat.eqb_refl in Hc.
  - destruct (heap w !! id) as [pt|] eqn:Hpt.
    + destruct (destroy_periodic_time_unlinks_rel id w w' pt H Hpt)
        as [(_ & _ & Hu) | (_ & Hu)]; eauto.
    + unfold destroy_periodic_time in H. rewrite Hpt in H. discriminate.
  - exists None. eapply pt_save_timer_unlinks; eauto.
  - exists None. eapply pt_restore_timer_unlinks; eauto.
  - exists None. eapply pt_update_irq_unlinks; eauto.
  - eapply pt_intr_post_unlinks; eauto.
  - exists None. eapply pt_reset_unlinks; eauto.
  - exists None. eapply pt_migrate_unlinks; eauto.
  - exists None. eapply fire_timer_unlinks; eauto.
  - injection H as <-. exists None. now apply unlinks_same.
  - injection H as <-. exists None. now apply unlinks_same.
  - bind_inv H as vc Hv. injection H as <-. exists None.
    apply unlinks_same; [reflexivity|].
    now apply (lists_store_vcpu w v vc).
Qed.

Lemma create_periodic_time_other v id0 p i os f d w w' id pt :
  create_periodic_time v id0 p i os f d w = Some w' -> id <> id0 ->
  heap w !! id = Some pt ->
  exists pt', heap w' !! id = Some pt' /\ fixed pt pt' /\
              on_list pt' = on_list pt.
Proof.
  intros H Hne Hpt. unfold create_periodic_time in H. cbv zeta in H.
  bind_inv H as w1 Hd. bind_inv H as vc Hv. bind_inv H as ptd Hptd.
  injection H as <-.
  assert (Hex : exists d, (d = None \/ d = Some id0) /\ unlinks d w w1).
  { destruct (heap w !! id0) as [p0|] eqn:Hp0.
    - destruct (destroy_periodic_time_unlinks_rel id0 w w1 p0 Hd Hp0)
        as [(_ & _ & Hu) | (_ & Hu)]; eauto.
    - unfold destroy_periodic_time in Hd. rewrite Hp0 in Hd. discriminate. }
  destruct Hex as (d0 & Hd0 & Hrel & _).
  destruct (Hrel id pt Hpt) as (pt1 & Hpt1 & Hf & Ho).
  exists pt1. split.
  - simpl. rewrite list_lookup_insert_ne by congruence.
    now destruct ((u64 p <? 900000) && negb os).
  - split; [exact Hf|]. rewrite Ho.
    destruct (decide (d0 = Some id)) as [Heq|]; [|reflexivity].
    destruct Hd0; congruence.
Qed.

Lemma create_or_not (o : op) :
  (forall id, creates id o = false) \/
  exists v id p i os f d, o = Op_create v id p i os f d.
Proof.
  destruct o; try (left; intros; reflexivity).
  right. repeat eexists.
Qed.

Lemma step_fixed (id : pt_id) (o : op) (w w' : world) (pt : periodic_time) :
  creates id o = false -> step o w = Some w' -> heap w !! id = Some pt ->
  exists pt', heap w' !! id = Some pt' /\ fixed pt pt' /\
              (on_list pt' = true -> on_list pt = true).
Proof.
  intros Hc H Hpt.
  assert (Hvia : (exists d, unlinks d w w') ->
                 exists pt', heap w' !! id = Some pt' /\ fixed pt pt' /\
                             (on_list pt' = true -> on_list pt = true)).
  { intros (d & Hrel & _). destruct (Hrel id pt Hpt) as (pt' & Hpt' & Hf & Ho).
    exists pt'. split; [exact Hpt'|]. split; [exact Hf|].
    rewrite Ho. now destruct (decide (d = Some id)). }
  destruct (create_or_not o) as [Hn | (v & id0 & p & i & os & f & d & ->)];
    [apply Hvia; exact (step_unlinks o w w' Hn H)|].
  simpl in Hc. apply Nat.eqb_neq in Hc. simpl in H.
  destruct (create_periodic_time_other _ _ _ _ _ _ _ _ _ id pt H Hc Hpt)
    as (pt' & Hpt' & Hf & Ho).
  exists pt'. split; [exact Hpt'|]. split; [exact Hf|]. now rewrite Ho.
Qed.

Lemma tight_unlinks (d : option pt_id) (w w' : world) :
  tight w -> unlinks d w w' -> tight w'.
Proof.
  intros [HA HB] (Hrel & Hlen & Hl). split.
  - intros id pt' Hpt' Hon.
    assert (Hsome : is_Some (heap w !! id)).
    { apply lookup_lt_is_Some. rewrite <- Hlen. eapply lookup_lt_Some; eauto. }
    destruct Hsome as [pt Hpt].
    destruct (Hrel id pt Hpt) as (pt2 & Hpt2 & Hf & Ho).
    rewrite Hpt' in Hpt2. injection Hpt2 as <-.
    destruct (decide (d = Some id)) as [Hd|Hd]; [congruence|].
    rewrite Hon in Ho. symmetry in Ho.
    destruct (HA id pt Hpt Ho) as (v & l & Hv & Hlv & Hin).
    destruct Hf as (_ & _ & _ & Hvc & _).
    destruct d as [x|].
    + exists v, (filter (fun y => y <> x) l). split; [congruence|].
      split; [rewrite Hl, list_lookup_fmap, Hlv; reflexivity|].
      apply list_elem_of_filter. split; [congruence | exact Hin].
    + exists v, l. rewrite Hl. split; [congruence | auto].
  - intros v l' Hl'. rewrite Hl in Hl'. destruct d as [x|]; [|eauto].
    rewrite list_lookup_fmap in Hl'.
    destruct (lists w !! v) as [l|] eqn:Hlv; [|discriminate].
    injection Hl' as <-. apply list.NoDup_filter. eauto.
Qed.

Lemma filter_lists_ne_id (id : pt_id) (ls : list (list pt_id)) :
  (forall v l, ls !! v = Some l -> id ∉ l) ->
  filter (fun x => x <> id) <$> ls = ls.
Proof.
  intros H. apply list_eq. intros v. rewrite list_lookup_fmap.
  destruct (ls !! v) as [l|] eqn:Hl; [|reflexivity].
  simpl. f_equal. apply filter_ne_id. eauto.
Qed.

Lemma unlinks_weaken (id : pt_id) (w w' : world) :
  unlinks None w w' ->
  (forall pt, heap w !! id = Some pt -> on_list pt = false) ->
  (forall v l, lists w !! v = Some l -> id ∉ l) ->
  unlinks (Some id) w w'.
Proof.
  intros (Hrel & Hlen & Hl) Hoff Hno.
  split; [|split; [exact Hlen | now rewrite filter_lists_ne_id]].
  intros i p Hp. destruct (Hrel i p Hp) as (p' & Hp' & Hf & Ho).
  exists p'. split; [exact Hp'|]. split; [exact Hf|].
  rewrite Ho. simpl.
  destruct (decide (Some id = Some i)) as [[= ->]|]; [|reflexivity].
  now apply Hoff.
Qed.

Lemma wf_not_listed (w : world) (id : pt_id) (pt : periodic_time) :
  wf w -> heap w !! id = Some pt -> on_list pt = false ->
  forall v l, lists w !! v = Some l -> id ∉ l.
Proof.
  intros Hwf Hpt Hoff v l Hl Hin. rewrite lists_lookup in Hl.
  destruct (vcpus w !! v) as [vc|] eqn:Hv; [|discriminate].
  injection Hl as <-.
  destruct (wf_linked w Hwf v vc id Hv Hin) as (p & Hp & Hon & _).
  congruence.
Qed.

Lemma destroy_periodic_time_unlinks_tight id w w' :
  wf w -> tight w -> destroy_periodic_time id w = Some w' ->
  unlinks (Some id) w w'.
Proof.
  intros Hwf [HA HB] H.
  destruct (heap w !! id) as [p0|] eqn:Hp0;
    [|unfold destroy_periodic_time in H; rewrite Hp0 in H; discriminate].
  destruct (destroy_periodic_time_unlinks_rel id w w' p0 H Hp0)
    as [(_ & _ & Hu) | (Hcase & Hu)]; [exact Hu|].
  assert (Hoff : on_list p0 = false).
  { destruct Hcase as [Hoff|Hnone]; [exact Hoff|].
    destruct (on_list p0) eqn:Hon; [|reflexivity].
    destruct (HA id p0 Hp0 Hon) as (v & l & Hv & _). congruence. }
  apply unlinks_weaken; [exact Hu | | exact (wf_not_listed w id p0 Hwf Hp0 Hoff)].
  intros pt Hpt. congruence.
Qed.

Lemma tight_same (w w' : world) :
  heap w' = heap w -> vcpus w' = vcpus w -> tight w -> tight w'.
Proof.
  intros Hh Hv [HA HB]. unfold tight, lists. rewrite Hh, Hv. now split.
Qed.

Lemma tight_push (w : world) (v : vcpu_id) (vc : vcpu_state) (id : pt_id)
    (pt' : periodic_time) :
  tight w -> vcpus w !! v = Some vc -> is_Some (heap w !! id) ->
  (forall u l, lists w !! u = Some l -> id ∉ l) ->
  on_list pt' = true -> vcpu pt' = Some v ->
  tight (store_vcpu v (set_tm_list (id :: tm_list vc) vc) (store_pt id pt' w)).
Proof.
  intros [HA HB] Hv [p0 Hp0] Hno Hon Hvc.
  assert (Hlists : lists (store_vcpu v (set_tm_list (id :: tm_list vc) vc)
                            (store_pt id pt' w))
                   = <[v := id :: tm_list vc]> (lists w)).
  { unfold lists. simpl. now rewrite list_fmap_insert. }
  assert (Hlv : lists w !! v = Some (tm_list vc))
    by (rewrite lists_lookup, Hv; reflexivity).
  assert (Hlt : (v < length (lists w))%nat) by (eapply lookup_lt_Some; eauto).
  split.
  - intros i p Hp Hpon. simpl in Hp.
    destruct (decide (id = i)) as [<-|Hne].
    + rewrite list_lookup_insert_eq in Hp by (eapply lookup_lt_Some; eauto).
      injection Hp as <-. exists v, (id :: tm_list vc).
      split; [exact Hvc|].
      split; [rewrite Hlists; now apply list_lookup_insert_eq | left].
    + rewrite list_lookup_insert_ne in Hp by exact Hne.
      destruct (HA i p Hp Hpon) as (u & l & Hu & Hlu & Hin).
      destruct (decide (v = u)) as [<-|Hvu].
      * exists v, (id :: tm_list vc). split; [exact Hu|].
        split; [rewrite Hlists; now apply list_lookup_insert_eq|].
        right. rewrite Hlv in Hlu. now injection Hlu as <-.
      * exists u, l. split; [exact Hu|].
        split; [now rewrite Hlists, list_lookup_insert_ne by exact Hvu|].
        exact Hin.
  - intros u l Hl. rewrite Hlists in Hl.
    destruct (decide (v = u)) as [<-|Hvu].
    + rewrite list_lookup_insert_eq in Hl by exact Hlt.
      injection Hl as <-. apply list.NoDup_cons. split; eauto.
    + rewrite list_lookup_insert_ne in Hl by exact Hvu. eauto.
Qed.

Lemma tight_create v id p i os f d w w' :
  wf w -> tight w -> create_periodic_time v id p i os f d w = Some w' ->
  tight w'.
Proof.
  intros Hwf Ht H. unfold create_periodic_time in H. cbv zeta in H.
  bind_inv H as w1 Hd. bind_inv H as vc Hv. bind_inv H as ptd Hptd.
  pose proof (destroy_periodic_time_unlinks_tight id w w1 Hwf Ht Hd) as Hu.
  pose proof (tight_unlinks _ w w1 Ht Hu) as Ht1.
  assert (Hno : forall u l, lists w1 !! u = Some l -> id ∉ l).
  { destruct Hu as (_ & _ & Hl). intros u l Hlu. rewrite Hl in Hlu.
    rewrite list_lookup_fmap in Hlu.
    destruct (lists w !! u) as [l0|]; [|discriminate].
    injection Hlu as <-. rewrite list_elem_of_filter. tauto. }
  injection H as <-.
  set (W2 := if (u64 p <? 900000) && negb os
             then emit [gdprintk_small_period (u64 p)] w1 else w1).
  assert (HW2 : heap W2 = heap w1 /\ vcpus W2 = vcpus w1)
    by (subst W2; destruct ((u64 p <? 900000) && negb os); auto).
  destruct HW2 as [Hh2 Hv2].
  apply tight_push.
  - now apply (tight_same w1 W2).
  - now rewrite Hv2.
  - rewrite Hh2. eauto.
  - unfold lists. rewrite Hv2. exact Hno.
  - reflexivity.
  - reflexivity.
Qed.

Lemma tight_step (o : op) (w w' : world) :
  wf w -> tight w -> step o w = Some w' -> tight w'.
Proof.
  intros Hwf Ht H.
  destruct (create_or_not o) as [Hn | (v & id0 & p & i & os & f & d & ->)].
  - destruct (step_unlinks o w w' Hn H) as [d0 Hu].
    exact (tight_unlinks d0 w w' Ht Hu).
  - simpl in H. eapply tight_create; eauto.
Qed.

Lemma tight_run (ops : list op) :
  forall w w', wf w -> tight w -> run ops w = Some w' -> wf w' /\ tight w'.
Proof.
  induction ops as [|o ops IH]; intros w w' Hwf Ht H; simpl in H.
  - injection H as <-. now split.
  - bind_inv H as w1 H1.
    apply (IH w1 w'); [eapply wf_step | eapply tight_step |]; eauto.
Qed.

Lemma tightb_tight (w : world) : tightb w = true -> tight w.
Proof.
  unfold tightb. intros H. apply andb_true_iff in H as [H1 H2]. split.
  - intros id pt Hpt Hon.
    pose proof (forallb_from_lookup _ _ 0%nat id pt H1 Hpt) as Hb.
    simpl in Hb. rewrite Hon in Hb. simpl in Hb.
    destruct (vcpu pt) as [v|] eqn:Hv; [|discriminate].
    destruct (lists w !! v) as [l|] eqn:Hl; [|discriminate].
    apply bool_decide_eq_true in Hb. exists v, l. auto.
  - intros v l Hl. rewrite forallb_forall in H2.
    eapply bool_decide_eq_true_1. apply H2.
    apply list_elem_of_In. eapply list_elem_of_lookup_2; eauto.
Qed.

End Links.

(** X14.  Only [create_periodic_time] of a record writes its
    configuration: over any sequence of operations, expiries and changes
    of the environment that does not create the record anew, its
    [one_shot], [source], [irq], [vcpu], [period], [period_cycles], [cb]
    and [priv] are what they were, and [on_list] is never set. *)
Theorem configuration_fixed (ops : list op) :
  forall (w w' : world) (id : pt_id) (pt : periodic_time),
    forallb (fun o => negb (creates id o)) ops = true ->
    run ops w = Some w' -> heap w !! id = Some pt ->
    exists pt',
      heap w' !! id = Some pt' /\ fixed pt pt' /\
      (on_list pt' = true -> on_list pt = true).
Proof.
  induction ops as [|o ops IH]; intros w w' id pt Hc H Hpt; simpl in H.
  - injection H as <-. exists pt. split; [exact Hpt|].
    split; [apply fixed_refl | auto].
  - simpl in Hc. apply andb_true_iff in Hc as [Ho Hc].
    apply negb_true_iff in Ho. bind_inv H as w1 H1.
    destruct (step_fixed id o w w1 pt Ho H1 Hpt) as (pt1 & Hpt1 & Hf1 & Hon1).
    destruct (IH w1 w' id pt1 Hc H Hpt1) as (pt' & Hpt' & Hf & Hon).
    exists pt'. split; [exact Hpt'|].
    split; [eapply fixed_trans; eauto | auto].
Qed.

Lemma configuration_fixed_witness :
  exists pt',
    heap Example_more.ended_world !! 0%nat = Some pt' /\
    period pt' = 1000000 /\ cb pt' = Some 7%nat /\ vcpu pt' = Some 0%nat.
Proof.
  destruct (configuration_fixed Example_more.life_ops
              Example_more.created_world Example_more.ended_world 0%nat
              (mk_pt true false false false PTSRC_isa 0 (Some 0%nat) 0
                 1000000 2000000 1000000 0 (mk_timer true 1000000 0%nat)
                 (Some 7%nat) 5))
    as (pt' & Hpt' & Hf & _).
  - reflexivity.
  - vm_compute. reflexivity.
  - vm_compute. reflexivity.
  - exists pt'. split; [exact Hpt'|].
    destruct Hf as (_ & _ & _ & Hv & Hp & _ & Hcb & _).
    rewrite Hp, Hcb, Hv. repeat split.
Defined.

(** X15.  Over any sequence of operations, expiries and changes of the
    environment from a well-formed state in which every record marked
    [on_list] is on the list of its vCPU and no list holds a record twice,
    this stays so: in the state reached a record is on the list of a vCPU
    exactly when it is marked [on_list] and its [vcpu] is that vCPU, and
    no list holds a record twice. *)
Theorem lists_invariant (ops : list op) (w w' : world) :
  wf w -> tight w -> run ops w = Some w' ->
  wf w' /\ tight w' /\
  (forall id pt v vc,
     heap w' !! id = Some pt -> vcpus w' !! v = Some vc ->
     (id ∈ tm_list vc <-> on_list pt = true /\ vcpu pt = Some v)) /\
  (forall v vc, vcpus w' !! v = Some vc -> NoDup (tm_list vc)).
Proof.
  intros Hwf Ht H.
  destruct (tight_run ops w w' Hwf Ht H) as [Hwf' Ht'].
  split; [exact Hwf'|]. split; [exact Ht'|].
  destruct Ht' as [HA HB]. split.
  - intros id pt v vc Hpt Hv. split.
    + intros Hin.
      destruct (wf_linked w' Hwf' v vc id Hv Hin) as (p & Hp & Hon & Hvc).
      rewrite Hpt in Hp. injection Hp as <-. now split.
    + intros [Hon Hvc].
      destruct (HA id pt Hpt Hon) as (u & l & Hu & Hl & Hin).
      rewrite Hvc in Hu. injection Hu as <-.
      rewrite lists_lookup, Hv in Hl. now injection Hl as <-.
  - intros v vc Hv. apply (HB v). now rewrite lists_lookup, Hv.
Qed.

Lemma lists_invariant_witness :
  exists vc,
    vcpus Example_more.busy_world !! 0%nat = Some vc /\ NoDup (tm_list vc).
Proof.
  destruct (lists_invariant Example_more.busy_ops
              (Example.boot no_delay_for_missed_ticks)
              Example_more.busy_world)
    as (_ & _ & _ & Hnd).
  - apply wfb_wf. reflexivity.
  - apply tightb_tight. reflexivity.
  - vm_compute. reflexivity.
  - exists (mk_vcpu [1%nat] 0 0 0%nat false).
    split; [vm_compute; reflexivity|].
    apply (Hnd 0%nat). vm_compute. reflexivity.
Defined.

(** X16.  On a well-formed state [pt_update_irq] returns and leaves the
    vCPUs alone.  Either it changes nothing, and then every eligible
    record of the list has the key 2^64 - 1; or it takes the first record
    of the list among the eligible ones with the least key, sets its
    [irq_issued], changes no other record, and raises its line: a LAPIC
    vector is set, an ISA line is lowered and then raised. *)
Theorem pt_update_irq_chooses (w : world) (v : vcpu_id) (vc : vcpu_state) :
  wf w -> vcpus w !! v = Some vc ->
  exists w',
    pt_update_irq v w = Some w' /\ vcpus w' = vcpus w /\
    ((w' = w /\
      forall id pt, id ∈ tm_list vc -> heap w !! id = Some pt ->
                    eligible w pt -> lag_key pt = 2 ^ 64 - 1)
     \/ (exists i id pt,
           selects w (tm_list vc) i id pt /\ lag_key pt < 2 ^ 64 - 1 /\
           heap w' = <[id := set_irq_issued true pt]> (heap w) /\
           trace w'
           = trace w ++
             match source pt with
             | PTSRC_lapic => [vlapic_set_irq v (irq pt) 0]
             | PTSRC_isa =>
                 [hvm_isa_irq_deassert (irq pt); hvm_isa_irq_assert (irq pt)]
             end)).
Proof.
  intros Hwf Hv.
  destruct (pt_update_irq_spec w v vc Hwf Hv)
    as [[Hrun Hall] | (i & id & pt & Hsel & Hlt & Hrun)].
  - exists w. split; [exact Hrun|]. split; [reflexivity|]. left. now split.
  - exists (assert_line v id pt w). split; [exact Hrun|].
    split; [reflexivity|]. right. exists i, id, pt.
    split; [exact Hsel|]. split; [exact Hlt|]. split; reflexivity.
Qed.

Lemma pt_update_irq_chooses_witness :
  exists w',
    pt_update_irq 0%nat
      (Example_ack.issued_world no_delay_for_missed_ticks) = Some w' /\
    vcpus w' = vcpus (Example_ack.issued_world no_delay_for_missed_ticks).
Proof.
  destruct (pt_update_irq_chooses
              (Example_ack.issued_world no_delay_for_missed_ticks)
              0%nat (mk_vcpu [0%nat] 0 0 0%nat false))
    as (w' & Hrun & Hv & _).
  - apply wfb_wf. reflexivity.
  - reflexivity.
  - exists w'. split; [exact Hrun | exact Hv].
Defined.

(** ** Armed timers and deadlines *)

Section OnTime.




Lemma pt_process_missed_ticks_timer (w : world) (pt pt' : periodic_time) :
  pt_process_missed_ticks w pt = Some pt' -> pt_timer pt' = pt_timer pt.
Proof.
  unfold pt_process_missed_ticks. intros H.
  destruct (one_shot pt); [now injection H as <-|].
  destruct (s64 (NOW w - scheduled pt) <=? 0); [now injection H as <-|].
  destruct (s64 (period pt) =? 0); [discriminate|].
  bind_inv H as v Hv.
  destruct (mode_is w no_missed_ticks_pending); now injection H as <-.
Qed.








End OnTime.



(** ** What the operations emit *)

Section Emitted.

Lemma pt_freeze_time_trace v w w' :
  pt_freeze_time v w = Some w' -> trace w' = trace w.
Proof.
  unfold pt_freeze_time. intros H. bind_inv H as vc Hv.
  destruct (negb (mode_is w delay_for_missed_ticks)); now injection H as <-.
Qed.

Lemma pt_thaw_time_trace v w w' :
  pt_thaw_time v w = Some w' -> trace w' = trace w.
Proof.
  unfold pt_thaw_time. intros H. bind_inv H as vc Hv.
  destruct (negb (mode_is w delay_for_missed_ticks));
    [now injection H as <-|].
  destruct (guest_time vc =? 0); now injection H as <-.
Qed.

Lemma loop_trace (body : pt_id -> world -> option world) :
  (forall id w w', body id w = Some w' -> outside w' = outside w) ->
  forall l w w', list_for_each_entry body l w = Some w' ->
                 trace w' = trace w.
Proof.
  intros Hbody l w w' H.
  pose proof (loop_outside body Hbody l w w' H) as Ho.
  unfold outside in Ho. now injection Ho.
Qed.

Lemma destroy_periodic_time_trace id w w' :
  destroy_periodic_time id w = Some w' -> trace w' = trace w.
Proof.
  unfold destroy_periodic_time. intros H. bind_inv H as pt Hpt.
  destruct (vcpu pt) as [v|]; [|now injection H as <-].
  bind_inv H as vc Hv. injection H as <-. now destruct (on_list pt).
Qed.

Lemma step_emitted (o : op) (w w' : world) :
  step o w = Some w' ->
  exists es, trace w' = trace w ++ es /\ emitted o es.
Proof.
  assert (Hnone : trace w' = trace w ->
                  exists es, trace w' = trace w ++ es /\ es = []).
  { intros Ht. exists []. now rewrite app_nil_r. }
  intros H. destruct o; simpl in H; simpl emitted.
  - unfold create_periodic_time in H. cbv zeta in H.
    bind_inv H as w1 Hd. bind_inv H as vc Hv. bind_inv H as ptd Hptd.
    apply destroy_periodic_time_trace in Hd. injection H as <-.
    destruct ((u64 period0 <? 900000) && negb one_shot0); simpl; rewrite Hd.
    + eexists. split; [reflexivity|]. right. eauto.
    + exists []. split; [now rewrite app_nil_r | now left].
  - apply Hnone. eapply destroy_periodic_time_trace; eauto.
  - apply Hnone. unfold pt_save_timer in H. bind_inv H as vc Hv.
    destruct (blocked vc); [now injection H as <-|].
    bind_inv H as w1 Hloop.
    rewrite (pt_freeze_time_trace v w1 w' H).
    exact (loop_trace _ pt_save_timer_body_outside _ _ _ Hloop).
  - apply Hnone. unfold pt_restore_timer in H. bind_inv H as vc Hv.
    bind_inv H as w1 Hloop.
    rewrite (pt_thaw_time_trace v w1 w' H).
    exact (loop_trace _ pt_restore_timer_body_outside _ _ _ Hloop).
  - unfold pt_update_irq in H. bind_inv H as vc Hv.
    bind_inv H as r Hscan. destruct r as [id|].
    + bind_inv H as pt Hpt.
      destruct (source pt); injection H as <-;
        (eexists; split; [reflexivity|]); right; [right | left]; eauto.
    + injection H as <-. exists []. split; [now rewrite app_nil_r | now left].
  - destruct (is_pt_irq w v intack) as [[id|]|] eqn:Hfound.
    + assert (Hv : is_Some (vcpus w !! v)).
      { unfold is_pt_irq in Hfound.
        destruct (vcpus w !! v); [eauto | discriminate]. }
      destruct Hv as [vc Hv].
      destruct (heap w !! id) as [pt|] eqn:Hpt.
      2:{ unfold pt_intr_post in H. rewrite Hfound in H. simpl in H.
          rewrite Hpt in H. discriminate. }
      rewrite (pt_intr_post_found w v vc intack id pt Hv Hfound Hpt) in H.
      injection H as <-.
      destruct (acknowledged_outside v vc id pt w Hpt) as (_ & _ & _ & Ht).
      eexists. split; [exact Ht|].
      destruct (cb pt); [right; eauto | now left].
    + unfold pt_intr_post in H. rewrite Hfound in H. simpl in H.
      injection H as <-. exists []. split; [now rewrite app_nil_r | now left].
    + unfold pt_intr_post in H. rewrite Hfound in H. discriminate.
  - apply Hnone. unfold pt_reset in H. bind_inv H as vc Hv.
    exact (loop_trace _ pt_reset_body_outside _ _ _ H).
  - apply Hnone. unfold pt_migrate in H. bind_inv H as vc Hv.
    exact (loop_trace _ (pt_migrate_body_outside (processor vc)) _ _ _ H).
  - unfold fire_timer in H. bind_inv H as pt Hpt.
    destruct (armed (pt_timer pt) && (expires (pt_timer pt) <=? NOW w));
      [|discriminate].
    unfold pt_timer_fn in H.
    bind_inv H as pt0 Hpt0. bind_inv H as v Hv. bind_inv H as pt1 Hpt1.
    injection H as <-. eexists. split; [reflexivity | eauto].
  - injection H as <-. now apply Hnone.
  - injection H as <-. now apply Hnone.
  - bind_inv H as vc Hv. injection H as <-. now apply Hnone.
Qed.

End Emitted.

(** X18.  What a sequence of steps adds to the event trace is what its
    steps add one after the other, and a step adds nothing but this:
    [create_periodic_time] at most the message about a small period;
    [pt_update_irq] at most one interrupt, a LAPIC vector of the vCPU or
    an ISA line that is lowered and then raised; [pt_intr_post] at most
    one callback, for the vCPU; an expiry exactly one kick; every other
    step nothing. *)
Theorem run_emitted (ops : list op) :
  forall w w' : world,
    run ops w = Some w' ->
    exists ess, Forall2 emitted ops ess /\ trace w' = trace w ++ concat ess.
Proof.
  induction ops as [|o ops IH]; intros w w' H; simpl in H.
  - injection H as <-. exists []. split; [constructor|].
    simpl. now rewrite app_nil_r.
  - bind_inv H as w1 H1.
    destruct (step_emitted o w w1 H1) as (es & Ht1 & He).
    destruct (IH w1 w' H) as (ess & Hall & Ht).
    exists (es :: ess). split; [now constructor|].
    simpl. now rewrite Ht, Ht1, app_assoc.
Qed.

Lemma run_emitted_witness :
  exists ess,
    Forall2 emitted Example_ack.issued_ops ess /\
    trace (Example_ack.issued_world no_delay_for_missed_ticks)
    = trace (Example.boot no_delay_for_missed_ticks) ++ concat ess.
Proof.
  apply (run_emitted Example_ack.issued_ops
           (Example.boot no_delay_for_missed_ticks)
           (Example_ack.issued_world no_delay_for_missed_ticks)).
  reflexivity.
Defined.
